(** * The tool-calling loop of the orchestrator (core/orchestrator.py)

    A shallow embedding of [Orchestrator] and of the part of [core/config.py]
    it uses, followed by the properties of the orchestration loop, of the
    history pruning and of the memory-reasoning sub-loop.

    Layout: texts and the operations of Python's [str] that the code uses;
    the two regular expressions of the code; decoded JSON values; messages;
    the external collaborators (LLM endpoint, tools, memory store, library
    functions) as an interface; the methods of [Orchestrator]; the registry
    of the tools; the two callers of [chat], the loop of [main] (agent.py)
    and the endpoint [agent_general_query] (main.py); the short-term memory
    tools of [ConversationMemoryAgent]; theorems. *)

From Stdlib Require Import String Ascii DecimalString.
From Stdlib Require Import List Arith Lia Bool NArith ZArith.
From Stdlib Require Import PrimFloat.
Import ListNotations.

(* ------------------------------------------------------------------ *)
(** ** Texts *)
(* ------------------------------------------------------------------ *)

(** A Python [str] is a sequence of Unicode code points. *)
Definition char := N.
Definition str := list char.

(** The texts written in the source are ASCII; [lit] reads one. *)
Definition lit (s : String.string) : str :=
  map N_of_ascii (String.list_ascii_of_string s).
Arguments lit s%_string.

Definition char_eqb (a b : char) : bool := N.eqb a b.

Fixpoint str_eqb (a b : str) : bool :=
  match a, b with
  | [], [] => true
  | x :: a', y :: b' => char_eqb x y && str_eqb a' b'
  | _, _ => false
  end.

(** [str.isspace] on one code point: the characters [str.strip] removes and
    the class [\s] of [re] on [str] patterns. *)
Definition isspace (c : char) : bool :=
  ((9 <=? c) && (c <=? 13) || (28 <=? c) && (c <=? 32)
   || (c =? 133) || (c =? 160) || (c =? 5760)
   || (8192 <=? c) && (c <=? 8202) || (c =? 8232) || (c =? 8233)
   || (c =? 8239) || (c =? 8287) || (c =? 12288))%N.

(** [s.startswith(p)] *)
Fixpoint startswith (p s : str) : bool :=
  match p, s with
  | [], _ => true
  | _ :: _, [] => false
  | a :: p', b :: s' => char_eqb a b && startswith p' s'
  end.

(** [s.endswith(p)] *)
Definition endswith (p s : str) : bool := startswith (rev p) (rev s).

(** [s.find(p)]: the index of the first occurrence, [None] for Python's -1. *)
Fixpoint find (p s : str) : option nat :=
  if startswith p s then Some 0
  else match s with
       | [] => None
       | _ :: s' => option_map S (find p s')
       end.

(** [s.rfind(p)]: the index of the last occurrence. *)
Fixpoint rfind (p s : str) : option nat :=
  match s with
  | [] => if startswith p [] then Some 0 else None
  | _ :: s' =>
      match rfind p s' with
      | Some i => Some (S i)
      | None => if startswith p s then Some 0 else None
      end
  end.

(** [p in s] *)
Definition contains (p s : str) : bool :=
  match find p s with Some _ => true | None => false end.

(** [s.lstrip()], [s.rstrip()], [s.strip()] *)
Fixpoint lstrip (s : str) : str :=
  match s with
  | c :: s' => if isspace c then lstrip s' else s
  | [] => []
  end.

Fixpoint rstrip (s : str) : str :=
  match s with
  | [] => []
  | c :: s' =>
      match rstrip s' with
      | [] => if isspace c then [] else [c]
      | r => c :: r
      end
  end.

Definition strip (s : str) : str := rstrip (lstrip s).

(** [s.replace(p, "")] for a non-empty [p]: every occurrence found from left
    to right is dropped; [skip] counts the characters of the occurrence being
    dropped that are still ahead. *)
Fixpoint remove_from (p : str) (skip : nat) (s : str) : str :=
  match s with
  | [] => []
  | c :: s' =>
      match skip with
      | S k => remove_from p k s'
      | 0 => if startswith p s then remove_from p (length p - 1) s'
             else c :: remove_from p 0 s'
      end
  end.

Definition replace_with_empty (p s : str) : str := remove_from p 0 s.

(** [s[i:]] and [s[:i]] for [0 <= i]. *)
Definition slice_from (i : nat) (s : str) : str := skipn i s.
Definition slice_to (i : nat) (s : str) : str := firstn i s.

(** Decimal numeral of a natural number, as an f-string prints it. *)
Definition decimal (n : nat) : str :=
  lit (DecimalString.NilZero.string_of_uint (Nat.to_uint n)).

(* ------------------------------------------------------------------ *)
(** ** The regular expressions *)
(* ------------------------------------------------------------------ *)

(** Both patterns of the code have the shape [open (anything)*? close tail]
    where [tail] is empty or [\s*].  A lazy body makes a match at the
    leftmost [open] end at the first [close] after it; when no [close]
    follows the leftmost [open], none follows a later one either, and the
    scan is over.  [scan] cuts a text into the pieces [(gap, body)] of the
    matches, from left to right, and the rest after the last match; [eat]
    consumes the [tail] of the pattern.  Every match is at least as long as
    the two markers, so [length s] rounds are enough. *)
Section Scan.
Variables (open close : str) (eat : str -> str).

Fixpoint scan (fuel : nat) (s : str) : list (str * str) * str :=
  match fuel with
  | 0 => ([], s)
  | S fuel' =>
      match find open s with
      | None => ([], s)
      | Some i =>
          let inner := slice_from (i + length open) s in
          match find close inner with
          | None => ([], s)
          | Some j =>
              let after := eat (slice_from (j + length close) inner) in
              let '(ms, rest) := scan fuel' after in
              ((slice_to i s, slice_to j inner) :: ms, rest)
          end
      end
  end.

(** [pattern.finditer(s)], each match given by its group 1. *)
Definition finditer (s : str) : list str := map snd (fst (scan (length s) s)).

(** [pattern.sub("", s)] *)
Definition sub_empty (s : str) : str :=
  let '(ms, rest) := scan (length s) s in concat (map fst ms) ++ rest.
End Scan.

(** [TOOL_CALL_PATTERN = re.compile(r"<tool_call>([\s\S]*?)</tool_call>")] *)
Definition TOOL_OPEN : str := lit "<tool_call>".
Definition TOOL_CLOSE : str := lit "</tool_call>".
Definition TOOL_CALL_PATTERN_finditer : str -> list str :=
  finditer TOOL_OPEN TOOL_CLOSE (fun s => s).
Definition TOOL_CALL_PATTERN_sub : str -> str :=
  sub_empty TOOL_OPEN TOOL_CLOSE (fun s => s).

(** [re.sub(r"<think>.*?</think>\s*", "", s, flags=re.DOTALL)] *)
Definition THINK_OPEN : str := lit "<think>".
Definition THINK_CLOSE : str := lit "</think>".
Definition think_finditer : str -> list str :=
  finditer THINK_OPEN THINK_CLOSE lstrip.
Definition think_sub : str -> str :=
  sub_empty THINK_OPEN THINK_CLOSE lstrip.

(* ------------------------------------------------------------------ *)
(** ** Decoded JSON and messages *)
(* ------------------------------------------------------------------ *)

(** What [json.loads] builds: [None], [bool], [int], [float], [str], [list]
    and [dict] (a [dict] as the list of its items, in insertion order). *)
#[warnings="-register-all"]
Inductive json : Type :=
| JNull
| JBool (b : bool)
| JInt (n : Z)
| JFloat (f : float)
| JStr (s : str)
| JList (xs : list json)
| JDict (items : list (str * json)).

(** [d.get(key)] on the items of a [dict] *)
Fixpoint dict_lookup {A : Type} (key : str) (items : list (str * A)) : option A :=
  match items with
  | [] => None
  | (k, v) :: rest => if str_eqb k key then Some v else dict_lookup key rest
  end.

(** [d.get(key, default)] *)
Definition dict_get (key : str) (default : json) (items : list (str * json)) : json :=
  match dict_lookup key items with Some v => v | None => default end.

(** Truth value of a decoded value ([if not tool_name]). *)
Definition truthy (v : json) : bool :=
  match v with
  | JNull => false
  | JBool b => b
  | JInt n => negb (Z.eqb n 0)
  | JFloat f => negb (PrimFloat.eqb f 0%float)
  | JStr s => negb (str_eqb s [])
  | JList xs => match xs with [] => false | _ => true end
  | JDict items => match items with [] => false | _ => true end
  end.

(** A [list] or a [dict] cannot be looked up in a [dict]: [x in d] raises
    [TypeError] for them. *)
Definition hashable (v : json) : bool :=
  match v with
  | JList _ | JDict _ => false
  | _ => true
  end.

Inductive Role : Type := system | user | assistant | tool.

Definition Role_eqb (a b : Role) : bool :=
  match a, b with
  | system, system | user, user | assistant, assistant | tool, tool => true
  | _, _ => false
  end.

(** One entry of [self.messages]: the keys ["role"] and ["content"], and the
    optional keys ["tool_calls"], ["tool_call_id"] and ["name"]. *)
Record message : Type := mkMessage {
  role : Role;
  content : str;
  tool_calls : option (list json);
  tool_call_id : option json;
  name : option json
}.

Definition plain_message (r : Role) (c : str) : message :=
  mkMessage r c None None None.

Definition tool_message (id nm : json) (c : str) : message :=
  mkMessage tool c None (Some id) (Some nm).

(** [new_msg["content"] = c] *)
Definition set_content (m : message) (c : str) : message :=
  mkMessage (role m) c (tool_calls m) (tool_call_id m) (name m).

(** One entry of the ["messages"] of a request to the primary model. *)
Record wire_message : Type := mkWire {
  w_role : Role;
  w_name : option str;
  w_content : str
}.

(* ------------------------------------------------------------------ *)
(** ** The collaborators *)
(* ------------------------------------------------------------------ *)

(** What [requests.post(...)], [raise_for_status()] and [response.json()]
    leave to [_get_llm_response]: the first choice's message, with its
    ["content"] ([None] for a JSON null; a missing key reads as the empty
    text) and its ["reasoning"] when that is a text; a timeout; or one of
    the other failures, with the error text the handler builds for it. *)
Inductive api_outcome : Type :=
| Api_message (api_content : option str) (api_reasoning : option str)
| Api_timeout
| Api_error (error_message : str).

(** The same call in [_invoke_memory_reasoning_llm]: the content of the
    first choice, a [RequestException], or any other exception. *)
Inductive reasoner_outcome : Type :=
| Reasoner_content (c : str)
| Reasoner_request_exception
| Reasoner_exception.

(** The exceptions that leave [chat]: [AttributeError] and [TypeError]
    from its own statements, [RecursionError] and [ValueError] from
    [json.loads]. *)
Inductive py_exn : Type :=
| AttributeError
| TypeError
| RecursionError
| ValueError.

(** What [json.loads] ends with on a text: the decoded value; a
    [json.JSONDecodeError], for a text that is no JSON; or another
    exception, which a handler for [JSONDecodeError] does not catch
    ([RecursionError] for a text nested too deep, [ValueError] for an
    integer of more digits than the interpreter converts). *)
Inductive loads_outcome : Type :=
| Loaded (v : json)
| JSONDecodeError
| Loads_raised (e : py_exn).

(** Everything outside the orchestrator: the library functions it calls, and
    the remote model, the agents and the memory manager, which read and
    change a state of their own, [World]. *)
Class Collaborators : Type := {
  World : Type;
  (** [json.loads] *)
  json_loads : str -> loads_outcome;
  (** [json.dumps] *)
  json_dumps : json -> str;
  (** [html.unescape] *)
  html_unescape : str -> str;
  (** how an f-string prints a decoded value that is not a [str] *)
  py_format : json -> str;
  (** the request to the primary model *)
  post_chat : list wire_message -> World -> api_outcome * World;
  (** the request to the memory-reasoning model *)
  post_reasoner : list message -> World -> reasoner_outcome * World;
  (** [agent.execute_tool(tool_name, tool_args)] of the agent registered
      under a key of [self.agents] *)
  execute_tool : str -> str -> json -> World -> str * World;
  (** [memory_manager.query_knowledge_base(query, n_results=n)];
      [None] is an exception *)
  query_knowledge_base : json -> json -> World -> option (list json) * World;
  (** [memory_manager.recall_relevant_interactions(query, n_results=n)] *)
  recall_relevant_interactions : json -> json -> World -> option (list json) * World;
  (** [memory_manager.log_interaction(user_utterance, agent_response)],
      an exception of which is swallowed *)
  log_interaction : str -> str -> World -> World;
  (** [memory_manager.log_reasoning_trace(reasoning_messages, ...,
      related_query)], an exception of which is swallowed *)
  log_reasoning_trace : list message -> str -> World -> World
}.

(** What a run lets an observer see, in order. *)
Inductive event : Type :=
| Generated (payload : list wire_message)
| Reasoner_generated (msgs : list message)
| Tool_executed (agent tool_name : str) (tool_args : json)
| Warned_max_iterations
| Interaction_logged (user_utterance agent_response : str)
| Reasoning_trace_logged (msgs : list message).

Definition is_Generated (e : event) : bool :=
  match e with Generated _ => true | _ => false end.

Definition is_Tool_executed (e : event) : bool :=
  match e with Tool_executed _ _ _ => true | _ => false end.

(** What [__init__] and [core/config.py] fix for the life of an
    orchestrator; [max_history] and [MAX_TOOL_ITERATIONS] are counts. *)
Record config : Type := mkConfig {
  max_history : nat;
  MAX_TOOL_ITERATIONS : nat;
  DEBUG : bool;
  (** [self.tool_to_agent_map], the agent by its key in [self.agents] *)
  tool_to_agent_map : list (str * str);
  (** the text [_get_effective_system_prompt()] returns *)
  effective_system_prompt : str;
  (** [memory_reasoner_system_prompt_with_tools] *)
  memory_reasoner_system_prompt : str
}.

(* ------------------------------------------------------------------ *)
(** ** Orchestrator *)
(* ------------------------------------------------------------------ *)

Definition is_empty {A : Type} (l : list A) : bool :=
  match l with [] => true | _ => false end.

Definition newline : str := [10%N].
Definition quote : str := [34%N].

(** [l[-k:]] for [0 <= k]: the last [k] items, and, since [-0] is [0], the
    whole list when [k] is [0]. *)
Definition last_items {A : Type} (k : nat) (l : list A) : list A :=
  match k with
  | 0 => l
  | S _ => skipn (length l - k) l
  end.

(** [[l[0]] + l[-k:]] on a list that is not empty. *)
Definition head_and_last {A : Type} (k : nat) (l : list A) : list A :=
  match l with
  | [] => []
  | x :: _ => x :: last_items k l
  end.

(** The message read where the code would raise an [IndexError] (the last
    message of an empty list, an address outside the heap), which it never
    does. *)
Definition no_message : message := plain_message system [].

Section Orchestrator.
Context {C : Collaborators}.

(** [self.messages], the collaborators' state, and what has been observed
    so far. *)
Record machine : Type := mkMachine {
  messages : list message;
  world : World;
  trace : list event
}.

Definition set_messages (m : machine) (ms : list message) : machine :=
  mkMachine ms (world m) (trace m).

Definition append_message (m : machine) (x : message) : machine :=
  set_messages m (messages m ++ [x]).

Definition observe (m : machine) (w : World) (e : event) : machine :=
  mkMachine (messages m) w (trace m ++ [e]).

(** *** [_handle_tool_calls] *)

Definition parse_error_result (n : nat) (inner : str) : message :=
  tool_message (JStr (lit "parse_error_" ++ decimal n))
               (JStr (lit "json_parse_error"))
               (lit "[Error: Invalid JSON in tool call. Stripped content: "
                ++ slice_to 1000 inner ++ lit "]").

Definition format_value (v : json) : str :=
  match v with JStr s => s | _ => py_format v end.

(** The three branches on [tool_name]; a [list] or [dict] that is not
    empty raises at [tool_name in self.tool_to_agent_map]. *)
Definition run_tool (cfg : config) (inner : str) (tool_name tool_args : json)
    (m : machine) : (py_exn + str) * machine :=
  if negb (truthy tool_name) then
    (inr (lit "[Error: Tool call missing 'name'. Call: " ++ inner ++ lit "]"), m)
  else if negb (hashable tool_name) then (inl TypeError, m)
  else
    match match tool_name with
          | JStr n => dict_lookup n (tool_to_agent_map cfg)
          | _ => None
          end with
    | Some agent =>
        let n := format_value tool_name in
        let '(result_content, w) := execute_tool agent n tool_args (world m) in
        (inr result_content, observe m w (Tool_executed agent n tool_args))
    | None =>
        (inr (lit "[Error: Tool '" ++ format_value tool_name
              ++ lit "' is not recognized or not mapped to any agent.]"), m)
    end.

(** The body of [for match in matches]; [raw] is [match.group(1)].  Only a
    [JSONDecodeError] of [json.loads] is caught. *)
Definition handle_match (cfg : config) (raw : str)
    (tool_calls_found : list json) (tool_results_for_history : list message)
    (m : machine) : (py_exn + list json * list message) * machine :=
  let inner := strip raw in
  match json_loads inner with
  | JSONDecodeError =>
      (inr (tool_calls_found,
            tool_results_for_history
            ++ [parse_error_result (length tool_results_for_history) inner]), m)
  | Loads_raised e => (inl e, m)
  | Loaded tool_call_data =>
      let found := tool_calls_found ++ [tool_call_data] in
      match tool_call_data with
      | JDict items =>
          let tool_name := dict_get (lit "name") JNull items in
          let tool_args := dict_get (lit "arguments") (JDict []) items in
          match run_tool cfg inner tool_name tool_args m with
          | (inr result_content, m') =>
              (inr (found,
                    tool_results_for_history
                    ++ [tool_message (dict_get (lit "id") tool_name items)
                                     tool_name result_content]), m')
          | (inl e, m') => (inl e, m')
          end
      | _ => (inl AttributeError, m)
      end
  end.

Fixpoint handle_matches (cfg : config) (matches : list str)
    (tool_calls_found : list json) (tool_results_for_history : list message)
    (m : machine) : (py_exn + list json * list message) * machine :=
  match matches with
  | [] => (inr (tool_calls_found, tool_results_for_history), m)
  | raw :: rest =>
      match handle_match cfg raw tool_calls_found tool_results_for_history m with
      | (inr (found, results), m') => handle_matches cfg rest found results m'
      | (inl e, m') => (inl e, m')
      end
  end.

(** [assistant_content] is [None] when the reply had a null content:
    [finditer] raises [TypeError] for it. *)
Definition _handle_tool_calls (cfg : config) (assistant_content : option str)
    (m : machine) : (py_exn + list json * list message) * machine :=
  match assistant_content with
  | None => (inl TypeError, m)
  | Some text =>
      let matches := TOOL_CALL_PATTERN_finditer text in
      if is_empty matches then (inr ([], []), m)
      else handle_matches cfg matches [] [] m
  end.

(** *** [_prune_history_for_api] *)

Definition true_user_turn (msg : message) : bool :=
  Role_eqb (role msg) user
  && negb (startswith (lit "<tool_response>") (strip (content msg))).

(** The backwards search: the largest index of a true user turn. *)
Fixpoint last_true_user_turn_idx (messages_history : list message) : option nat :=
  match messages_history with
  | [] => None
  | msg :: rest =>
      match last_true_user_turn_idx rest with
      | Some i => Some (S i)
      | None => if true_user_turn msg then Some 0 else None
      end
  end.

Definition prune_message (idx i : nat) (msg : message) : message :=
  if Role_eqb (role msg) assistant && (i <? idx)
  then set_content msg (strip (think_sub (content msg)))
  else msg.

(** [for i, msg in enumerate(messages_history)], from index [i] on. *)
Fixpoint prune_messages (idx i : nat) (messages_history : list message) : list message :=
  match messages_history with
  | [] => []
  | msg :: rest => prune_message idx i msg :: prune_messages idx (S i) rest
  end.

Definition _prune_history_for_api (messages_history : list message) : list message :=
  match last_true_user_turn_idx messages_history with
  | None => messages_history
  | Some idx => prune_messages idx 0 messages_history
  end.

(** *** [_get_llm_response] *)

Definition memory_hint (synthesized_context : str) : wire_message :=
  mkWire system (Some (lit "memory_synthesis"))
    (lit "HINT: The following synthesized memory context may be relevant to the user's query:"
     ++ newline ++ lit "<synthesized_context>" ++ newline
     ++ strip synthesized_context ++ newline
     ++ lit "</synthesized_context>" ++ newline
     ++ lit "Remember to critically evaluate this hint alongside other information and tools.").

Definition tool_response_envelope (tool_output_string : str) : str :=
  lit "<tool_response>" ++ newline ++ strip tool_output_string
  ++ newline ++ lit "</tool_response>".

(** The body of the loop over the pruned history; a message of another
    role is skipped. *)
Definition api_message (msg : message) : option wire_message :=
  match role msg with
  | tool =>
      let tool_output_string := content msg in
      let tool_output_string :=
        if negb (is_empty tool_output_string)
           && negb (endswith (lit ".") (strip tool_output_string))
        then tool_output_string ++ lit "."
        else tool_output_string in
      Some (mkWire user None (tool_response_envelope tool_output_string))
  | assistant => Some (mkWire assistant None (content msg))
  | user => Some (mkWire user None (content msg))
  | system => None
  end.

Fixpoint api_messages (msgs : list message) : list wire_message :=
  match msgs with
  | [] => []
  | msg :: rest =>
      match api_message msg with
      | Some w => w :: api_messages rest
      | None => api_messages rest
      end
  end.

(** [range(start_index, len(pruned_history_for_api))] *)
Definition from_start_index (pruned : list message) : list message :=
  match pruned with
  | first :: rest => if Role_eqb (role first) system then rest else pruned
  | [] => []
  end.

Definition api_payload_messages (cfg : config)
    (current_messages_for_prompt : list message) (synthesized_context : str)
    : list wire_message :=
  let pruned_history_for_api := _prune_history_for_api current_messages_for_prompt in
  [mkWire system None (effective_system_prompt cfg)]
  ++ (if negb (is_empty synthesized_context)
         && negb (is_empty (strip synthesized_context))
      then [memory_hint synthesized_context] else [])
  ++ api_messages (from_start_index pruned_history_for_api).

(** The text kept for the history, from the content and the reasoning of
    the reply. *)
Definition llm_generated_text (api_content api_reasoning : option str) : str :=
  let text := match api_content with Some c => c | None => [] end in
  match api_reasoning with
  | Some r =>
      if negb (is_empty r) && negb (is_empty (strip r)) then
        let think_block_from_reasoning :=
          lit "<think>" ++ newline ++ strip r ++ newline ++ lit "</think>" in
        if startswith think_block_from_reasoning (strip text) then text
        else
          let separator := if is_empty text then [] else newline in
          think_block_from_reasoning ++ separator ++ text
      else text
  | None => text
  end.

(** The two texts [_get_llm_response] returns: the one for the history and
    the one for tool parsing, which is [None] for a null content. *)
Definition _get_llm_response (cfg : config) (m : machine)
    (synthesized_context : str) : str * option str * machine :=
  let payload := api_payload_messages cfg (messages m) synthesized_context in
  let '(outcome, w) := post_chat payload (world m) in
  let m' := observe m w (Generated payload) in
  match outcome with
  | Api_message api_content api_reasoning =>
      (llm_generated_text api_content api_reasoning, api_content, m')
  | Api_timeout =>
      (lit "[Error: API request timed out.]",
       Some (lit "[Error: API request timed out.]"), m')
  | Api_error error_message => (error_message, Some error_message, m')
  end.

(** *** [_invoke_memory_reasoning_llm] *)

Definition SENTINEL : str :=
  lit "No specific memory context deemed necessary or found.".
Definition MR_API_ERROR : str :=
  lit "[Memory reasoning failed due to API error.]".
Definition MR_UNEXPECTED_ERROR : str :=
  lit "[Memory reasoning failed due to unexpected error.]".
Definition MR_MAX_ITERATIONS : str :=
  lit "[Memory reasoning reached max iterations without a clear synthesis.]".
Definition MR_UNPROCESSED_TOOL_CALL : str :=
  lit "[Memory reasoning process concluded with an unprocessed tool call instead of a textual summary.]".

(** [tool_name == "..."] *)
Definition json_is_str (v : json) (s : str) : bool :=
  match v with JStr x => str_eqb x s | _ => false end.

(** One of the two searches of the memory reasoner: [tool_args.get] raises
    when the arguments are no [dict], the memory manager may raise; [None]
    is such an exception. *)
Definition memory_search
    (search : json -> json -> World -> option (list json) * World)
    (nothing_found : str) (main_user_query : str) (tool_args : json)
    (m : machine) : option str * machine :=
  match tool_args with
  | JDict args =>
      let query := dict_get (lit "search_query") (JStr main_user_query) args in
      let num := dict_get (lit "num_results") (JInt 3) args in
      let '(found, w) := search query num (world m) in
      let m' := mkMachine (messages m) w (trace m) in
      match found with
      | Some snippets =>
          (Some (if is_empty snippets then nothing_found
                 else json_dumps (JList snippets)), m')
      | None => (None, m')
      end
  | _ => (None, m)
  end.

(** The body of [for tool_call_match in tool_calls]: the messages after
    it, and [false] for an exception that is not a [JSONDecodeError]. *)
Definition reasoner_tool_call (main_user_query : str) (raw : str)
    (memory_reasoner_messages : list message) (m : machine)
    : bool * list message * machine :=
  let tool_call_content := strip raw in
  match json_loads tool_call_content with
  | JSONDecodeError =>
      (true,
       memory_reasoner_messages
       ++ [tool_message (JStr (lit "json_error_0")) (JStr (lit "json_error"))
                        (lit "[Error: Invalid JSON in tool call]")], m)
  | Loads_raised _ => (false, memory_reasoner_messages, m)
  | Loaded (JDict items) =>
      let tool_name := dict_get (lit "name") JNull items in
      let tool_args := dict_get (lit "arguments") (JDict []) items in
      let '(result, m') :=
        if json_is_str tool_name (lit "search_past_conversations") then
          memory_search recall_relevant_interactions
            (lit "[No relevant conversation snippets found.]")
            main_user_query tool_args m
        else if json_is_str tool_name (lit "search_documents") then
          memory_search query_knowledge_base
            (lit "[No relevant document snippets found.]")
            main_user_query tool_args m
        else (Some (lit "[Error: Tool not recognized by Memory Reasoner]"), m) in
      match result with
      | Some result_content =>
          (true,
           memory_reasoner_messages
           ++ [tool_message (dict_get (lit "id") tool_name items)
                            tool_name result_content], m')
      | None => (false, memory_reasoner_messages, m')
      end
  | Loaded _ => (false, memory_reasoner_messages, m)
  end.

(** The inner [for]; it stops at the first such exception. *)
Fixpoint reasoner_tool_calls (main_user_query : str) (tool_calls : list str)
    (memory_reasoner_messages : list message) (m : machine)
    : bool * list message * machine :=
  match tool_calls with
  | [] => (true, memory_reasoner_messages, m)
  | raw :: rest =>
      match reasoner_tool_call main_user_query raw memory_reasoner_messages m with
      | (true, msgs, m') => reasoner_tool_calls main_user_query rest msgs m'
      | (false, msgs, m') => (false, msgs, m')
      end
  end.

(** The [else] of the [for]: reached with [final_synthesis] as it was
    initialised. *)
Definition reasoner_for_else (final_synthesis : str)
    (memory_reasoner_messages : list message) : str :=
  let last_message := last memory_reasoner_messages no_message in
  if is_empty final_synthesis && Role_eqb (role last_message) assistant
  then content last_message
  else if is_empty final_synthesis then MR_MAX_ITERATIONS
  else final_synthesis.

(** [for i in range(max_mem_reasoning_iterations)] with its [else]; the
    result is [final_synthesis] and [memory_reasoner_messages] where the
    loop is left. *)
Fixpoint reasoner_loop (main_user_query : str) (iterations : nat)
    (final_synthesis : str) (memory_reasoner_messages : list message)
    (m : machine) : str * list message * machine :=
  match iterations with
  | 0 => (reasoner_for_else final_synthesis memory_reasoner_messages,
          memory_reasoner_messages, m)
  | S iterations' =>
      let '(outcome, w) := post_reasoner memory_reasoner_messages (world m) in
      let m1 := observe m w (Reasoner_generated memory_reasoner_messages) in
      match outcome with
      | Reasoner_request_exception => (MR_API_ERROR, memory_reasoner_messages, m1)
      | Reasoner_exception => (MR_UNEXPECTED_ERROR, memory_reasoner_messages, m1)
      | Reasoner_content c =>
          let assistant_response_content := strip c in
          let msgs1 :=
            memory_reasoner_messages
            ++ [plain_message assistant assistant_response_content] in
          let tool_calls := TOOL_CALL_PATTERN_finditer assistant_response_content in
          if is_empty tool_calls then (assistant_response_content, msgs1, m1)
          else
            match reasoner_tool_calls main_user_query tool_calls msgs1 m1 with
            | (true, msgs2, m2) =>
                reasoner_loop main_user_query iterations' final_synthesis msgs2 m2
            | (false, msgs2, m2) => (MR_UNEXPECTED_ERROR, msgs2, m2)
            end
      end
  end.

Definition reasoner_start (cfg : config) (main_user_query : str) : list message :=
  [plain_message system (memory_reasoner_system_prompt cfg);
   plain_message user
     (lit "Main User Query to analyze: " ++ quote ++ main_user_query ++ quote)].

(** The check after the loop, as the code has it. *)
Definition unprocessed_tool_call_check (cfg : config) (final_synthesis : str) : str :=
  if negb (is_empty final_synthesis)
     && negb (is_empty (TOOL_CALL_PATTERN_finditer final_synthesis))
     && DEBUG cfg
  then MR_UNPROCESSED_TOOL_CALL
  else final_synthesis.

Definition _invoke_memory_reasoning_llm (cfg : config) (main_user_query : str)
    (max_mem_reasoning_iterations : nat) (m : machine) : str * machine :=
  let '(final_synthesis, memory_reasoner_messages, m1) :=
    reasoner_loop main_user_query max_mem_reasoning_iterations []
                  (reasoner_start cfg main_user_query) m in
  let final_synthesis := unprocessed_tool_call_check cfg final_synthesis in
  if contains SENTINEL final_synthesis then ([], m1)
  else if is_empty (strip final_synthesis) then ([], m1)
  else
    (strip final_synthesis,
     observe m1 (log_reasoning_trace memory_reasoner_messages main_user_query (world m1))
             (Reasoning_trace_logged memory_reasoner_messages)).

(** *** [chat] *)

(** The [try] block at the head of [chat]: the two probes, and the memory
    reasoner when one of them found something; an exception of a probe
    leaves the context empty. *)
Definition synthesize_memory_context (cfg : config) (user_input : str)
    (m : machine) : str * machine :=
  let '(doc, w1) := query_knowledge_base (JStr user_input) (JInt 3) (world m) in
  let m1 := mkMachine (messages m) w1 (trace m) in
  match doc with
  | None => ([], m1)
  | Some doc_snippets =>
      let '(convo, w2) := recall_relevant_interactions (JStr user_input) (JInt 3) w1 in
      let m2 := mkMachine (messages m) w2 (trace m) in
      match convo with
      | None => ([], m2)
      | Some convo_snippets =>
          if negb (is_empty doc_snippets) || negb (is_empty convo_snippets)
          then _invoke_memory_reasoning_llm cfg user_input 15 m2
          else ([], m2)
      end
  end.

(** The prune between turns. *)
Definition prune_between_turns (cfg : config) (msgs : list message) : list message :=
  if max_history cfg * 2 + 1 <? length msgs
  then head_and_last (max_history cfg * 2) msgs
  else msgs.

(** The prune after the results of a dispatch have been appended. *)
Definition prune_after_dispatch (cfg : config) (results : nat)
    (msgs : list message) : list message :=
  if max_history cfg * 3 + 1 + results <? length msgs
  then head_and_last (max_history cfg * 3 + results) msgs
  else msgs.

(** [for iteration in range(MAX_TOOL_ITERATIONS)] with its [else], which
    prints the warning and leaves [final_llm_output_for_user_processing]
    as it is; the result is that variable after the loop. *)
Fixpoint tool_loop (cfg : config) (synthesized_context : str) (iterations : nat)
    (final_llm_output_for_user_processing : str)
    (current_llm_response_text_for_history : str)
    (current_llm_response_content_for_tool_parse : option str)
    (m : machine) : (py_exn + str) * machine :=
  match iterations with
  | 0 => (inr final_llm_output_for_user_processing,
          observe m (world m) Warned_max_iterations)
  | S iterations' =>
      match _handle_tool_calls cfg current_llm_response_content_for_tool_parse m with
      | (inl e, m1) => (inl e, m1)
      | (inr (requested_tool_calls_by_llm, tool_results_for_next_llm_prompt), m1) =>
          let assistant_message_for_history :=
            mkMessage assistant current_llm_response_text_for_history
              (if is_empty requested_tool_calls_by_llm then None
               else Some requested_tool_calls_by_llm)
              None None in
          let m2 := append_message m1 assistant_message_for_history in
          if is_empty tool_results_for_next_llm_prompt
          then (inr current_llm_response_text_for_history, m2)
          else
            let m3 := set_messages m2
              (prune_after_dispatch cfg (length tool_results_for_next_llm_prompt)
                 (messages m2 ++ tool_results_for_next_llm_prompt)) in
            let '(text, parse, m4) := _get_llm_response cfg m3 synthesized_context in
            tool_loop cfg synthesized_context iterations'
                      final_llm_output_for_user_processing text parse m4
      end
  end.

(** The cleaning of the final text, up to [final_user_visible_response]. *)
Definition strip_reasoning (text_to_clean : str) : str :=
  match rfind THINK_CLOSE text_to_clean with
  | Some last_think_end_idx =>
      lstrip (slice_from (last_think_end_idx + length THINK_CLOSE) text_to_clean)
  | None =>
      match find THINK_OPEN text_to_clean with
      | Some think_start_idx =>
          if startswith THINK_OPEN (strip text_to_clean) then []
          else rstrip (slice_to think_start_idx text_to_clean)
      | None => text_to_clean
      end
  end.

Definition final_user_visible_response (text_to_clean : str) : str :=
  strip (replace_with_empty (lit "<|im_start|>")
           (replace_with_empty (lit "<|im_end|>")
              (TOOL_CALL_PATTERN_sub (strip_reasoning text_to_clean)))).

(** What a call of [chat] ends with. *)
Inductive outcome : Type :=
| Returned (reply : str) (m : machine)
| Raised (e : py_exn) (m : machine).

(** [chat] after the memory context has been obtained. *)
Definition chat_with_context (cfg : config) (user_input : str)
    (synthesized_context_for_main_llm : str) (m : machine) : outcome :=
  let m1 := set_messages m (prune_between_turns cfg (messages m)) in
  let '(text, parse, m2) := _get_llm_response cfg m1 synthesized_context_for_main_llm in
  match tool_loop cfg synthesized_context_for_main_llm (MAX_TOOL_ITERATIONS cfg)
                  [] text parse m2 with
  | (inl e, m3) => Raised e m3
  | (inr final_llm_output_for_user_processing, m3) =>
      let response := final_user_visible_response final_llm_output_for_user_processing in
      Returned (html_unescape response)
               (observe m3 (log_interaction user_input response (world m3))
                        (Interaction_logged user_input response))
  end.

Definition chat (cfg : config) (user_input : str) (m : machine) : outcome :=
  let m0 := append_message m (plain_message user user_input) in
  let '(synthesized_context_for_main_llm, m1) :=
    synthesize_memory_context cfg user_input m0 in
  chat_with_context cfg user_input synthesized_context_for_main_llm m1.
End Orchestrator.

(* ------------------------------------------------------------------ *)
(** ** The history as objects *)
(* ------------------------------------------------------------------ *)

(** [self.messages] holds references to [dict] objects, and
    [_prune_history_for_api] works on those: it returns the list it was
    given, or a list of copies made with [msg.copy()], and assigns to the
    ["content"] of a copy.  A heap is the list of the objects, an address a
    position in it; a new object is put at the end. *)
Definition address := nat.
Definition heap := list message.

Definition deref (hp : heap) (a : address) : message :=
  nth a hp no_message.

(** [obj["content"] = c] for the object at an address *)
Fixpoint assign_content (hp : heap) (a : address) (c : str) : heap :=
  match hp, a with
  | [], _ => []
  | obj :: hp', 0 => set_content obj c :: hp'
  | obj :: hp', S a' => obj :: assign_content hp' a' c
  end.

Fixpoint prune_objects (idx i : nat) (messages_history : list address) (hp : heap)
    : list address * heap :=
  match messages_history with
  | [] => ([], hp)
  | a :: rest =>
      let msg := deref hp a in
      let new_msg := length hp in
      let hp1 := hp ++ [msg] in
      let hp2 :=
        if Role_eqb (role msg) assistant && (i <? idx)
        then assign_content hp1 new_msg
               (strip (think_sub (content (deref hp1 new_msg))))
        else hp1 in
      let '(pruned_messages, hp3) := prune_objects idx (S i) rest hp2 in
      (new_msg :: pruned_messages, hp3)
  end.

Definition _prune_history_for_api_objects (messages_history : list address)
    (hp : heap) : list address * heap :=
  match last_true_user_turn_idx (map (deref hp) messages_history) with
  | None => (messages_history, hp)
  | Some idx => prune_objects idx 0 messages_history hp
  end.

(* ------------------------------------------------------------------ *)
(** ** The cleaning rule in the words of the specification *)
(* ------------------------------------------------------------------ *)

(** "Locate the last closing reasoning-block marker; if found, keep only
    text after it; otherwise, if an opening reasoning marker exists with no
    closing marker, treat everything from that marker onward as unterminated
    reasoning and discard it; finally remove any remaining
    tool-call-marker-delimited substrings." *)
Definition specified_cleaning_rule (text : str) : str :=
  TOOL_CALL_PATTERN_sub
    match rfind THINK_CLOSE text with
    | Some i => slice_from (i + length THINK_CLOSE) text
    | None =>
        match find THINK_OPEN text with
        | Some j => slice_to j text
        | None => text
        end
    end.

(* ------------------------------------------------------------------ *)
(** ** A small world for examples *)
(* ------------------------------------------------------------------ *)

Module Sample.
Definition quoted (s : str) : str := quote ++ s ++ quote.

(** The JSON text of a call of the tool [get_env], and what it decodes
    to. *)
Definition get_env_json : str :=
  lit "{" ++ quoted (lit "name") ++ lit ": " ++ quoted (lit "get_env") ++ lit ", "
  ++ quoted (lit "arguments") ++ lit ": {" ++ quoted (lit "var_name") ++ lit ": "
  ++ quoted (lit "PATH") ++ lit "}}".
Definition get_env_request : json :=
  JDict [(lit "name", JStr (lit "get_env"));
         (lit "arguments", JDict [(lit "var_name", JStr (lit "PATH"))])].
Definition get_env_call : str := TOOL_OPEN ++ get_env_json ++ TOOL_CLOSE.

(** [json.loads] on the texts of the examples: [get_env_json] decodes to
    [get_env_request], the other texts used are no JSON. *)
Definition loads (s : str) : loads_outcome :=
  if str_eqb s get_env_json then Loaded get_env_request else JSONDecodeError.

(** A world that counts the requests it has answered: the primary model
    answers its [n]-th request with [reply n], the reasoner its [n]-th with
    [reasoner n]; each probe of the memory finds [memory]; every tool
    answers with the same text.  The texts of the examples hold no character
    reference, and [html.unescape] leaves such texts as they are. *)
Definition collaborators (reply : nat -> api_outcome)
    (reasoner : nat -> reasoner_outcome) (memory : list json) : Collaborators :=
  {| World := nat;
     json_loads := loads;
     json_dumps := fun _ => lit "[...]";
     html_unescape := fun s => s;
     py_format := fun _ => lit "?";
     post_chat := fun _ n => (reply n, S n);
     post_reasoner := fun _ n => (reasoner n, S n);
     execute_tool := fun _ _ _ n => (lit "[Value of 'PATH': /usr/bin]", n);
     query_knowledge_base := fun _ _ n => (Some memory, n);
     recall_relevant_interactions := fun _ _ n => (Some memory, n);
     log_interaction := fun _ _ n => n;
     log_reasoning_trace := fun _ _ n => n |}.

Definition cfg (max_history cap : nat) (debug : bool) : config :=
  mkConfig max_history cap debug [(lit "get_env", lit "system_env")]
           (lit "You are JARVIS.") (lit "You are a Memory Analysis AI.").

Definition system_message : message :=
  plain_message system (lit "You are JARVIS.").

(** The machine of a new orchestrator. *)
Definition start (C : Collaborators) (w : @World C) : @machine C :=
  mkMachine [system_message] w [].
End Sample.

(* ------------------------------------------------------------------ *)
(** ** Vocabulary of the statements *)
(* ------------------------------------------------------------------ *)

(** A text with marker blocks: before each block a gap, after the last one a
    tail.  A block is given with what its body decodes to, [None] when the
    body is no JSON. *)
Definition block := (str * str * option json)%type.

Definition block_text (b : block) : str :=
  let '(gap, body, _) := b in gap ++ TOOL_OPEN ++ body ++ TOOL_CLOSE.

Definition document (blocks : list block) (tail : str) : str :=
  concat (map block_text blocks) ++ tail.

(** The requests of a list of blocks, in the order of the blocks. *)
Fixpoint requests (blocks : list block) : list json :=
  match blocks with
  | [] => []
  | (_, _, Some data) :: rest => data :: requests rest
  | (_, _, None) :: rest => requests rest
  end.

Definition block_body (b : block) : str := snd (fst b).
Definition block_data (b : block) : option json := snd b.

(** The gap holds no opening marker and the body no closing marker, so that
    the block is a match of the pattern and its body is group 1. *)
Definition block_in_place (b : block) : Prop :=
  find TOOL_OPEN (fst (fst b)) = None /\ find TOOL_CLOSE (block_body b) = None.

(** A request of the grammar: an object with a key ["name"] that is a
    text (nothing is asked of ["arguments"]). *)
Definition well_formed_request (data : json) : Prop :=
  exists items tool_name,
    data = JDict items /\ dict_lookup (lit "name") items = Some (JStr tool_name).

(** The body of the block, trimmed, is the JSON text of a request, the one
    the block is given with. *)
Definition decodes_to_request {C : Collaborators} (b : block) : Prop :=
  exists data, block_data b = Some data
               /\ json_loads (strip (block_body b)) = Loaded data
               /\ well_formed_request data.




(** [r] is the tool result of a request: a message of role [tool] that
    carries the name of the request, and its id when it has one. *)
Definition answers (b : block) (r : message) : Prop :=
  exists items,
    block_data b = Some (JDict items)
    /\ role r = tool
    /\ name r = Some (dict_get (lit "name") JNull items)
    /\ tool_call_id r
       = Some (dict_get (lit "id") (dict_get (lit "name") JNull items) items).

(** [idx] is the index of the most recent genuine user message of a
    history: a user message whose content is no wrapped tool result, with no
    such message after it. *)
Definition latest_genuine_user_message (h : list message) (idx : nat) : Prop :=
  (exists msg, nth_error h idx = Some msg /\ true_user_turn msg = true)
  /\ forall j msg, idx < j -> nth_error h j = Some msg -> true_user_turn msg = false.

Definition no_genuine_user_message (h : list message) : Prop :=
  forall msg, In msg h -> true_user_turn msg = false.

(** The content of a message without its reasoning blocks. *)
Definition without_reasoning (msg : message) : message :=
  set_content msg (strip (think_sub (content msg))).

(** The warning of the exhausted loop has been printed. *)
Definition warned (t : list event) : bool :=
  existsb (fun e => match e with Warned_max_iterations => true | _ => false end) t.

(** The tool executions of a trace. *)
Definition tool_executions (t : list event) : list event :=
  filter is_Tool_executed t.

Definition only_tool_executions (new : list event) : Prop :=
  Forall (fun e => is_Tool_executed e = true) new.

(** A pattern whose first character occurs nowhere else in it: two of its
    occurrences in a text cannot overlap. *)
Definition marker (p : str) : Prop :=
  match p with
  | [] => False
  | a :: p' => ~ In a p'
  end.

Definition machine_of {C : Collaborators} (o : outcome) : machine :=
  match o with Returned _ m => m | Raised _ m => m end.

(** The payloads of the requests to the primary model in a trace. *)
Fixpoint generated_payloads (t : list event) : list (list wire_message) :=
  match t with
  | [] => []
  | Generated p :: rest => p :: generated_payloads rest
  | _ :: rest => generated_payloads rest
  end.

(* ------------------------------------------------------------------ *)
(** ** Vocabulary of a turn *)
(* ------------------------------------------------------------------ *)

Definition is_Reasoner_generated (e : event) : bool :=
  match e with Reasoner_generated _ => true | _ => false end.

(** The requests to the memory-reasoning model in a trace. *)
Definition reasoner_requests (t : list event) : list event :=
  filter is_Reasoner_generated t.

(** What the memory synthesis lets an observer see. *)
Definition memory_event (e : event) : bool :=
  match e with
  | Reasoner_generated _ | Reasoning_trace_logged _ => true
  | _ => false
  end.

(** What the loop of [chat] lets an observer see. *)
Definition loop_event (e : event) : bool :=
  match e with
  | Generated _ | Tool_executed _ _ _ | Warned_max_iterations => true
  | _ => false
  end.

(** The interactions logged in a trace: utterance and response. *)
Fixpoint interactions_logged (t : list event) : list (str * str) :=
  match t with
  | [] => []
  | Interaction_logged u r :: rest => (u, r) :: interactions_logged rest
  | _ :: rest => interactions_logged rest
  end.

(** The body of a match as [json.loads] reads it: a list with the decoded
    value, or no value when the body is no JSON. *)
Definition decoded {C : Collaborators} (raw : str) : list json :=
  match json_loads (strip raw) with
  | Loaded data => [data]
  | _ => []
  end.

Definition is_object (v : json) : Prop := exists items, v = JDict items.

(** The execution an observer sees for a decoded request: that of the tool
    it names, by the agent the tool is registered for, when the name is a
    text that is not empty and is registered; nothing otherwise. *)
Definition dispatched (cfg : config) (request : json) : list event :=
  match request with
  | JDict items =>
      match dict_get (lit "name") JNull items with
      | JStr n =>
          if is_empty n then []
          else match dict_lookup n (tool_to_agent_map cfg) with
               | Some agent =>
                   [Tool_executed agent n
                      (dict_get (lit "arguments") (JDict []) items)]
               | None => []
               end
      | _ => []
      end
  | _ => []
  end.

(** The exception a decoded value stands for: any JSON value that is no
    object has no [get], and a name that is a list or an object with
    something in it cannot be looked up in the tool map. *)
Definition offence (v : json) : option py_exn :=
  match v with
  | JDict items =>
      let tool_name := dict_get (lit "name") JNull items in
      if truthy tool_name && negb (hashable tool_name) then Some TypeError
      else None
  | _ => Some AttributeError
  end.

(** The exception of the body of a match: the one [json.loads] raises for
    it when that is no [JSONDecodeError], or the one its decoded value
    stands for; a body that is no JSON stands for none. *)
Definition offence_of {C : Collaborators} (raw : str) : option py_exn :=
  match json_loads (strip raw) with
  | Loaded v => offence v
  | JSONDecodeError => None
  | Loads_raised e => Some e
  end.



(* ------------------------------------------------------------------ *)
(** ** The registry of the tools *)
(* ------------------------------------------------------------------ *)

(** [d[key] = v] on the items of a [dict]: the value of a key that is there
    is replaced where it stands, a new key is put at the end. *)
Fixpoint dict_set {A : Type} (key : str) (v : A) (items : list (str * A))
    : list (str * A) :=
  match items with
  | [] => [(key, v)]
  | (k, x) :: rest =>
      if str_eqb k key then (k, v) :: rest else (k, x) :: dict_set key v rest
  end.

Module Registry.
(** One of the [dict]s that [get_tool_json_schemas] returns.  The agents of
    the repository write them as literals whose ["name"], where there is
    one, is a text: a schema is given with what [schema.get("name")] reads,
    [None] when the key is missing, and with the [dict] itself. *)
Record tool_schema : Type := mkSchema {
  schema_name : option str;
  schema : json
}.

(** [self.all_tool_schemas] and [self.tool_to_agent_map], an agent being
    given by its key in [self.agents], and the warnings printed, each with
    the tool name and the agent that overwrites. *)
Record registry : Type := mkRegistry {
  all_tool_schemas : list tool_schema;
  tool_to_agent_map : list (str * str);
  warnings : list (str * str)
}.

(** The body of [for schema in schemas]. *)
Definition register (agent_name : str) (r : registry) (s : tool_schema)
    : registry :=
  match schema_name s with
  | Some tool_name =>
      if negb (is_empty tool_name) then
        mkRegistry
          (all_tool_schemas r ++ [s])
          (dict_set tool_name agent_name (tool_to_agent_map r))
          (warnings r
           ++ match dict_lookup tool_name (tool_to_agent_map r) with
              | Some _ => [(tool_name, agent_name)]
              | None => []
              end)
      else r
  | None => r
  end.

(** [agents] is [self.agents.items()] with, for each agent, what its
    [get_tool_json_schemas()] returns. *)
Definition _collect_all_tool_schemas (agents : list (str * list tool_schema))
    : registry :=
  fold_left
    (fun r agent => fold_left (register (fst agent)) (snd agent) r)
    agents (mkRegistry [] [] []).

(** The schema has a name that is not empty. *)
Definition named (s : tool_schema) : bool :=
  match schema_name s with
  | Some tool_name => negb (is_empty tool_name)
  | None => false
  end.

(** An agent of the list provides a tool of that name. *)
Definition provides (agents : list (str * list tool_schema))
    (agent_name tool_name : str) : Prop :=
  exists schemas s,
    In (agent_name, schemas) agents /\ In s schemas
    /\ schema_name s = Some tool_name.
(** One of the schemas has that name, and the name is not empty. *)
Definition offers (schemas : list tool_schema) (tool_name : str) : bool :=
  existsb (fun s => match schema_name s with
                    | Some n => negb (is_empty n) && str_eqb n tool_name
                    | None => false
                    end) schemas.

(** The agent a tool goes to after the agents of a list: the last one that
    offers it. *)
Definition owner (agents : list (str * list tool_schema)) (tool_name : str)
    (before : option str) : option str :=
  fold_left (fun acc agent => if offers (snd agent) tool_name
                              then Some (fst agent) else acc)
            agents before.

Definition collect_from (r : registry) (agents : list (str * list tool_schema))
    : registry :=
  fold_left (fun r agent => fold_left (register (fst agent)) (snd agent) r)
            agents r.
End Registry.

(* ------------------------------------------------------------------ *)
(** ** The callers of [chat] *)
(* ------------------------------------------------------------------ *)



(** What [agent_general_query] (main.py) answers: the [AgentResponse] with
    the text of the reply, or the [HTTPException] with status 500. *)
Inductive http_response : Type :=
| Http_200 (response : str)
| Http_500.


Section Callers.
Context {C : Collaborators}.

(** [str.lower] *)
Variable lower : str -> str.

(** What [__init__] leaves in [self.messages]. *)
Definition new_orchestrator (cfg : config) (w : World) : machine :=
  mkMachine [plain_message system (effective_system_prompt cfg)] w [].



(** [agent_general_query]: [Orchestrator()] and [chat] in one [try], every
    exception of which is answered with status 500.  [constructed] is the
    outcome of [Orchestrator()]: the exception it raises ([ValueError]
    where no API key is found), or the state of the collaborators with
    which it returns.  The second component is the orchestrator of the
    request after the call, where one was constructed. *)
Definition agent_general_query (cfg : config) (query : str)
    (constructed : py_exn + World) : http_response * option machine :=
  match constructed with
  | inl _ => (Http_500, None)
  | inr w =>
      match chat cfg query (new_orchestrator cfg w) with
      | Returned agent_response_text m => (Http_200 agent_response_text, Some m)
      | Raised _ m => (Http_500, Some m)
      end
  end.
End Callers.

(* ------------------------------------------------------------------ *)
(** ** The short-term memory of the conversation agent *)
(* ------------------------------------------------------------------ *)

(** [del d[key]] on the items of a [dict], whose keys are distinct. *)
Definition dict_del {A : Type} (key : str) (items : list (str * A))
    : list (str * A) :=
  filter (fun item => negb (str_eqb (fst item) key)) items.

(** [sep.join(parts)] *)
Fixpoint join (sep : str) (parts : list str) : str :=
  match parts with
  | [] => []
  | [p] => p
  | p :: rest => p ++ sep ++ join sep rest
  end.

(** The tools of [ConversationMemoryAgent] (agents/conversation_memory_agent.py)
    that work on [self.memory], a [dict] from texts to the values the model
    sends, which are decoded JSON: [json.dumps] accepts every such value, so
    that [save_memory] never takes its [except] branch. *)
Module ConversationMemoryAgent.
Section Tools.
Context {C : Collaborators}.

Definition memory : Type := list (str * json).

Definition NOT_FOUND (key : str) : str :=
  lit "[Memory not found for key: '" ++ key ++ lit "']".

Definition save_memory (key : str) (value : json) (mem : memory) : str * memory :=
  let shown := format_value value in
  (lit "[Memory saved for key: '" ++ key ++ lit "'. Value: "
   ++ slice_to 100 shown
   ++ (if 100 <? length shown then lit "..." else [])
   ++ lit "]",
   dict_set key value mem).

Definition recall_memory (key : str) (mem : memory) : str :=
  match dict_lookup key mem with
  | None | Some JNull => NOT_FOUND key
  | Some value =>
      lit "[Recalled memory for key '" ++ key ++ lit "': "
      ++ json_dumps value ++ lit "]"
  end.

Definition list_memory_keys (mem : memory) : str :=
  if is_empty mem then lit "[Conversation memory is currently empty]"
  else lit "[Available memory keys:" ++ newline
       ++ join newline (map (fun item => lit "- " ++ fst item) mem)
       ++ lit "]".

Definition clear_memory_key (key : str) (mem : memory) : str * memory :=
  match dict_lookup key mem with
  | Some _ =>
      (lit "[Memory cleared for key: '" ++ key ++ lit "']", dict_del key mem)
  | None =>
      (lit "[Memory key '" ++ key ++ lit "' not found, nothing to clear]", mem)
  end.

Definition clear_all_memory (mem : memory) : str * memory :=
  (lit "[All conversation memory has been cleared]", []).
End Tools.
End ConversationMemoryAgent.

(* ------------------------------------------------------------------ *)
(** ** More of the small world for examples *)
(* ------------------------------------------------------------------ *)

Module SampleTools.
(** A thousand opening brackets, which [json.loads] cannot follow. *)
Definition too_deep : str := repeat 91%N 1000.

(** [json.loads] that also reads the text of a JSON list, and raises
    [RecursionError] on [too_deep]. *)
Definition loads (s : str) : loads_outcome :=
  if str_eqb s (lit "[1]") then Loaded (JList [JInt 1])
  else if str_eqb s too_deep then Loads_raised RecursionError
  else Sample.loads s.

(** Collaborators whose model never answers in time and whose memory is
    empty. *)
Definition collaborators : Collaborators :=
  {| World := nat;
     json_loads := loads;
     json_dumps := fun _ => lit "[...]";
     html_unescape := fun s => s;
     py_format := fun _ => lit "?";
     post_chat := fun _ n => (Api_timeout, S n);
     post_reasoner := fun _ n => (Reasoner_exception, S n);
     execute_tool := fun _ _ _ n => (lit "[Value of 'PATH': /usr/bin]", n);
     query_knowledge_base := fun _ _ n => (Some [], n);
     recall_relevant_interactions := fun _ _ n => (Some [], n);
     log_interaction := fun _ _ n => n;
     log_reasoning_trace := fun _ _ n => n |}.

Definition named_schema (tool_name : str) : Registry.tool_schema :=
  Registry.mkSchema (Some tool_name) (JDict [(lit "name", JStr tool_name)]).

(** Two agents that both provide [read_file]; the second also has a schema
    without a name. *)
Definition file_system : str * list Registry.tool_schema :=
  (lit "file_system", [named_schema (lit "read_file"); named_schema (lit "list_dir")]).
Definition rag : str * list Registry.tool_schema :=
  (lit "rag", [named_schema (lit "retrieve_relevant_docs");
               named_schema (lit "read_file");
               Registry.mkSchema None (JDict [])]).
Definition agents : list (str * list Registry.tool_schema) := [file_system; rag].
End SampleTools.

(* ------------------------------------------------------------------ *)
(** ** Texts: lemmas *)
(* ------------------------------------------------------------------ *)

Lemma char_eqb_eq (a b : char) : char_eqb a b = true <-> a = b.
Proof. apply N.eqb_eq. Qed.

Lemma char_eqb_refl (a : char) : char_eqb a a = true.
Proof. apply N.eqb_refl. Qed.

Lemma str_eqb_eq (a b : str) : str_eqb a b = true <-> a = b.
Proof.
  revert b; induction a as [|x a IH]; intros [|y b]; simpl; split; intro H;
    try reflexivity; try discriminate.
  - apply andb_true_iff in H as [Hx Hab].
    apply char_eqb_eq in Hx. apply IH in Hab. congruence.
  - injection H as -> ->. rewrite char_eqb_refl. simpl. now apply IH.
Qed.

Lemma str_eqb_refl (a : str) : str_eqb a a = true.
Proof. now apply str_eqb_eq. Qed.

Lemma is_empty_true {A : Type} (l : list A) : is_empty l = true <-> l = [].
Proof. destruct l; simpl; split; intro H; congruence. Qed.

Lemma is_empty_false {A : Type} (l : list A) : is_empty l = false <-> l <> [].
Proof. destruct l; simpl; split; intro H; congruence. Qed.

Lemma startswith_app (p s : str) : startswith p (p ++ s) = true.
Proof.
  induction p as [|a p IH]; simpl; [reflexivity|].
  now rewrite char_eqb_refl.
Qed.

Lemma startswith_split (p s : str) :
  startswith p s = true -> s = p ++ skipn (length p) s.
Proof.
  revert s; induction p as [|a p IH]; intros s H; simpl in *; [reflexivity|].
  destruct s as [|b s]; [discriminate|].
  apply andb_true_iff in H as [Hab H].
  apply char_eqb_eq in Hab. subst b. simpl. f_equal. now apply IH.
Qed.

(** If [p] starts [g ++ x], it starts [g], or [g] is a proper beginning of
    [p] and the rest of [p] starts [x]. *)
Lemma startswith_app_cases (p g x : str) :
  startswith p (g ++ x) = true ->
  startswith p g = true \/ exists q, p = g ++ q /\ startswith q x = true.
Proof.
  revert p; induction g as [|c g IH]; intros p H; simpl in *.
  - right. now exists p.
  - destruct p as [|a p]; [now left|]. simpl.
    apply andb_true_iff in H as [Hac H]. rewrite Hac. simpl.
    apply char_eqb_eq in Hac. subst c.
    destruct (IH _ H) as [Hg | [q [-> Hq]]]; [now left|].
    right. now exists q.
Qed.

Lemma find_bound (p s : str) (i : nat) :
  find p s = Some i -> i + length p <= length s.
Proof.
  revert i; induction s as [|c s IH]; intros i; simpl.
  - destruct (startswith p []) eqn:E; [|discriminate].
    intros [= <-]. destruct p; [simpl; lia | discriminate].
  - destruct (startswith p (c :: s)) eqn:E.
    + intros [= <-]. apply startswith_split in E.
      apply (f_equal (@length _)) in E. rewrite length_app in E.
      simpl in *. lia.
    + destruct (find p s) as [k|]; [|discriminate].
      intros [= <-]. specialize (IH _ eq_refl). simpl. lia.
Qed.

Lemma find_split (p s : str) (i : nat) :
  find p s = Some i -> s = firstn i s ++ p ++ skipn (i + length p) s.
Proof.
  revert i; induction s as [|c s IH]; intros i; simpl.
  - destruct (startswith p []) eqn:E; [|discriminate].
    intros [= <-]. destruct p; [reflexivity | discriminate].
  - destruct (startswith p (c :: s)) eqn:E.
    + intros [= <-]. simpl. now apply startswith_split in E.
    + destruct (find p s) as [k|] eqn:F; [|discriminate].
      intros [= <-]. simpl. f_equal. now apply IH.
Qed.

Lemma find_startswith (p s : str) : startswith p s = true -> find p s = Some 0.
Proof. intro H. destruct s; simpl; now rewrite H. Qed.

(** No occurrence of a marker in [g]: its first occurrence in
    [g ++ p ++ rest] is the one after [g]. *)
Lemma find_after_gap (p g rest : str) :
  marker p -> find p g = None -> find p (g ++ p ++ rest) = Some (length g).
Proof.
  intros Hp. induction g as [|c g IH]; intro Hg.
  - change ([] ++ p ++ rest) with (p ++ rest).
    apply find_startswith, startswith_app.
  - simpl in Hg. destruct (startswith p (c :: g)) eqn:E; [discriminate|].
    destruct (find p g) eqn:F; [discriminate|].
    simpl app. simpl find.
    destruct (startswith p (c :: g ++ p ++ rest)) eqn:E2.
    + exfalso. change (c :: g ++ p ++ rest) with ((c :: g) ++ p ++ rest) in E2.
      apply startswith_app_cases in E2 as [E2 | [q [Hq E2]]]; [congruence|].
      destruct p as [|a p]; [contradiction|]. simpl in Hp.
      injection Hq as -> Hq.
      destruct q as [|b q].
      * rewrite app_nil_r in Hq. subst p.
        simpl in E. rewrite char_eqb_refl in E. simpl in E.
        pose proof (startswith_app g []) as E'. rewrite app_nil_r in E'.
        congruence.
      * simpl in E2. apply andb_true_iff in E2 as [Hba _].
        apply char_eqb_eq in Hba. subst b.
        apply Hp. rewrite Hq. apply in_or_app. right. now left.
    + now rewrite (IH eq_refl).
Qed.

(** An occurrence of [p] after [a] makes [find] succeed, at that place or
    before. *)
Lemma find_complete (p a c : str) :
  exists i, find p (a ++ p ++ c) = Some i /\ i <= length a.
Proof.
  induction a as [|x a [i [IH Hi]]].
  - exists 0. split; [|reflexivity]. change ([] ++ p ++ c) with (p ++ c).
    apply find_startswith, startswith_app.
  - simpl app. simpl find.
    destruct (startswith p (x :: a ++ p ++ c)).
    + exists 0. split; [reflexivity | simpl; lia].
    + exists (S i). rewrite IH. split; [reflexivity | simpl; lia].
Qed.

Lemma lstrip_length (s : str) : length (lstrip s) <= length s.
Proof.
  induction s as [|c s IH]; simpl; [lia|].
  destruct (isspace c); simpl; lia.
Qed.

Lemma lstrip_fixed (c : char) (s : str) :
  isspace c = false -> lstrip (c :: s) = c :: s.
Proof. intro H. simpl. now rewrite H. Qed.

Lemma lstrip_head (s : str) :
  lstrip s = [] \/ exists c r, lstrip s = c :: r /\ isspace c = false.
Proof.
  induction s as [|c s IH]; simpl; [now left|].
  destruct (isspace c) eqn:E; [exact IH|].
  right. now exists c, s.
Qed.

Lemma rstrip_cons (c : char) (s : str) :
  isspace c = false -> rstrip (c :: s) = c :: rstrip s.
Proof. intro H. simpl. rewrite H. now destruct (rstrip s). Qed.

Lemma rstrip_idem (s : str) : rstrip (rstrip s) = rstrip s.
Proof.
  induction s as [|c s IH]; simpl; [reflexivity|].
  destruct (rstrip s) as [|d r] eqn:E.
  - destruct (isspace c) eqn:Ec; simpl; [reflexivity|]. now rewrite Ec.
  - simpl. simpl in IH. now rewrite IH.
Qed.

Lemma strip_idem (s : str) : strip (strip s) = strip s.
Proof.
  unfold strip. destruct (lstrip_head s) as [E | [c [r [E Hc]]]]; rewrite E.
  - reflexivity.
  - rewrite (rstrip_cons _ _ Hc), (lstrip_fixed _ _ Hc), <- (rstrip_cons _ _ Hc).
    apply rstrip_idem.
Qed.

(* ------------------------------------------------------------------ *)
(** ** The scan: lemmas *)
(* ------------------------------------------------------------------ *)

Lemma firstn_gap (g x : str) : firstn (length g) (g ++ x) = g.
Proof. induction g as [|c g IH]; simpl; [now destruct x | now rewrite IH]. Qed.

Lemma skipn_gap (g p x : str) : skipn (length g + length p) (g ++ p ++ x) = x.
Proof.
  induction g as [|c g IH]; simpl; [|exact IH].
  induction p as [|a p IHp]; simpl; [reflexivity | exact IHp].
Qed.

Section ScanFacts.
Variables (open close : str) (eat : str -> str).
Hypothesis open_marker : marker open.
Hypothesis close_marker : marker close.
Hypothesis eat_length : forall s, length (eat s) <= length s.

Lemma find_open_nil : find open [] = None.
Proof. destruct open; [contradiction | reflexivity]. Qed.

Lemma open_length : 1 <= length open.
Proof. destruct open; [contradiction | simpl; lia]. Qed.

Lemma scan_S (n : nat) (s : str) :
  scan open close eat (S n) s
  = match find open s with
    | None => ([], s)
    | Some i =>
        let inner := slice_from (i + length open) s in
        match find close inner with
        | None => ([], s)
        | Some j =>
            let '(ms, rest) :=
              scan open close eat n (eat (slice_from (j + length close) inner)) in
            ((slice_to i s, slice_to j inner) :: ms, rest)
        end
    end.
Proof. reflexivity. Qed.

(** More rounds than characters change nothing. *)
Lemma scan_fuel (n m : nat) (s : str) :
  length s <= n -> length s <= m -> scan open close eat n s = scan open close eat m s.
Proof.
  revert m s; induction n as [|n IH]; intros m s Hn Hm.
  - destruct s; [|simpl in Hn; lia].
    destruct m; [reflexivity | now rewrite scan_S, find_open_nil].
  - destruct m as [|m].
    + destruct s; [|simpl in Hm; lia]. now rewrite scan_S, find_open_nil.
    + rewrite !scan_S. cbv zeta.
      destruct (find open s) as [i|] eqn:Fi; [|reflexivity].
      destruct (find close (slice_from (i + length open) s)) as [j|] eqn:Fj;
        [|reflexivity].
      assert (Hlen : length (eat (slice_from (j + length close)
                                    (slice_from (i + length open) s))) < length s).
      { eapply Nat.le_lt_trans; [apply eat_length|].
        unfold slice_from. rewrite !length_skipn.
        apply find_bound in Fi. pose proof open_length. lia. }
      rewrite (IH m) by lia. reflexivity.
Qed.

Lemma scan_no_open (n : nat) (s : str) :
  find open s = None -> scan open close eat n s = ([], s).
Proof. intro H. destruct n; [reflexivity | now rewrite scan_S, H]. Qed.

(** Without a match the text is the rest. *)
Lemma scan_nil_rest (n : nat) (s : str) :
  fst (scan open close eat n s) = [] -> scan open close eat n s = ([], s).
Proof.
  destruct n; [reflexivity|]. rewrite scan_S. cbv zeta.
  destruct (find open s) as [i|]; [|reflexivity].
  destruct (find close _) as [j|]; [|reflexivity].
  destruct (scan open close eat n _). discriminate.
Qed.

(** A block after a gap that holds no [open], with a body that holds no
    [close], is the first match. *)
Lemma scan_block (n : nat) (g b rest : str) :
  find open g = None -> find close b = None ->
  scan open close eat (S n) (g ++ open ++ b ++ close ++ rest)
  = let '(ms, r) := scan open close eat n (eat rest) in ((g, b) :: ms, r).
Proof.
  intros Hg Hb. rewrite scan_S. cbv zeta.
  rewrite (find_after_gap open g (b ++ close ++ rest) open_marker Hg).
  unfold slice_from, slice_to.
  rewrite skipn_gap, firstn_gap.
  rewrite (find_after_gap close b rest close_marker Hb).
  rewrite skipn_gap, firstn_gap. reflexivity.
Qed.

Lemma finditer_block (g b rest : str) :
  find open g = None -> find close b = None ->
  finditer open close eat (g ++ open ++ b ++ close ++ rest)
  = b :: finditer open close eat (eat rest).
Proof.
  intros Hg Hb. unfold finditer.
  assert (L : length (g ++ open ++ b ++ close ++ rest)
              = S (length g + (length open - 1) + length b + length close
                   + length rest)).
  { rewrite !length_app. pose proof open_length. lia. }
  rewrite L, scan_block by assumption.
  rewrite (scan_fuel _ (length (eat rest))); [|pose proof (eat_length rest); lia | lia].
  now destruct (scan open close eat (length (eat rest)) (eat rest)).
Qed.

Lemma sub_empty_block (g b rest : str) :
  find open g = None -> find close b = None ->
  sub_empty open close eat (g ++ open ++ b ++ close ++ rest)
  = g ++ sub_empty open close eat (eat rest).
Proof.
  intros Hg Hb. unfold sub_empty.
  assert (L : length (g ++ open ++ b ++ close ++ rest)
              = S (length g + (length open - 1) + length b + length close
                   + length rest)).
  { rewrite !length_app. pose proof open_length. lia. }
  rewrite L, scan_block by assumption.
  rewrite (scan_fuel _ (length (eat rest))); [|pose proof (eat_length rest); lia | lia].
  destruct (scan open close eat (length (eat rest)) (eat rest)).
  simpl. now rewrite <- app_assoc.
Qed.

Lemma finditer_no_open (s : str) :
  find open s = None -> finditer open close eat s = [].
Proof. intro H. unfold finditer. now rewrite scan_no_open. Qed.

Lemma sub_empty_no_match (s : str) :
  finditer open close eat s = [] -> sub_empty open close eat s = s.
Proof.
  unfold finditer, sub_empty. intro H.
  apply map_eq_nil in H. apply scan_nil_rest in H. now rewrite H.
Qed.
(** The pattern has no match in a text exactly when the text does not hold
    [open] with [close] somewhere after it. *)
Lemma finditer_nil_iff (s : str) :
  finditer open close eat s = []
  <-> forall a b c, s <> a ++ open ++ b ++ close ++ c.
Proof.
  unfold finditer. split.
  - intros H a b c ->.
    destruct (find_complete open a (b ++ close ++ c)) as [i [Fi Hi]].
    assert (Fj : exists j,
               find close (slice_from (i + length open)
                             (a ++ open ++ b ++ close ++ c)) = Some j).
    { unfold slice_from.
      replace (a ++ open ++ b ++ close ++ c)
        with ((a ++ open ++ b) ++ close ++ c) by now rewrite <- !app_assoc.
      rewrite skipn_app.
      replace (i + length open - length (a ++ open ++ b)) with 0
        by (rewrite !length_app; lia).
      simpl skipn at 2.
      destruct (find_complete close (skipn (i + length open) (a ++ open ++ b)) c)
        as [j [Fj _]]. now exists j. }
    destruct Fj as [j Fj].
    destruct (length (a ++ open ++ b ++ close ++ c)) as [|n] eqn:L.
    + rewrite !length_app in L. pose proof open_length. lia.
    + rewrite scan_S, Fi in H. cbv zeta in H. rewrite Fj in H.
      destruct (scan open close eat n _) in H. discriminate.
  - intro H. destruct (length s) as [|n]; [reflexivity|].
    rewrite scan_S. cbv zeta.
    destruct (find open s) as [i|] eqn:Fi; [|reflexivity].
    destruct (find close (slice_from (i + length open) s)) as [j|] eqn:Fj;
      [|reflexivity].
    exfalso. apply find_split in Fi. apply find_split in Fj.
    unfold slice_from in *.
    apply (H (firstn i s) (firstn j (skipn (i + length open) s))
             (skipn (j + length close) (skipn (i + length open) s))).
    now rewrite <- Fj.
Qed.
End ScanFacts.

Lemma TOOL_OPEN_marker : marker TOOL_OPEN.
Proof. vm_compute. intuition discriminate. Qed.

Lemma TOOL_CLOSE_marker : marker TOOL_CLOSE.
Proof. vm_compute. intuition discriminate. Qed.

Lemma THINK_OPEN_marker : marker THINK_OPEN.
Proof. vm_compute. intuition discriminate. Qed.

Lemma THINK_CLOSE_marker : marker THINK_CLOSE.
Proof. vm_compute. intuition discriminate. Qed.

(* ------------------------------------------------------------------ *)
(** ** Parsing the tool calls of a text *)
(* ------------------------------------------------------------------ *)

Lemma TOOL_CALL_PATTERN_finditer_block (g b rest : str) :
  find TOOL_OPEN g = None -> find TOOL_CLOSE b = None ->
  TOOL_CALL_PATTERN_finditer (g ++ TOOL_OPEN ++ b ++ TOOL_CLOSE ++ rest)
  = b :: TOOL_CALL_PATTERN_finditer rest.
Proof.
  intros Hg Hb. unfold TOOL_CALL_PATTERN_finditer.
  now rewrite finditer_block
    by (auto using TOOL_OPEN_marker, TOOL_CLOSE_marker).
Qed.

Lemma document_cons (g b : str) (d : option json) (blocks : list block) (tail : str) :
  document ((g, b, d) :: blocks) tail
  = g ++ TOOL_OPEN ++ b ++ TOOL_CLOSE ++ document blocks tail.
Proof. unfold document. cbn [map concat block_text]. now rewrite <- !app_assoc. Qed.

(** The matches of a document are the bodies of its blocks, in order. *)
Lemma finditer_document (blocks : list block) (tail : str) :
  Forall block_in_place blocks ->
  TOOL_CALL_PATTERN_finditer tail = [] ->
  TOOL_CALL_PATTERN_finditer (document blocks tail) = map block_body blocks.
Proof.
  intros Hb Ht. induction Hb as [|[[g b] d] blocks [Hg Hbody] _ IH].
  - exact Ht.
  - rewrite document_cons, TOOL_CALL_PATTERN_finditer_block by assumption.
    cbn [map]. now rewrite IH.
Qed.

Section Parsing.
Context {C : Collaborators}.
Variable cfg : config.

Lemma run_tool_str (inner n : str) (tool_args : json) (m : machine) :
  exists c m', run_tool cfg inner (JStr n) tool_args m = (inr c, m')
               /\ messages m' = messages m.
Proof.
  unfold run_tool. simpl.
  destruct (negb (negb (str_eqb n []))); [eauto|].
  destruct (dict_lookup n (tool_to_agent_map cfg)) as [agent|]; [|eauto].
  destruct (execute_tool agent n tool_args (world m)) as [c w]. eauto.
Qed.

Lemma handle_match_well_formed (b : block) (found : list json)
    (results : list message) (m : machine) :
  decodes_to_request b ->
  exists data r m',
    block_data b = Some data
    /\ handle_match cfg (block_body b) found results m
       = (inr (found ++ [data], results ++ [r]), m')
    /\ answers b r /\ messages m' = messages m.
Proof.
  intros [data [Hd [Hl [items [n [-> Hn]]]]]].
  unfold handle_match. rewrite Hl.
  assert (E : dict_get (lit "name") JNull items = JStr n)
    by (unfold dict_get; now rewrite Hn).
  rewrite E.
  destruct (run_tool_str (strip (block_body b)) n
              (dict_get (lit "arguments") (JDict []) items) m)
    as [c [m' [-> Hm]]].
  exists (JDict items), (tool_message (dict_get (lit "id") (JStr n) items) (JStr n) c), m'.
  repeat split; try assumption.
  exists items. rewrite E. now repeat split.
Qed.


Lemma requests_app (xs ys : list block) :
  requests (xs ++ ys) = requests xs ++ requests ys.
Proof.
  induction xs as [|[[g b] [d|]] xs IH]; simpl; [reflexivity| |exact IH].
  now rewrite IH.
Qed.

(** A run of well-formed blocks: one request and one result for each, in
    their order, added to what was found before. *)
Lemma handle_matches_well_formed (blocks : list block) :
  Forall decodes_to_request blocks ->
  forall (found : list json) (results : list message) (m : machine)
         (rest : list str),
  exists rs m',
    handle_matches cfg (map block_body blocks ++ rest) found results m
    = handle_matches cfg rest (found ++ requests blocks) (results ++ rs) m'
    /\ Forall2 answers blocks rs
    /\ map Some (requests blocks) = map block_data blocks
    /\ messages m' = messages m.
Proof.
  induction 1 as [|b blocks Hb _ IH]; intros found results m rest.
  - exists [], m. now rewrite !app_nil_r.
  - destruct (handle_match_well_formed b found results m Hb)
      as [data [r [m1 [Hd [E [Ha Hm1]]]]]].
    destruct (IH (found ++ [data]) (results ++ [r]) m1 rest)
      as [rs [m' [E' [Hrs [Hreq Hm']]]]].
    exists (r :: rs), m'. simpl. rewrite E, E'.
    destruct b as [[g body] d]. unfold block_data in Hd. simpl in Hd. subst d.
    simpl. rewrite <- !app_assoc. simpl.
    repeat split; try (now constructor); congruence.
Qed.

(** Whatever the text: when the bodies of the matches of the pattern in it
    decode to requests, these are the requests found, in the order of the
    matches, each with its result. *)
Lemma handle_tool_calls_of_matches (text : str) (blocks : list block) (m : machine) :
  TOOL_CALL_PATTERN_finditer text = map block_body blocks ->
  Forall decodes_to_request blocks ->
  exists results m',
    _handle_tool_calls cfg (Some text) m = (inr (requests blocks, results), m')
    /\ map Some (requests blocks) = map block_data blocks
    /\ Forall2 answers blocks results.
Proof.
  intros Hm Hb. unfold _handle_tool_calls. rewrite Hm.
  destruct (handle_matches_well_formed blocks Hb [] [] m [])
    as [rs [m' [E [Hrs [Hreq _]]]]].
  rewrite app_nil_r in E. simpl in E.
  destruct blocks as [|b blocks].
  - inversion Hrs; subst. exists [], m. now repeat split.
  - change (is_empty (map block_body (b :: blocks))) with false.
    cbv iota. rewrite E. now exists rs, m'.
Qed.
End Parsing.

Section ParsingClaim.
Context {C : Collaborators}.
Variable cfg : config.




End ParsingClaim.

(* ------------------------------------------------------------------ *)
(** ** Pruning for transmission *)
(* ------------------------------------------------------------------ *)

Lemma think_sub_no_block (s : str) : think_finditer s = [] -> think_sub s = s.
Proof.
  apply sub_empty_no_match;
    auto using THINK_OPEN_marker, THINK_CLOSE_marker, lstrip_length.
Qed.

(** A reasoning block after a gap without an opening marker is cut out,
    with the white space after it. *)
Lemma think_sub_block (g b rest : str) :
  find THINK_OPEN g = None -> find THINK_CLOSE b = None ->
  think_sub (g ++ THINK_OPEN ++ b ++ THINK_CLOSE ++ rest)
  = g ++ think_sub (lstrip rest).
Proof.
  apply sub_empty_block;
    auto using THINK_OPEN_marker, THINK_CLOSE_marker, lstrip_length.
Qed.

Lemma set_content_same (msg : message) : set_content msg (content msg) = msg.
Proof. now destruct msg. Qed.

Lemma last_true_user_turn_idx_Some (h : list message) (idx : nat) :
  last_true_user_turn_idx h = Some idx <-> latest_genuine_user_message h idx.
Proof.
  revert idx; induction h as [|x h IH]; intro idx; simpl.
  - split; [discriminate|]. intros [[msg [H _]] _]. now destruct idx.
  - destruct (last_true_user_turn_idx h) as [i|] eqn:E.
    + split.
      * intros [= <-]. destruct (proj1 (IH i) eq_refl) as [Hi Hafter].
        split; [exact Hi|]. intros [|j] msg Hj; [lia|]. simpl.
        apply Hafter. lia.
      * intros [[msg [Hmsg Ht]] Hafter]. f_equal.
        destruct (proj1 (IH i) eq_refl) as [[u [Hu Htu]] Hafter_i].
        destruct idx as [|k].
        { specialize (Hafter (S i) u). simpl in Hafter.
          rewrite Hafter in Htu by (auto; lia). discriminate. }
        f_equal. simpl in Hmsg.
        destruct (Nat.lt_trichotomy i k) as [L | [L | L]]; [|exact L|].
        { rewrite (Hafter_i k msg L Hmsg) in Ht. discriminate. }
        { specialize (Hafter (S i) u). simpl in Hafter.
          rewrite Hafter in Htu by (auto; lia). discriminate. }
    + assert (Hnone : forall j msg, nth_error h j = Some msg -> true_user_turn msg = false).
      { intros j msg Hj. destruct (true_user_turn msg) eqn:Ht; [|reflexivity].
        exfalso. clear IH.
        revert j Hj E. induction h as [|y h IHh]; intros j Hj E.
        - now destruct j.
        - simpl in E. destruct (last_true_user_turn_idx h) eqn:E'; [discriminate|].
          destruct j as [|j]; simpl in Hj.
          + injection Hj as ->. now rewrite Ht in E.
          + now apply (IHh j). }
      destruct (true_user_turn x) eqn:Hx.
      * split.
        { intros [= <-]. split; [now exists x|].
          intros [|j] msg Hj; [lia|]. simpl. apply Hnone. }
        { intros [[msg [Hmsg Ht]] _]. destruct idx as [|k]; [reflexivity|].
          simpl in Hmsg. rewrite (Hnone _ _ Hmsg) in Ht. discriminate. }
      * split; [discriminate|].
        intros [[msg [Hmsg Ht]] _]. destruct idx as [|k]; simpl in Hmsg.
        { injection Hmsg as <-. congruence. }
        { rewrite (Hnone _ _ Hmsg) in Ht. discriminate. }
Qed.

Lemma last_true_user_turn_idx_None (h : list message) :
  last_true_user_turn_idx h = None <-> no_genuine_user_message h.
Proof.
  unfold no_genuine_user_message. induction h as [|x h IH]; simpl.
  - split; [intros _ msg [] | reflexivity].
  - destruct (last_true_user_turn_idx h) as [i|].
    + split; [discriminate|]. intro H.
      discriminate (proj2 IH (fun msg Hm => H msg (or_intror Hm))).
    + destruct (true_user_turn x) eqn:Hx.
      * split; [discriminate|]. intro H. rewrite H in Hx by now left. discriminate.
      * split; [|reflexivity]. intros _ msg [<- | Hm]; [exact Hx|].
        now apply (proj1 IH).
Qed.


Lemma prune_message_true_user_turn (idx i : nat) (msg : message) :
  true_user_turn (prune_message idx i msg) = true_user_turn msg.
Proof.
  unfold prune_message. destruct (Role_eqb (role msg) assistant) eqn:E; [|reflexivity].
  simpl. destruct (i <? idx); [|reflexivity].
  unfold true_user_turn. simpl. now destruct (role msg).
Qed.

Lemma prune_messages_length (idx i : nat) (h : list message) :
  length (prune_messages idx i h) = length h.
Proof. revert i; induction h as [|x h IH]; intro i; simpl; [|rewrite IH]; reflexivity. Qed.

Lemma prune_messages_nth (idx : nat) (h : list message) :
  forall i k, nth_error (prune_messages idx i h) k
              = option_map (prune_message idx (i + k)) (nth_error h k).
Proof.
  induction h as [|x h IH]; intros i [|k]; simpl; try reflexivity.
  - now rewrite Nat.add_0_r.
  - rewrite IH. now rewrite Nat.add_succ_r.
Qed.

Lemma prune_messages_last_idx (idx : nat) (h : list message) :
  forall i, last_true_user_turn_idx (prune_messages idx i h)
            = last_true_user_turn_idx h.
Proof.
  induction h as [|x h IH]; intro i; simpl; [reflexivity|].
  now rewrite IH, prune_message_true_user_turn.
Qed.

(** Pruning leaves the index of the latest genuine user message where it
    is. *)
Lemma prune_keeps_last_idx (h : list message) :
  last_true_user_turn_idx (_prune_history_for_api h) = last_true_user_turn_idx h.
Proof.
  unfold _prune_history_for_api.
  destruct (last_true_user_turn_idx h) as [idx|] eqn:E; [|exact E].
  now rewrite prune_messages_last_idx.
Qed.

Lemma prune_messages_fixed (idx : nat) (h : list message) :
  forall i,
    (forall k msg, nth_error h k = Some msg -> prune_message idx (i + k) msg = msg) ->
    prune_messages idx i h = h.
Proof.
  induction h as [|x h IH]; intros i H; simpl; [reflexivity|].
  f_equal.
  - specialize (H 0 x eq_refl). now rewrite Nat.add_0_r in H.
  - apply IH. intros k msg Hk. specialize (H (S k) msg Hk).
    now rewrite Nat.add_succ_r in H.
Qed.

Lemma deref_old (hp ext : heap) (a : address) :
  a < length hp -> deref (hp ++ ext) a = deref hp a.
Proof. intro H. unfold deref. now apply app_nth1. Qed.

Lemma deref_new (hp ext : heap) (x : message) :
  deref (hp ++ x :: ext) (length hp) = x.
Proof. unfold deref. apply nth_middle. Qed.

Lemma assign_content_new (hp : heap) (x : message) (c : str) :
  assign_content (hp ++ [x]) (length hp) c = hp ++ [set_content x c].
Proof. induction hp as [|y hp IH]; simpl; [reflexivity | now rewrite IH]. Qed.

(** The loop over the objects only adds objects, and the objects it returns
    hold what the loop over the values computes. *)
Lemma prune_objects_spec (idx : nat) (refs : list address) :
  forall (i : nat) (hp : heap),
    Forall (fun a => a < length hp) refs ->
    exists ext,
      snd (prune_objects idx i refs hp) = hp ++ ext
      /\ map (deref (hp ++ ext)) (fst (prune_objects idx i refs hp))
         = prune_messages idx i (map (deref hp) refs)
      /\ Forall (fun a => length hp <= a) (fst (prune_objects idx i refs hp)).
Proof.
  induction refs as [|a refs IH]; intros i hp Hv.
  - exists []. simpl. now rewrite app_nil_r.
  - inversion Hv as [|? ? Ha Hrest]; subst.
    cbn [prune_objects].
    set (msg := deref hp a).
    assert (E : (if Role_eqb (role msg) assistant && (i <? idx)
                 then assign_content (hp ++ [msg]) (length hp)
                        (strip (think_sub (content (deref (hp ++ [msg]) (length hp)))))
                 else hp ++ [msg])
                = hp ++ [prune_message idx i msg]).
    { unfold prune_message. destruct (_ && _); [|reflexivity].
      now rewrite deref_new, assign_content_new. }
    rewrite E. clear E.
    destruct (IH (S i) (hp ++ [prune_message idx i msg])) as [ext [Hs [Hm Hf]]].
    { eapply Forall_impl; [|exact Hrest]. simpl. intros. rewrite length_app. lia. }
    destruct (prune_objects idx (S i) refs (hp ++ [prune_message idx i msg]))
      as [out hp3].
    simpl in Hs, Hm, Hf. subst hp3.
    exists (prune_message idx i msg :: ext). rewrite <- app_assoc in *. simpl in *.
    repeat split.
    + f_equal; [apply deref_new|].
      rewrite Hm. f_equal. apply map_ext_in. intros b Hb.
      apply deref_old. rewrite Forall_forall in Hrest. now apply Hrest.
    + constructor; [lia|]. eapply Forall_impl; [|exact Hf].
      simpl. intros. rewrite length_app in *. simpl in *. lia.
Qed.

(** C5.  With no genuine user message the history is returned as it is.
    Otherwise, with [idx] the index of the most recent genuine user message:
    the result has the length of the history; a message at or after [idx] is
    retained as it is; so is every message that is not an assistant message;
    and an assistant message strictly before [idx] has its reasoning blocks
    removed.  On the objects, the function leaves every object that exists
    when it is called as it is (it writes to copies only), and the objects it
    returns hold the pruned history. *)
Theorem prune_history_for_api_frame (h : list message) :
  (no_genuine_user_message h -> _prune_history_for_api h = h)
  /\ (forall idx, latest_genuine_user_message h idx ->
        length (_prune_history_for_api h) = length h
        /\ (forall i msg, nth_error h i = Some msg -> idx <= i ->
              nth_error (_prune_history_for_api h) i = Some msg)
        /\ (forall i msg, nth_error h i = Some msg -> role msg <> assistant ->
              nth_error (_prune_history_for_api h) i = Some msg)
        /\ (forall i msg, nth_error h i = Some msg -> role msg = assistant ->
              i < idx ->
              nth_error (_prune_history_for_api h) i = Some (without_reasoning msg)))
  /\ (forall (hp : heap) (refs : list address),
        Forall (fun a => a < length hp) refs ->
        map (deref hp) refs = h ->
        let '(refs', hp') := _prune_history_for_api_objects refs hp in
        (forall a, a < length hp -> deref hp' a = deref hp a)
        /\ map (deref hp') refs' = _prune_history_for_api h).
Proof.
  split; [|split].
  - intro H. apply last_true_user_turn_idx_None in H.
    unfold _prune_history_for_api. now rewrite H.
  - intros idx H. apply last_true_user_turn_idx_Some in H.
    unfold _prune_history_for_api. rewrite H.
    split; [apply prune_messages_length|].
    repeat split; intros i msg Hi Hc; [| |intro Hlt];
      rewrite prune_messages_nth, Hi; simpl; f_equal; unfold prune_message.
    + apply Nat.ltb_ge in Hc. rewrite Hc. now rewrite andb_false_r.
    + destruct (role msg); try reflexivity. congruence.
    + rewrite Hc. apply Nat.ltb_lt in Hlt. now rewrite Hlt.
  - intros hp refs Hv Hh.
    unfold _prune_history_for_api_objects, _prune_history_for_api.
    rewrite Hh. destruct (last_true_user_turn_idx h) as [idx|].
    + destruct (prune_objects_spec idx refs 0 hp Hv) as [ext [Hs [Hm _]]].
      destruct (prune_objects idx 0 refs hp) as [refs' hp'].
      simpl in Hs, Hm. subst hp'. split.
      * intros a Ha. now apply deref_old.
      * now rewrite Hm, Hh.
    + now split.
Qed.

(** C6, as amended.  Pruning never moves the index of the latest genuine
    user message; and pruning an already-pruned history changes nothing when
    the first pruning has left no complete reasoning block in the assistant
    messages before that index. *)
Theorem prune_history_for_api_idempotent (h : list message) :
  (forall idx i msg,
     last_true_user_turn_idx h = Some idx -> i < idx ->
     nth_error (_prune_history_for_api h) i = Some msg ->
     role msg = assistant ->
     think_finditer (content msg) = []) ->
  last_true_user_turn_idx (_prune_history_for_api h) = last_true_user_turn_idx h
  /\ _prune_history_for_api (_prune_history_for_api h) = _prune_history_for_api h.
Proof.
  intro Hclean. split; [apply prune_keeps_last_idx|].
  unfold _prune_history_for_api at 1. rewrite prune_keeps_last_idx.
  destruct (last_true_user_turn_idx h) as [idx|] eqn:E; [|reflexivity].
  apply prune_messages_fixed. intros k msg Hk. simpl.
  unfold prune_message.
  destruct (Role_eqb (role msg) assistant) eqn:Hr; [|reflexivity].
  destruct (k <? idx) eqn:Hlt; [|reflexivity]. simpl.
  apply Nat.ltb_lt in Hlt.
  assert (Ha : role msg = assistant) by (destruct (role msg); try discriminate; reflexivity).
  rewrite (think_sub_no_block _ (Hclean idx k msg eq_refl Hlt Hk Ha)).
  pose proof Hk as Hk'.
  unfold _prune_history_for_api in Hk'. rewrite E in Hk'.
  rewrite prune_messages_nth in Hk'.
  destruct (nth_error h k) as [orig|]; [|discriminate]. simpl in Hk'.
  injection Hk' as Hk'. unfold prune_message in Hk'.
  rewrite <- Hk' in Hr. 
  assert (Hro : Role_eqb (role orig) assistant = true).
  { destruct (Role_eqb (role orig) assistant && (k <? idx)); [exact Hr | exact Hr]. }
  rewrite Hro in Hk'. apply Nat.ltb_lt in Hlt. rewrite Hlt in Hk'. simpl in Hk'.
  rewrite <- Hk'. unfold set_content. simpl.
  now rewrite strip_idem.
Qed.

(* ------------------------------------------------------------------ *)
(** ** Tool results on the wire *)
(* ------------------------------------------------------------------ *)

Lemma prune_keeps_other_roles (h : list message) (msg : message) :
  In msg h -> role msg <> assistant -> In msg (_prune_history_for_api h).
Proof.
  intros Hin Hr. unfold _prune_history_for_api.
  destruct (last_true_user_turn_idx h) as [idx|]; [|exact Hin].
  apply In_nth_error in Hin as [k Hk].
  apply (nth_error_In _ k). rewrite prune_messages_nth, Hk. simpl. f_equal.
  unfold prune_message. destruct (role msg); try reflexivity. congruence.
Qed.

Lemma from_start_index_keeps (h : list message) (msg : message) :
  In msg h -> role msg <> system -> In msg (from_start_index h).
Proof.
  destruct h as [|x h]; [intros []|]. simpl.
  destruct (Role_eqb (role x) system) eqn:E; [|auto].
  intros [<- | H] Hr; [|exact H].
  destruct (role x); try discriminate. congruence.
Qed.

Lemma api_messages_In (msgs : list message) (msg : message) (w : wire_message) :
  In msg msgs -> api_message msg = Some w -> In w (api_messages msgs).
Proof.
  induction msgs as [|x msgs IH]; [intros []|]. simpl. intros [-> | H] Hw.
  - rewrite Hw. now left.
  - destruct (api_message x); [right|]; now apply IH.
Qed.

Lemma api_message_role (msg : message) (w : wire_message) :
  api_message msg = Some w -> w_role w <> tool.
Proof.
  unfold api_message. destruct (role msg); intros [= <-]; discriminate.
Qed.

Lemma api_messages_role (msgs : list message) (w : wire_message) :
  In w (api_messages msgs) -> w_role w <> tool.
Proof.
  induction msgs as [|x msgs IH]; [intros []|]. simpl.
  destruct (api_message x) as [v|] eqn:E; [|exact IH].
  intros [<- | H]; [now apply (api_message_role x) | now apply IH].
Qed.

Lemma handle_matches_roles {C : Collaborators} (cfg : config) (matches : list str) :
  forall found results m found' results' m',
    handle_matches cfg matches found results m = (inr (found', results'), m') ->
    Forall (fun r => role r = tool) results ->
    Forall (fun r => role r = tool) results'.
Proof.
  induction matches as [|raw matches IH]; intros found results m found' results' m'.
  - simpl. now intros [= _ <- _].
  - simpl. destruct (handle_match cfg raw found results m) as [[e | [f r]] m1] eqn:E;
      [discriminate|].
    intros H Hr. apply (IH _ _ _ _ _ _ H). clear H.
    unfold handle_match in E.
    destruct (json_loads (strip raw)) as [data| |e]; [| |discriminate].
    + destruct data; try discriminate.
      destruct (run_tool _ _ _ _ _) as [[e | c] m2]; [discriminate|].
      injection E as _ <- _. apply Forall_app. split; [exact Hr|].
      now constructor.
    + injection E as _ <- _. apply Forall_app. split; [exact Hr|].
      now constructor.
Qed.

(** What the methods leave of the stored history. *)
Section Stored.
Context {C : Collaborators}.
Variable cfg : config.

Lemma run_tool_messages (inner : str) (tool_name tool_args : json) (m : machine) :
  messages (snd (run_tool cfg inner tool_name tool_args m)) = messages m.
Proof.
  unfold run_tool.
  destruct (negb (truthy tool_name)); [reflexivity|].
  destruct (negb (hashable tool_name)); [reflexivity|].
  destruct (match tool_name with
            | JStr n => dict_lookup n (tool_to_agent_map cfg)
            | _ => None
            end) as [agent|]; [|reflexivity].
  now destruct (execute_tool _ _ _ _) as [c w].
Qed.

Lemma handle_match_messages (raw : str) (found : list json)
    (results : list message) (m : machine) :
  messages (snd (handle_match cfg raw found results m)) = messages m.
Proof.
  unfold handle_match.
  destruct (json_loads (strip raw)) as [data| |e]; [|reflexivity|reflexivity].
  destruct data; try reflexivity.
  pose proof (run_tool_messages (strip raw) (dict_get (lit "name") JNull items)
                (dict_get (lit "arguments") (JDict []) items) m) as H.
  now destruct (run_tool _ _ _ _ _) as [[e | c] m1].
Qed.

Lemma handle_matches_messages (matches : list str) :
  forall found results m,
    messages (snd (handle_matches cfg matches found results m)) = messages m.
Proof.
  induction matches as [|raw matches IH]; intros found results m; [reflexivity|].
  simpl. pose proof (handle_match_messages raw found results m) as H.
  destruct (handle_match cfg raw found results m) as [[e | [f r]] m1];
    [exact H|].
  now rewrite IH.
Qed.

Lemma handle_tool_calls_messages (assistant_content : option str) (m : machine) :
  messages (snd (_handle_tool_calls cfg assistant_content m)) = messages m.
Proof.
  unfold _handle_tool_calls. destruct assistant_content as [text|]; [|reflexivity].
  destruct (is_empty _); [reflexivity | apply handle_matches_messages].
Qed.

Lemma get_llm_response_messages (m : machine) (ctx : str) :
  messages (snd (_get_llm_response cfg m ctx)) = messages m.
Proof.
  unfold _get_llm_response.
  destruct (post_chat _ _) as [[c r | | e] w]; reflexivity.
Qed.

Lemma first_message_app (l r : list message) (s : message) :
  nth_error l 0 = Some s -> nth_error (l ++ r) 0 = Some s.
Proof. now destruct l. Qed.

Lemma prune_after_dispatch_first (results : nat) (msgs : list message) :
  nth_error (prune_after_dispatch cfg results msgs) 0 = nth_error msgs 0.
Proof.
  unfold prune_after_dispatch. destruct (_ <? _); [now destruct msgs | reflexivity].
Qed.

Lemma prune_between_turns_first (msgs : list message) :
  nth_error (prune_between_turns cfg msgs) 0 = nth_error msgs 0.
Proof.
  unfold prune_between_turns. destruct (_ <? _); [now destruct msgs | reflexivity].
Qed.

(** The loop keeps the first message of the history. *)
Lemma tool_loop_first_message (ctx : str) (n : nat) (s : message) :
  forall final text parse m,
    nth_error (messages m) 0 = Some s ->
    nth_error (messages (snd (tool_loop cfg ctx n final text parse m))) 0 = Some s.
Proof.
  induction n as [|n IH]; intros final text parse m Hs; [exact Hs|].
  cbn [tool_loop].
  pose proof (handle_tool_calls_messages parse m) as Hm.
  destruct (_handle_tool_calls cfg parse m) as [[e | [requested results]] m1];
    simpl in Hm; [cbn [snd]; now rewrite Hm|].
  destruct (is_empty results).
  - simpl. rewrite Hm. now apply first_message_app.
  - set (m3 := set_messages _ _).
    pose proof (get_llm_response_messages m3 ctx) as Hg.
    destruct (_get_llm_response cfg m3 ctx) as [[t p] m4]. simpl in Hg.
    apply IH. rewrite Hg. subst m3. unfold set_messages, append_message.
    cbn [messages]. rewrite prune_after_dispatch_first, Hm.
    now apply first_message_app, first_message_app.
Qed.

(** So does a turn, once the context is there: the system message stays
    at index 0. *)
Lemma chat_with_context_first_message (user_input ctx : str) (m : machine)
    (s : message) :
  nth_error (messages m) 0 = Some s ->
  nth_error (messages (machine_of (chat_with_context cfg user_input ctx m))) 0
  = Some s.
Proof.
  intro Hs. unfold chat_with_context.
  set (m1 := set_messages _ _).
  assert (H1 : nth_error (messages m1) 0 = Some s).
  { subst m1. unfold set_messages. cbn [messages].
    now rewrite prune_between_turns_first. }
  clearbody m1.
  pose proof (get_llm_response_messages m1 ctx) as Hg.
  destruct (_get_llm_response cfg m1 ctx) as [[t p] m2]. simpl in Hg.
  rewrite <- Hg in H1.
  pose proof (tool_loop_first_message ctx (MAX_TOOL_ITERATIONS cfg) s [] t p m2 H1) as H.
  destruct (tool_loop _ _ _ _ _ _ _) as [[e | r] m3]; exact H.
Qed.
End Stored.

Section Wire.
Context {C : Collaborators}.
Variable cfg : config.

(** C9.  [_get_llm_response] posts one request, with a payload in which
    no message has role [tool] and in which every tool-result message of
    the history is a [user] message whose content is the tool-response
    envelope around a text; what it returns is read off the answer to that
    request, and it leaves the stored history as it is, so that the results
    that [_handle_tool_calls] makes with role [tool] are stored with that
    role. *)
Theorem tool_results_on_the_wire (m : machine) (synthesized_context : str) :
  (exists payload outcome w,
     post_chat payload (world m) = (outcome, w)
     /\ snd (_get_llm_response cfg m synthesized_context)
        = mkMachine (messages m) w (trace m ++ [Generated payload])
     /\ fst (_get_llm_response cfg m synthesized_context)
        = match outcome with
          | Api_message api_content api_reasoning =>
              (llm_generated_text api_content api_reasoning, api_content)
          | Api_timeout =>
              (lit "[Error: API request timed out.]",
               Some (lit "[Error: API request timed out.]"))
          | Api_error error_message => (error_message, Some error_message)
          end
     /\ (forall x, In x payload -> w_role x <> tool)
     /\ (forall msg, In msg (messages m) -> role msg = tool ->
           exists text,
             In (mkWire user None
                   (lit "<tool_response>" ++ newline ++ strip text ++ newline
                    ++ lit "</tool_response>"))
                payload
             /\ (text = content msg \/ text = content msg ++ lit ".")))
  /\ (forall assistant_content found results m',
        _handle_tool_calls cfg assistant_content m = (inr (found, results), m') ->
        Forall (fun r => role r = tool) results /\ messages m' = messages m).
Proof.
  split.
  - unfold _get_llm_response. cbv zeta.
    exists (api_payload_messages cfg (messages m) synthesized_context).
    destruct (post_chat (api_payload_messages cfg (messages m) synthesized_context)
                        (world m)) as [outcome w] eqn:P.
    exists outcome, w. split; [reflexivity|].
    split; [now destruct outcome|]. split; [now destruct outcome|]. split.
    + unfold api_payload_messages. intros x [<- | H]; [discriminate|].
      simpl in H. apply in_app_or in H as [H | H].
      * destruct (negb (is_empty synthesized_context)
                  && negb (is_empty (strip synthesized_context)));
          [|contradiction].
        destruct H as [<- | []]. discriminate.
      * now apply api_messages_role in H.
    + intros msg Hin Hr.
      assert (Hp : In msg (from_start_index (_prune_history_for_api (messages m)))).
      { apply from_start_index_keeps; [|congruence].
        apply prune_keeps_other_roles; [exact Hin | congruence]. }
      unfold api_payload_messages.
      destruct (api_message msg) as [x|] eqn:Ex;
        unfold api_message in Ex; rewrite Hr in Ex; [|discriminate].
      injection Ex as Ex.
      pose proof (api_messages_In _ msg x Hp) as Hx.
      unfold api_message in Hx. rewrite Hr, Ex in Hx. specialize (Hx eq_refl).
      subst x. unfold tool_response_envelope in Hx.
      destruct (negb (is_empty (content msg))
                && negb (endswith (lit ".") (strip (content msg)))).
      * exists (content msg ++ lit "."). split; [|now right].
        right. apply in_or_app. right. apply in_or_app. now right.
      * exists (content msg). split; [|now left].
        right. apply in_or_app. right. apply in_or_app. now right.
  - intros assistant_content found results m' H.
    pose proof (handle_tool_calls_messages cfg assistant_content m) as Hm.
    rewrite H in Hm. split; [|exact Hm].
    unfold _handle_tool_calls in H.
    destruct assistant_content as [text|]; [|discriminate].
    destruct (is_empty (TOOL_CALL_PATTERN_finditer text)).
    + injection H as _ <- _. constructor.
    + now apply (handle_matches_roles cfg _ _ _ _ _ _ _ H).
Qed.

End Wire.

(* ------------------------------------------------------------------ *)
(** ** The length of the history *)
(* ------------------------------------------------------------------ *)

Lemma head_and_last_length {A : Type} (k : nat) (l : list A) :
  length (head_and_last (S k) l) <= 1 + S k.
Proof.
  destruct l as [|x l]; simpl; [lia|].
  destruct (length l - k) eqn:E; simpl; [lia|].
  rewrite length_skipn. lia.
Qed.

Lemma head_and_last_head {A : Type} (k : nat) (l : list A) :
  nth_error (head_and_last k l) 0 = nth_error l 0.
Proof. now destruct l. Qed.

(** With room for at least one pair, the prune between turns bounds the
    history and keeps its first message; so does the prune during a
    dispatch, whose bound has room for the results just appended. *)
Lemma prune_bounds (cfg : config) (msgs : list message) :
  (1 <= max_history cfg ->
   length (prune_between_turns cfg msgs) <= 1 + 2 * max_history cfg)
  /\ nth_error (prune_between_turns cfg msgs) 0 = nth_error msgs 0
  /\ (forall results, 1 <= results ->
        length (prune_after_dispatch cfg results msgs)
        <= 1 + 3 * max_history cfg + results
        /\ nth_error (prune_after_dispatch cfg results msgs) 0 = nth_error msgs 0).
Proof.
  split; [|split].
  - intro H. unfold prune_between_turns.
    destruct (_ <? _) eqn:E.
    + destruct (max_history cfg * 2) as [|k] eqn:Ek; [lia|].
      pose proof (head_and_last_length k msgs). lia.
    + apply Nat.ltb_ge in E. lia.
  - unfold prune_between_turns. destruct (_ <? _); [apply head_and_last_head | reflexivity].
  - intros results H. unfold prune_after_dispatch.
    destruct (_ <? _) eqn:E.
    + split; [|apply head_and_last_head].
      destruct (max_history cfg * 3 + results) as [|k] eqn:Ek; [lia|].
      pose proof (head_and_last_length k msgs). lia.
    + apply Nat.ltb_ge in E. split; [lia | reflexivity].
Qed.

(** C3, at [max_history = 0].  The history of a new orchestrator after the
    first user message is appended has two messages; the prune between turns
    makes it three, more than the one system message the bound allows, and
    its second message is a system message too.  The turn ends with that
    history and the reply appended. *)
Theorem prune_between_turns_max_history_zero :
  let cfg := Sample.cfg 0 25 false in
  let history := [Sample.system_message; plain_message user (lit "hi")] in
  let C := Sample.collaborators (fun _ => Api_message (Some (lit "Hello.")) None)
                                (fun _ => Reasoner_exception) [] in
  prune_between_turns cfg history
  = [Sample.system_message; Sample.system_message; plain_message user (lit "hi")]
  /\ 1 + 2 * max_history cfg < length (prune_between_turns cfg history)
  /\ exists m',
       chat (C := C) cfg (lit "hi") (Sample.start C 0) = Returned (lit "Hello.") m'
       /\ messages m'
          = [Sample.system_message; Sample.system_message;
             plain_message user (lit "hi"); plain_message assistant (lit "Hello.")].
Proof.
  split; [reflexivity|]. split; [vm_compute; lia|].
  eexists. split; vm_compute; reflexivity.
Qed.

(* ------------------------------------------------------------------ *)
(** ** The loop of [chat] *)
(* ------------------------------------------------------------------ *)

Lemma generated_payloads_app (t u : list event) :
  generated_payloads (t ++ u) = generated_payloads t ++ generated_payloads u.
Proof.
  induction t as [|e t IH]; simpl; [reflexivity|].
  destruct e; simpl; now rewrite IH.
Qed.

Section Loop.
Context {C : Collaborators}.
Variable cfg : config.

Lemma handle_tool_calls_no_block (text : str) (m : machine) :
  TOOL_CALL_PATTERN_finditer text = [] ->
  _handle_tool_calls cfg (Some text) m = (inr ([], []), m).
Proof. intro H. unfold _handle_tool_calls. now rewrite H. Qed.

Lemma get_llm_response_trace (m : machine) (ctx : str) :
  trace (snd (_get_llm_response cfg m ctx))
  = trace m ++ [Generated (api_payload_messages cfg (messages m) ctx)].
Proof.
  unfold _get_llm_response.
  destruct (post_chat _ _) as [[c r | | e] w]; reflexivity.
Qed.

(** C7, as amended.  When the cap allows one iteration and the content of
    the first reply of the turn holds no tool-call marker block, [chat]
    returns after that one generation, without a tool execution, and the
    text it returns is [html.unescape] of the history text of the reply
    cleaned as follows: the reasoning is cut off ([strip_reasoning]: the
    text after the last closing marker, trimmed on the left; without a
    closing marker, the text before the first opening marker, trimmed on
    the right, and the empty text when the trimmed text starts with that
    marker), the tool-call blocks are removed, then the control tokens
    [<|im_end|>] and [<|im_start|>], and the white space around the result
    is trimmed. *)
Theorem chat_without_tool_calls (user_input : str) (m : machine)
    (synthesized_context : str) (m1 : machine)
    (text api_content : str) (m2 : machine) :
  1 <= MAX_TOOL_ITERATIONS cfg ->
  synthesize_memory_context cfg user_input
    (append_message m (plain_message user user_input))
  = (synthesized_context, m1) ->
  _get_llm_response cfg (set_messages m1 (prune_between_turns cfg (messages m1)))
                    synthesized_context
  = (text, Some api_content, m2) ->
  TOOL_CALL_PATTERN_finditer api_content = [] ->
  exists m',
    chat cfg user_input m
    = Returned
        (html_unescape
           (strip (replace_with_empty (lit "<|im_start|>")
                     (replace_with_empty (lit "<|im_end|>")
                        (TOOL_CALL_PATTERN_sub (strip_reasoning text))))))
        m'
    /\ generated_payloads (trace m')
       = generated_payloads (trace m1)
         ++ [api_payload_messages cfg (prune_between_turns cfg (messages m1))
                                  synthesized_context]
    /\ tool_executions (trace m') = tool_executions (trace m1)
    /\ warned (trace m') = warned (trace m1).
Proof.
  intros Hcap Hpre Hgen Hnone.
  unfold chat. rewrite Hpre. unfold chat_with_context. rewrite Hgen.
  destruct (MAX_TOOL_ITERATIONS cfg) as [|n]; [lia|].
  cbn [tool_loop]. rewrite (handle_tool_calls_no_block _ _ Hnone).
  cbn [is_empty]. eexists. split; [reflexivity|].
  pose proof (get_llm_response_trace
                (set_messages m1 (prune_between_turns cfg (messages m1)))
                synthesized_context) as Ht.
  rewrite Hgen in Ht. simpl in Ht.
  unfold tool_executions, warned. simpl. rewrite Ht.
  rewrite <- !app_assoc, generated_payloads_app, !filter_app, !existsb_app.
  simpl. rewrite app_nil_r, !orb_false_r. now repeat split.
Qed.
End Loop.

(** C1, at the cap 2 with a model that answers every request with a text
    and a call of the tool [get_env].  [chat] asks the model three times (once
    before the loop and once in each of its two iterations), prints the
    warning, and returns the empty text, which is not the cleaned text of a
    reply, ["Working on it."]. *)
Theorem chat_iteration_cap_exhausted :
  let response := lit "Working on it. " ++ Sample.get_env_call in
  let C := Sample.collaborators (fun _ => Api_message (Some response) None)
                                (fun _ => Reasoner_exception) [] in
  let cfg := Sample.cfg 15 2 false in
  exists m',
    chat (C := C) cfg (lit "go") (Sample.start C 0) = Returned [] m'
    /\ length (generated_payloads (trace m')) = 3
    /\ warned (trace m') = true
    /\ map role (messages m') = [system; user; assistant; tool; assistant; tool]
    /\ length (tool_executions (trace m')) = 2
    /\ TOOL_CALL_PATTERN_finditer response = [Sample.get_env_json]
    /\ final_user_visible_response response = lit "Working on it.".
Proof.
  intros response C cfg. eexists. split; [vm_compute; reflexivity|].
  repeat split; vm_compute; reflexivity.
Qed.

(** C7: the reply ["The answer is 4.<|im_end|>"] holds no tool-call block
    and no reasoning marker; [chat] returns ["The answer is 4."], the rule
    in the words of the specification gives the reply as it is. *)
Lemma cleaning_rule_counterexample :
  let response := lit "The answer is 4.<|im_end|>" in
  let C := Sample.collaborators (fun _ => Api_message (Some response) None)
                                (fun _ => Reasoner_exception) [] in
  let cfg := Sample.cfg 15 10 false in
  TOOL_CALL_PATTERN_finditer response = []
  /\ exists reply m',
       chat (C := C) cfg (lit "what's 2+2") (Sample.start C 0) = Returned reply m'
       /\ reply = lit "The answer is 4."
       /\ reply <> specified_cleaning_rule response.
Proof.
  intros response C cfg. split; [reflexivity|].
  eexists. eexists. split; [vm_compute; reflexivity|].
  split; [reflexivity|]. vm_compute. discriminate.
Qed.

(* ------------------------------------------------------------------ *)
(** ** The memory reasoner *)
(* ------------------------------------------------------------------ *)

Section Reasoner.
Context {C : Collaborators}.

Lemma last_snoc (msgs : list message) (x : message) :
  last (msgs ++ [x]) no_message = x.
Proof. apply last_last. Qed.

Lemma reasoner_tool_call_last (q raw : str) (msgs : list message) (m : machine)
    (msgs' : list message) (m' : machine) :
  reasoner_tool_call q raw msgs m = (true, msgs', m') ->
  role (last msgs' no_message) = tool.
Proof.
  unfold reasoner_tool_call.
  destruct (json_loads (strip raw)) as [data| |e]; [| |discriminate].
  - destruct data; try discriminate.
    destruct (if json_is_str _ _ then _ else _) as [[c|] m1]; [|discriminate].
    intros [= <- _]. now rewrite last_snoc.
  - intros [= <- _]. now rewrite last_snoc.
Qed.

(** After tool calls that went through, the last message is a tool
    message. *)
Lemma reasoner_tool_calls_last (q : str) (calls : list str) :
  forall msgs m msgs' m',
    reasoner_tool_calls q calls msgs m = (true, msgs', m') ->
    role (last msgs no_message) = tool \/ calls <> [] ->
    role (last msgs' no_message) = tool.
Proof.
  induction calls as [|raw calls IH]; intros msgs m msgs' m'; simpl.
  - intros [= <- _] [H | H]; [exact H | contradiction].
  - destruct (reasoner_tool_call q raw msgs m) as [[[|] msgs1] m1] eqn:E;
      [|discriminate].
    intros H _. apply (IH _ _ _ _ H). left.
    now apply (reasoner_tool_call_last _ _ _ _ _ _ E).
Qed.

(** Where the loop is left, [final_synthesis] is a trimmed text without a
    tool-call block. *)
Lemma reasoner_loop_final (q : str) (n : nat) :
  forall msgs m,
    role (last msgs no_message) <> assistant ->
    let final_synthesis := fst (fst (reasoner_loop q n [] msgs m)) in
    TOOL_CALL_PATTERN_finditer final_synthesis = []
    /\ strip final_synthesis = final_synthesis.
Proof.
  induction n as [|n IH]; intros msgs m Hlast.
  - simpl. unfold reasoner_for_else.
    destruct (Role_eqb (role (last msgs no_message)) assistant) eqn:E.
    + destruct (role (last msgs no_message)); try discriminate. congruence.
    + simpl. split; reflexivity.
  - cbn [reasoner_loop].
    destruct (post_reasoner msgs (world m)) as [[c | |] w];
      [|split; reflexivity|split; reflexivity].
    destruct (is_empty (TOOL_CALL_PATTERN_finditer (strip c))) eqn:E.
    + simpl. apply is_empty_true in E. split; [exact E | apply strip_idem].
    + destruct (reasoner_tool_calls q _ _ _) as [[[|] msgs2] m2] eqn:R;
        [|split; reflexivity].
      apply IH.
      rewrite (reasoner_tool_calls_last _ _ _ _ _ _ R); [discriminate|].
      right. now apply is_empty_false.
Qed.

Lemma reasoner_start_last (cfg : config) (q : str) :
  role (last (reasoner_start cfg q) no_message) <> assistant.
Proof. discriminate. Qed.

(** The check after the loop never has anything to replace. *)
Lemma unprocessed_tool_call_check_idle (cfg : config) (q : str) (n : nat) (m : machine) :
  let final_synthesis := fst (fst (reasoner_loop q n [] (reasoner_start cfg q) m)) in
  unprocessed_tool_call_check cfg final_synthesis = final_synthesis.
Proof.
  destruct (reasoner_loop_final q n _ m (reasoner_start_last cfg q)) as [H _].
  cbv zeta. unfold unprocessed_tool_call_check. rewrite H. simpl.
  now rewrite andb_false_r.
Qed.

(** Whatever [DEBUG] is, the final synthesis with which the loop is left
    holds no tool-call marker block (a match of [TOOL_CALL_PATTERN]), so
    that the check after the loop replaces nothing on any invocation; and
    the text returned as synthesized context holds no such block: it is no
    text with an opening marker and a closing marker after it. *)
Lemma memory_reasoning_returns_no_block (cfg : config) (q : str) (n : nat)
    (m : machine) :
  let final_synthesis := fst (fst (reasoner_loop q n [] (reasoner_start cfg q) m)) in
  let returned := fst (_invoke_memory_reasoning_llm cfg q n m) in
  TOOL_CALL_PATTERN_finditer final_synthesis = []
  /\ unprocessed_tool_call_check cfg final_synthesis = final_synthesis
  /\ TOOL_CALL_PATTERN_finditer returned = []
  /\ forall a b c, returned <> a ++ TOOL_OPEN ++ b ++ TOOL_CLOSE ++ c.
Proof.
  cbv zeta.
  destruct (reasoner_loop_final q n _ m (reasoner_start_last cfg q)) as [H Hs].
  pose proof (unprocessed_tool_call_check_idle cfg q n m) as Hc. cbv zeta in Hc.
  split; [exact H|]. split; [exact Hc|].
  assert (Hr : TOOL_CALL_PATTERN_finditer
                 (fst (_invoke_memory_reasoning_llm cfg q n m)) = []).
  { unfold _invoke_memory_reasoning_llm.
    destruct (reasoner_loop q n [] (reasoner_start cfg q) m) as [[fs msgs] m1].
    simpl in *. rewrite Hc.
    destruct (contains SENTINEL fs); [reflexivity|].
    destruct (is_empty (strip fs)); [reflexivity|].
    simpl. now rewrite Hs. }
  split; [exact Hr|].
  exact (proj1 (finditer_nil_iff _ _ _ TOOL_OPEN_marker _) Hr).
Qed.
End Reasoner.

(* ------------------------------------------------------------------ *)
(** ** The prompts of a turn *)
(* ------------------------------------------------------------------ *)

Section Prompts.
Context {C : Collaborators}.
Variable cfg : config.

Lemma warned_app (t u : list event) : warned (t ++ u) = warned t || warned u.
Proof. apply existsb_app. Qed.

Lemma tools_no_payload (new : list event) :
  only_tool_executions new -> generated_payloads new = [].
Proof.
  induction 1 as [|e new He _ IH]; [reflexivity|].
  destruct e; try discriminate. exact IH.
Qed.

Lemma tools_no_warning (new : list event) :
  only_tool_executions new -> warned new = false.
Proof.
  induction 1 as [|e new He _ IH]; [reflexivity|].
  destruct e; try discriminate. exact IH.
Qed.

(** Nothing was observed: the trace is extended by no event. *)
Ltac no_new_events :=
  exists []; split; [now rewrite app_nil_r | constructor].

(** The dispatch of a tool call is seen as tool executions only. *)
Lemma run_tool_trace (inner : str) (tool_name tool_args : json) (m : machine) :
  exists new,
    trace (snd (run_tool cfg inner tool_name tool_args m)) = trace m ++ new
    /\ only_tool_executions new.
Proof.
  unfold run_tool.
  destruct (negb (truthy tool_name));
    [no_new_events|].
  destruct (negb (hashable tool_name));
    [no_new_events|].
  destruct (match tool_name with
            | JStr n => dict_lookup n (tool_to_agent_map cfg)
            | _ => None
            end) as [agent|];
    [|no_new_events].
  destruct (execute_tool _ _ _ _) as [c w]. cbn [snd observe trace].
  eexists. split; [reflexivity|]. now repeat constructor.
Qed.

Lemma handle_match_trace (raw : str) (found : list json)
    (results : list message) (m : machine) :
  exists new,
    trace (snd (handle_match cfg raw found results m)) = trace m ++ new
    /\ only_tool_executions new.
Proof.
  unfold handle_match.
  destruct (json_loads (strip raw)) as [data| |e];
    [|no_new_events|no_new_events].
  destruct data;
    try no_new_events.
  pose proof (run_tool_trace (strip raw) (dict_get (lit "name") JNull items)
                (dict_get (lit "arguments") (JDict []) items) m) as H.
  now destruct (run_tool _ _ _ _ _) as [[e | c] m1].
Qed.

Lemma handle_matches_trace (matches : list str) :
  forall found results m,
  exists new,
    trace (snd (handle_matches cfg matches found results m)) = trace m ++ new
    /\ only_tool_executions new.
Proof.
  induction matches as [|raw matches IH]; intros found results m.
  - no_new_events.
  - simpl. destruct (handle_match_trace raw found results m) as [new1 [H1 F1]].
    destruct (handle_match cfg raw found results m) as [[e | [f r]] m1];
      [now exists new1|].
    destruct (IH f r m1) as [new2 [H2 F2]]. simpl in H1.
    exists (new1 ++ new2). rewrite H2, H1, app_assoc. split; [reflexivity|].
    now apply Forall_app.
Qed.

Lemma handle_tool_calls_trace (assistant_content : option str) (m : machine) :
  exists new,
    trace (snd (_handle_tool_calls cfg assistant_content m)) = trace m ++ new
    /\ only_tool_executions new.
Proof.
  unfold _handle_tool_calls.
  destruct assistant_content as [text|];
    [|no_new_events].
  destruct (is_empty _); [|apply handle_matches_trace].
  no_new_events.
Qed.

Lemma handle_tool_calls_payloads (assistant_content : option str) (m : machine) :
  generated_payloads (trace (snd (_handle_tool_calls cfg assistant_content m)))
  = generated_payloads (trace m).
Proof.
  destruct (handle_tool_calls_trace assistant_content m) as [new [-> H]].
  now rewrite generated_payloads_app, (tools_no_payload _ H), app_nil_r.
Qed.

Lemma handle_tool_calls_warned (assistant_content : option str) (m : machine) :
  warned (trace (snd (_handle_tool_calls cfg assistant_content m)))
  = warned (trace m).
Proof.
  destruct (handle_tool_calls_trace assistant_content m) as [new [-> H]].
  now rewrite warned_app, (tools_no_warning _ H), orb_false_r.
Qed.

(** The loop prints the warning only when it is exhausted, and then its
    result is the value [final_llm_output_for_user_processing] had before
    the loop. *)
Lemma tool_loop_exhausted (ctx : str) (n : nat) :
  forall final text parse m r m',
    tool_loop cfg ctx n final text parse m = (inr r, m') ->
    warned (trace m) = false ->
    warned (trace m') = true ->
    r = final.
Proof.
  induction n as [|n IH]; intros final text parse m r m'.
  - simpl. now intros [= <- _].
  - cbn [tool_loop].
    pose proof (handle_tool_calls_warned parse m) as Hw.
    destruct (_handle_tool_calls cfg parse m) as [[e | [requested results]] m1];
      [discriminate|].
    simpl in Hw. destruct (is_empty results).
    + intros [= _ <-] H0 H1. simpl in H1. congruence.
    + set (m3 := set_messages _ _).
      pose proof (get_llm_response_trace cfg m3 ctx) as Ht.
      destruct (_get_llm_response cfg m3 ctx) as [[t p] m4]. simpl in Ht.
      intros H H0 H1. apply (IH _ _ _ _ _ _ H); [|exact H1].
      rewrite Ht, warned_app. subst m3. simpl. now rewrite Hw, H0.
Qed.

(** Whatever the cap and the collaborators: when [chat] returns after the
    warning of the exhausted loop, it returns [html.unescape] of the empty
    text. *)
Lemma chat_exhausted_returns_empty (user_input ctx : str) (m : machine)
    (reply : str) (m' : machine) :
  chat_with_context cfg user_input ctx m = Returned reply m' ->
  warned (trace m) = false ->
  warned (trace m') = true ->
  reply = html_unescape [].
Proof.
  unfold chat_with_context.
  set (m1 := set_messages _ _).
  pose proof (get_llm_response_trace cfg m1 ctx) as Ht.
  destruct (_get_llm_response cfg m1 ctx) as [[t p] m2]. simpl in Ht.
  destruct (tool_loop cfg ctx (MAX_TOOL_ITERATIONS cfg) [] t p m2)
    as [[e | r] m3] eqn:E; [discriminate|].
  intros [= <- <-] H0 H1.
  assert (Hr : r = []).
  { apply (tool_loop_exhausted _ _ _ _ _ _ _ _ E).
    - rewrite Ht, warned_app. subst m1. simpl. now rewrite H0.
    - simpl in H1. rewrite warned_app in H1. simpl in H1.
      now rewrite orb_false_r in H1. }
  now subst r.
Qed.

(** Every request of the loop carries the context the loop was given. *)
Lemma tool_loop_payloads (ctx : str) (n : nat) :
  forall final text parse m,
  exists histories,
    generated_payloads (trace (snd (tool_loop cfg ctx n final text parse m)))
    = generated_payloads (trace m)
      ++ map (fun h => api_payload_messages cfg h ctx) histories.
Proof.
  induction n as [|n IH]; intros final text parse m.
  - exists []. simpl. now rewrite generated_payloads_app.
  - cbn [tool_loop].
    pose proof (handle_tool_calls_payloads parse m) as H.
    destruct (_handle_tool_calls cfg parse m) as [[e | [requested results]] m1];
      simpl in H.
    + exists []. simpl. now rewrite app_nil_r.
    + destruct (is_empty results).
      * exists []. simpl. now rewrite app_nil_r.
      * set (m3 := set_messages _ _).
        pose proof (get_llm_response_trace cfg m3 ctx) as Ht.
        destruct (_get_llm_response cfg m3 ctx) as [[t p] m4]. simpl in Ht.
        destruct (IH final t p m4) as [hs Hhs].
        exists (messages m3 :: hs). rewrite Hhs, Ht, generated_payloads_app.
        simpl. now rewrite H, <- app_assoc.
Qed.

Lemma chat_with_context_payloads (user_input ctx : str) (m : machine) :
  exists histories,
    generated_payloads (trace (machine_of (chat_with_context cfg user_input ctx m)))
    = generated_payloads (trace m)
      ++ map (fun h => api_payload_messages cfg h ctx) histories.
Proof.
  unfold chat_with_context.
  set (m1 := set_messages _ _).
  pose proof (get_llm_response_trace cfg m1 ctx) as Ht.
  destruct (_get_llm_response cfg m1 ctx) as [[t p] m2]. simpl in Ht.
  destruct (tool_loop_payloads ctx (MAX_TOOL_ITERATIONS cfg) [] t p m2) as [hs Hhs].
  exists (messages m1 :: hs).
  destruct (tool_loop _ _ _ _ _ _ _) as [[e | r] m3]; simpl in *.
  - now rewrite Hhs, Ht, generated_payloads_app, <- app_assoc.
  - now rewrite generated_payloads_app, Hhs, Ht, generated_payloads_app,
      <- !app_assoc, app_nil_r.
Qed.

Lemma api_messages_names (msgs : list message) (w : wire_message) :
  In w (api_messages msgs) -> w_name w = None.
Proof.
  induction msgs as [|x msgs IH]; [intros []|]. simpl.
  destruct (api_message x) as [v|] eqn:E; [|exact IH].
  intros [<- | H]; [|now apply IH].
  unfold api_message in E. destruct (role x); now inversion E.
Qed.

(** Without a context no message of the payload has a name. *)
Lemma api_payload_without_context (h : list message) (w : wire_message) :
  In w (api_payload_messages cfg h []) -> w_name w = None.
Proof.
  unfold api_payload_messages. simpl. intros [<- | H]; [reflexivity|].
  now apply api_messages_names in H.
Qed.

(** C8.  When the probes of a turn found something, so that the memory
    reasoner is invoked, and the final synthesis with which its loop is left
    contains the sentinel: the invocation returns the empty text, [chat]
    goes on with the empty context, and no message of a payload that it
    sends to the primary model has a name: none is the [memory_synthesis]
    message. *)
Theorem sentinel_means_no_context (user_input : str) (m : machine)
    (doc convo : list json) (w1 w2 : World)
    (final_synthesis : str) (msgs : list message) (m1 : machine) :
  let m0 := append_message m (plain_message user user_input) in
  let m_probed := mkMachine (messages m0) w2 (trace m0) in
  query_knowledge_base (JStr user_input) (JInt 3) (world m0) = (Some doc, w1) ->
  recall_relevant_interactions (JStr user_input) (JInt 3) w1 = (Some convo, w2) ->
  doc <> [] \/ convo <> [] ->
  reasoner_loop user_input 15 [] (reasoner_start cfg user_input) m_probed
  = (final_synthesis, msgs, m1) ->
  contains SENTINEL final_synthesis = true ->
  _invoke_memory_reasoning_llm cfg user_input 15 m_probed = ([], m1)
  /\ chat cfg user_input m = chat_with_context cfg user_input [] m1
  /\ exists payloads,
       generated_payloads (trace (machine_of (chat cfg user_input m)))
       = generated_payloads (trace m1) ++ payloads
       /\ forall payload w, In payload payloads -> In w payload ->
            w_name w = None /\ w_name w <> Some (lit "memory_synthesis").
Proof.
  intros m0 m_probed Hdoc Hconvo Hfound Hloop Hsentinel.
  assert (Hinvoke : _invoke_memory_reasoning_llm cfg user_input 15 m_probed = ([], m1)).
  { unfold _invoke_memory_reasoning_llm.
    pose proof (unprocessed_tool_call_check_idle cfg user_input 15 m_probed) as Hc.
    cbv zeta in Hc. rewrite Hloop in *. simpl in Hc. rewrite Hc.
    now rewrite Hsentinel. }
  assert (Hchat : chat cfg user_input m = chat_with_context cfg user_input [] m1).
  { unfold chat, synthesize_memory_context. fold m0. rewrite Hdoc, Hconvo.
    fold m_probed.
    assert (E : negb (is_empty doc) || negb (is_empty convo) = true).
    { destruct Hfound as [H | H]; apply is_empty_false in H; rewrite H;
        [reflexivity | apply orb_true_r]. }
    now rewrite E, Hinvoke. }
  split; [exact Hinvoke|]. split; [exact Hchat|].
  rewrite Hchat.
  destruct (chat_with_context_payloads user_input [] m1) as [hs Hhs].
  eexists. split; [exact Hhs|].
  intros payload w Hp Hw. apply in_map_iff in Hp as [h [<- _]].
  rewrite (api_payload_without_context h w Hw). split; [reflexivity | discriminate].
Qed.
End Prompts.

(* ------------------------------------------------------------------ *)
(** ** Examples *)
(* ------------------------------------------------------------------ *)

(** C6: the removal of the block [<think>plan</think>] joins [<thi] and
    [nk>] into the opening marker of a new block, which a second pruning
    removes, while the index of the latest genuine user message stays
    where it is. *)
Lemma prune_twice_counterexample :
  let h := [Sample.system_message;
            plain_message assistant (lit "<thi<think>plan</think>nk>more</think>Done.");
            plain_message user (lit "next")] in
  last_true_user_turn_idx (_prune_history_for_api h) = last_true_user_turn_idx h
  /\ _prune_history_for_api h
     = [Sample.system_message;
        plain_message assistant (lit "<think>more</think>Done.");
        plain_message user (lit "next")]
  /\ _prune_history_for_api (_prune_history_for_api h)
     = [Sample.system_message;
        plain_message assistant (lit "Done.");
        plain_message user (lit "next")]
  /\ _prune_history_for_api (_prune_history_for_api h) <> _prune_history_for_api h.
Proof.
  repeat split; try reflexivity. vm_compute. discriminate.
Qed.

Lemma prune_history_for_api_idempotent_witness :
  let h := [Sample.system_message;
            plain_message assistant (lit "<think>plan</think> Done.");
            plain_message user (lit "next")] in
  last_true_user_turn_idx (_prune_history_for_api h) = last_true_user_turn_idx h
  /\ _prune_history_for_api (_prune_history_for_api h) = _prune_history_for_api h.
Proof.
  apply prune_history_for_api_idempotent.
  intros idx i msg Hidx Hi Hnth Hrole.
  vm_compute in Hidx. injection Hidx as <-.
  destruct i as [|[|i]]; [| |lia].
  - vm_compute in Hnth. injection Hnth as <-. discriminate Hrole.
  - vm_compute in Hnth. injection Hnth as <-. reflexivity.
Defined.



Lemma chat_without_tool_calls_witness :
  let C := Sample.collaborators
             (fun _ => Api_message (Some (lit "The answer is 4.<|im_end|>"))
                                   (Some (lit "simple arithmetic")))
             (fun _ => Reasoner_exception) [] in
  let cfg := Sample.cfg 15 10 false in
  exists m',
    chat (C := C) cfg (lit "what's 2+2") (Sample.start C 0)
    = Returned (lit "The answer is 4.") m'
    /\ length (generated_payloads (trace m')) = 1
    /\ tool_executions (trace m') = []
    /\ warned (trace m') = false.
Proof.
  intros C cfg.
  destruct (chat_without_tool_calls (C := C) cfg (lit "what's 2+2")
              (Sample.start C 0) [] _ _ (lit "The answer is 4.<|im_end|>") _
              ltac:(simpl; lia) eq_refl eq_refl eq_refl)
    as [m' [Hchat [Hgen [Htools Hwarn]]]].
  exists m'. split; [exact Hchat|].
  rewrite Hgen, Htools, Hwarn. repeat split.
Defined.

Lemma sentinel_means_no_context_witness :
  let C := Sample.collaborators
             (fun _ => Api_message (Some (lit "Hello!")) None)
             (fun _ => Reasoner_content
                         (lit "No specific memory context deemed necessary or found."))
             [JStr (lit "an old conversation")] in
  let cfg := Sample.cfg 15 10 true in
  exists m1 payloads,
    chat (C := C) cfg (lit "hello") (Sample.start C 0)
    = chat_with_context cfg (lit "hello") [] m1
    /\ generated_payloads
         (trace (machine_of (chat (C := C) cfg (lit "hello") (Sample.start C 0))))
       = generated_payloads (trace m1) ++ payloads
    /\ forall payload w, In payload payloads -> In w payload ->
         w_name w = None /\ w_name w <> Some (lit "memory_synthesis").
Proof.
  intros C cfg.
  pose proof (sentinel_means_no_context (C := C) cfg (lit "hello") (Sample.start C 0)
              [JStr (lit "an old conversation")] [JStr (lit "an old conversation")]
              0 0) as T.
  cbv zeta in T.
  specialize (T SENTINEL).
  edestruct T as [_ [Hchat [payloads H]]].
  1: reflexivity.
  1: reflexivity.
  1: (left; discriminate).
  1: (lazy; reflexivity).
  1: reflexivity.
  eexists; exists payloads; split; [exact Hchat | exact H].
Defined.


Lemma prune_history_for_api_frame_witness :
  let h := [Sample.system_message;
            plain_message assistant (lit "<think>plan</think> Earlier answer.");
            plain_message user (lit "next");
            plain_message assistant (lit "<think>now</think> Working.")] in
  latest_genuine_user_message h 2
  /\ _prune_history_for_api h
     = [Sample.system_message;
        plain_message assistant (lit "Earlier answer.");
        plain_message user (lit "next");
        plain_message assistant (lit "<think>now</think> Working.")]
  /\ nth_error (_prune_history_for_api h) 3 = nth_error h 3
  /\ nth_error (_prune_history_for_api h) 1
     = Some (plain_message assistant (lit "Earlier answer.")).
Proof.
  intro h.
  assert (L : latest_genuine_user_message h 2)
    by (apply last_true_user_turn_idx_Some; reflexivity).
  destruct (proj1 (proj2 (prune_history_for_api_frame h)) 2 L)
    as [_ [Hafter [_ Hbefore]]].
  split; [exact L|]. split; [reflexivity|]. split.
  - exact (Hafter 3 _ eq_refl (le_S _ _ (le_n 2))).
  - exact (Hbefore 1 _ eq_refl eq_refl (le_n 2)).
Defined.

Lemma unprocessed_tool_call_check_debug (cfg : config) (final_synthesis : str) :
  TOOL_CALL_PATTERN_finditer final_synthesis <> [] ->
  unprocessed_tool_call_check cfg final_synthesis
  = if DEBUG cfg then MR_UNPROCESSED_TOOL_CALL else final_synthesis.
Proof.
  intro H. unfold unprocessed_tool_call_check.
  pose proof H as H'. apply is_empty_false in H'. rewrite H'.
  destruct final_synthesis as [|c s]; [now contradiction H|].
  reflexivity.
Qed.

Lemma tool_results_on_the_wire_witness :
  let C := Sample.collaborators (fun _ => Api_timeout) (fun _ => Reasoner_exception) [] in
  let cfg := Sample.cfg 15 10 false in
  let result := tool_message (JStr (lit "get_env")) (JStr (lit "get_env"))
                             (lit "[Value of 'HOME': /root]") in
  let m := mkMachine (C := C)
             [Sample.system_message; plain_message user (lit "Where is home?");
              plain_message assistant (lit "Let me look."); result] 0 [] in
  role result = tool
  /\ exists payload outcome w,
       post_chat payload (world m) = (outcome, w)
       /\ snd (_get_llm_response cfg m [])
          = mkMachine (messages m) w (trace m ++ [Generated payload])
       /\ payload
          = [mkWire system None (lit "You are JARVIS.");
             mkWire user None (lit "Where is home?");
             mkWire assistant None (lit "Let me look.");
             mkWire user None
               (lit "<tool_response>" ++ newline
                ++ lit "[Value of 'HOME': /root]." ++ newline
                ++ lit "</tool_response>")]
       /\ nth_error (messages (snd (_get_llm_response cfg m []))) 3 = Some result.
Proof.
  intros C cfg result m. split; [reflexivity|].
  destruct (proj1 (tool_results_on_the_wire (C := C) cfg m []))
    as [payload [outcome [w [P [E _]]]]].
  exists payload, outcome, w. split; [exact P|]. split; [exact E|].
  assert (E' := E). vm_compute in E'. injection E' as _ Ep.
  split; [symmetry; exact Ep|]. rewrite E. reflexivity.
Defined.

(* ------------------------------------------------------------------ *)
(** ** More on the tool-call pattern *)
(* ------------------------------------------------------------------ *)

Lemma startswith_firstn (p s : str) (n : nat) :
  startswith p (firstn n s) = true -> startswith p s = true.
Proof.
  revert s n; induction p as [|a p IH]; intros s n; [reflexivity|].
  destruct n as [|n]; [discriminate|]. destruct s as [|b s]; [discriminate|].
  simpl. intro H. apply andb_true_iff in H as [-> H]. simpl. now apply (IH s n).
Qed.

(** Before its first occurrence a pattern does not occur. *)
Lemma find_firstn_none (p s : str) (i : nat) :
  p <> [] -> find p s = Some i -> find p (firstn i s) = None.
Proof.
  intro Hp. revert i; induction s as [|c s IH]; intro i; simpl.
  - destruct p; [contradiction|]. discriminate.
  - destruct (startswith p (c :: s)) eqn:E.
    + intros [= <-]. destruct p; [contradiction | reflexivity].
    + destruct (find p s) as [k|]; [|discriminate].
      intros [= <-]. simpl.
      destruct (startswith p (c :: firstn k s)) eqn:E'.
      * apply (startswith_firstn p (c :: s) (S k)) in E'. congruence.
      * now rewrite (IH k eq_refl).
Qed.

Lemma marker_not_nil (p : str) : marker p -> p <> [].
Proof. destruct p; [contradiction | discriminate]. Qed.

Section ScanWhole.
Variables (open close : str).
Hypothesis open_marker : marker open.
Hypothesis close_marker : marker close.

Let piece (gb : str * str) : str := fst gb ++ open ++ snd gb ++ close.

(** The pieces of the scan, put together again with the markers, and the
    rest are the text; no gap holds [open], no body holds [close]. *)
Lemma scan_whole (n : nat) :
  forall s,
    s = concat (map piece (fst (scan open close (fun x => x) n s)))
        ++ snd (scan open close (fun x => x) n s)
    /\ Forall (fun gb => find open (fst gb) = None /\ find close (snd gb) = None)
              (fst (scan open close (fun x => x) n s)).
Proof.
  induction n as [|n IH]; intro s; [now split|].
  rewrite scan_S. cbv zeta.
  destruct (find open s) as [i|] eqn:Fi; [|now split].
  destruct (find close (slice_from (i + length open) s)) as [j|] eqn:Fj;
    [|now split].
  destruct (IH (slice_from (j + length close) (slice_from (i + length open) s)))
    as [Hs Hf].
  destruct (scan open close (fun x => x) n _) as [ms rest]. simpl in *.
  split.
  - unfold piece at 1. simpl. rewrite <- !app_assoc, <- Hs.
    unfold slice_from, slice_to in *.
    rewrite <- (find_split _ _ _ Fj). now apply find_split.
  - constructor; [|exact Hf]. simpl. unfold slice_to. split.
    + apply find_firstn_none; [now apply marker_not_nil | exact Fi].
    + apply find_firstn_none; [now apply marker_not_nil | exact Fj].
Qed.

(** With as many rounds as the text has characters, the rest holds no
    match. *)
Lemma scan_rest_no_match (n : nat) :
  forall s, length s <= n ->
    finditer open close (fun x => x)
             (snd (scan open close (fun x => x) n s)) = [].
Proof.
  induction n as [|n IH]; intros s Hn.
  - destruct s; [reflexivity | simpl in Hn; lia].
  - rewrite scan_S. cbv zeta.
    destruct (find open s) as [i|] eqn:Fi;
      [|now apply finditer_no_open].
    destruct (find close (slice_from (i + length open) s)) as [j|] eqn:Fj.
    + pose proof (IH (slice_from (j + length close) (slice_from (i + length open) s)))
        as H.
      destruct (scan open close (fun x => x) n _) as [ms rest]. simpl in *.
      apply H. unfold slice_from. rewrite !length_skipn.
      apply find_bound in Fi. pose proof (open_length open open_marker). lia.
    + simpl. unfold finditer. destruct (length s); [reflexivity|].
      rewrite scan_S, Fi. cbv zeta. now rewrite Fj.
Qed.

Lemma pieces_length (ms : list (str * str)) (rest : str) :
  length (concat (map piece ms) ++ rest)
  = length (concat (map fst ms) ++ rest)
    + length ms * (length open + length close)
    + length (concat (map snd ms)).
Proof.
  induction ms as [|[g b] ms IH]; simpl; [lia|].
  unfold piece at 1. simpl. rewrite <- !app_assoc.
  repeat rewrite !length_app in *. lia.
Qed.
End ScanWhole.

(** X1.  Every text is a document of marker blocks in exactly one way that
    the pattern reads: it is gaps without an opening marker, each followed
    by a block whose body holds no closing marker, and a tail without a
    match; [finditer] gives the bodies in that order, and [sub] the gaps and
    the tail without the blocks. *)
Theorem TOOL_CALL_PATTERN_decomposition (s : str) :
  exists blocks tail,
    s = document blocks tail
    /\ Forall block_in_place blocks
    /\ TOOL_CALL_PATTERN_finditer tail = []
    /\ TOOL_CALL_PATTERN_finditer s = map block_body blocks
    /\ TOOL_CALL_PATTERN_sub s = concat (map (fun b => fst (fst b)) blocks) ++ tail
    /\ forall blocks' tail',
         s = document blocks' tail' -> Forall block_in_place blocks' ->
         TOOL_CALL_PATTERN_finditer tail' = [] ->
         map block_body blocks' = map block_body blocks.
Proof.
  destruct (scan_whole TOOL_OPEN TOOL_CLOSE TOOL_OPEN_marker TOOL_CLOSE_marker
              (length s) s) as [Hs Hf].
  pose proof (scan_rest_no_match TOOL_OPEN TOOL_CLOSE TOOL_OPEN_marker
                (length s) s (le_n _)) as Hr.
  unfold TOOL_CALL_PATTERN_finditer, TOOL_CALL_PATTERN_sub, finditer, sub_empty.
  destruct (scan TOOL_OPEN TOOL_CLOSE (fun x => x) (length s) s) as [ms rest] eqn:E.
  cbn [fst snd] in Hs, Hf, Hr.
  exists (map (fun gb => (fst gb, snd gb, None)) ms), rest.
  assert (Hdoc : s = document (map (fun gb => (fst gb, snd gb, None)) ms) rest).
  { rewrite Hs at 1. unfold document. f_equal. f_equal.
    rewrite map_map. apply map_ext. now intros [g b]. }
  assert (Hplace : Forall block_in_place (map (fun gb => (fst gb, snd gb, None)) ms)).
  { apply Forall_map. eapply Forall_impl; [|exact Hf]. now intros [g b]. }
  assert (Hbodies : map snd ms
                    = map block_body (map (fun gb => (fst gb, snd gb, None)) ms)).
  { rewrite map_map. apply map_ext. now intros [g b]. }
  repeat split; try assumption.
  - cbn [fst snd]. f_equal. f_equal. rewrite map_map. apply map_ext.
    now intros [g b].
  - intros blocks' tail' Hs' Hp' Ht'.
    rewrite <- Hbodies.
    pose proof (finditer_document blocks' tail' Hp' Ht') as H'.
    rewrite <- Hs' in H'.
    unfold TOOL_CALL_PATTERN_finditer, finditer in H'. rewrite E in H'.
    now symmetry.
Qed.

(** X2.  The pattern has no match in a text exactly when the text is not an
    opening marker with a closing marker somewhere after it; [sub] leaves
    exactly these texts as they are, and makes every other text shorter by
    the markers and bodies of the matches. *)
Theorem TOOL_CALL_PATTERN_no_match (s : str) :
  (TOOL_CALL_PATTERN_finditer s = []
   <-> forall a b c, s <> a ++ TOOL_OPEN ++ b ++ TOOL_CLOSE ++ c)
  /\ (TOOL_CALL_PATTERN_sub s = s <-> TOOL_CALL_PATTERN_finditer s = [])
  /\ length s
     = length (TOOL_CALL_PATTERN_sub s)
       + length (TOOL_CALL_PATTERN_finditer s) * (length TOOL_OPEN + length TOOL_CLOSE)
       + length (concat (TOOL_CALL_PATTERN_finditer s)).
Proof.
  assert (L : length s
     = length (TOOL_CALL_PATTERN_sub s)
       + length (TOOL_CALL_PATTERN_finditer s) * (length TOOL_OPEN + length TOOL_CLOSE)
       + length (concat (TOOL_CALL_PATTERN_finditer s))).
  { destruct (scan_whole TOOL_OPEN TOOL_CLOSE TOOL_OPEN_marker TOOL_CLOSE_marker
                (length s) s) as [Hs _].
    unfold TOOL_CALL_PATTERN_finditer, TOOL_CALL_PATTERN_sub, finditer, sub_empty.
    destruct (scan TOOL_OPEN TOOL_CLOSE (fun x => x) (length s) s) as [ms rest].
    cbn [fst snd] in *. rewrite Hs at 1.
    rewrite (pieces_length TOOL_OPEN TOOL_CLOSE), length_map. reflexivity. }
  split; [|split; [|exact L]].
  - exact (finditer_nil_iff _ _ _ TOOL_OPEN_marker s).
  - split.
    + intro H. rewrite H in L.
      destruct (TOOL_CALL_PATTERN_finditer s); [reflexivity|].
      simpl in L. lia.
    + apply sub_empty_no_match; auto using TOOL_OPEN_marker.
Qed.

(* ------------------------------------------------------------------ *)
(** ** The dispatch of the tool calls of a reply *)
(* ------------------------------------------------------------------ *)

Section Dispatch.
Context {C : Collaborators}.
Variable cfg : config.

Lemma run_tool_dispatched (inner : str) (items : list (str * json))
    (c : str) (m m' : machine) :
  run_tool cfg inner (dict_get (lit "name") JNull items)
           (dict_get (lit "arguments") (JDict []) items) m = (inr c, m') ->
  trace m' = trace m ++ dispatched cfg (JDict items)
  /\ offence (JDict items) = None.
Proof.
  unfold run_tool, dispatched, offence. cbv zeta.
  destruct (dict_get (lit "name") JNull items) as [|b|n|f|s|xs|ys] eqn:En;
    cbn [truthy hashable negb andb format_value].
  - intros [= _ <-]. now rewrite app_nil_r.
  - destruct b; cbn [negb]; intros [= _ <-]; now rewrite app_nil_r.
  - destruct (negb (n =? 0)%Z); cbn [negb]; intros [= _ <-]; now rewrite app_nil_r.
  - destruct (negb (PrimFloat.eqb f 0)); cbn [negb]; intros [= _ <-];
      now rewrite app_nil_r.
  - destruct s as [|a s]; cbn [str_eqb negb is_empty].
    + intros [= _ <-]. now rewrite app_nil_r.
    + destruct (dict_lookup (a :: s) (tool_to_agent_map cfg)) as [agent|].
      * destruct (execute_tool agent (a :: s) _ (world m)) as [r w].
        now intros [= _ <-].
      * intros [= _ <-]. now rewrite app_nil_r.
  - destruct xs; cbn [negb]; [|discriminate].
    intros [= _ <-]. now rewrite app_nil_r.
  - destruct ys; cbn [negb]; [|discriminate].
    intros [= _ <-]. now rewrite app_nil_r.
Qed.


(** One match: what it adds when it returns. *)
Lemma handle_match_returns (raw : str) (found : list json)
    (results : list message) (m : machine)
    (found' : list json) (results' : list message) (m' : machine) :
  handle_match cfg raw found results m = (inr (found', results'), m') ->
  found' = found ++ decoded raw
  /\ length results' = S (length results)
  /\ Forall is_object (decoded raw)
  /\ trace m' = trace m ++ flat_map (dispatched cfg) (decoded raw)
  /\ offence_of raw = None.
Proof.
  unfold handle_match, decoded, offence_of. cbv zeta.
  destruct (json_loads (strip raw)) as [data| |e0]; [| |discriminate].
  - destruct data as [| | | | | |items]; try discriminate.
    destruct (run_tool cfg (strip raw) _ _ m) as [[e|c] m1] eqn:Er;
      [discriminate|].
    intros [= <- <- <-].
    destruct (run_tool_dispatched _ _ _ _ _ Er) as [Ht Ho].
    rewrite length_app. cbn [length flat_map]. rewrite app_nil_r.
    repeat split; try assumption; try lia.
    constructor; [now exists items | constructor].
  - intros [= <- <- <-]. rewrite length_app, !app_nil_r. cbn [length].
    repeat split; try lia. constructor.
Qed.


Lemma handle_matches_returns (matches : list str) :
  forall found results m found' results' m',
    handle_matches cfg matches found results m = (inr (found', results'), m') ->
    found' = found ++ flat_map decoded matches
    /\ length results' = length results + length matches
    /\ Forall is_object (flat_map decoded matches)
    /\ trace m' = trace m ++ flat_map (dispatched cfg) (flat_map decoded matches)
    /\ Forall (fun raw => offence_of raw = None) matches.
Proof.
  induction matches as [|raw matches IH]; intros found results m found' results' m'.
  - intros [= <- <- <-]. rewrite !app_nil_r. cbn [length].
    repeat split; try lia; constructor.
  - cbn [handle_matches].
    destruct (handle_match cfg raw found results m) as [[e|[f1 r1]] m1] eqn:E1;
      [discriminate|].
    intro E. apply handle_match_returns in E1 as [-> [Hl [Ho [Ht Hn]]]].
    apply IH in E as [-> [Hl' [Ho' [Ht' Hn']]]].
    cbn [flat_map length]. rewrite flat_map_app, Ht', Ht, <- !app_assoc.
    repeat split; try lia.
    + apply Forall_app; now split.
    + now constructor.
Qed.


(** X3.  When [_handle_tool_calls] returns, it has one result for each
    match of the pattern in the text; the requests it found are the bodies
    that are JSON, decoded, in the order of the matches, and each is an
    object; and what an observer has seen meanwhile is, for each request in
    that order, the execution of its tool when its name is a text that is
    registered, and nothing else. *)
Theorem handle_tool_calls_returns (text : str) (m : machine)
    (found : list json) (results : list message) (m' : machine) :
  _handle_tool_calls cfg (Some text) m = (inr (found, results), m') ->
  length results = length (TOOL_CALL_PATTERN_finditer text)
  /\ found = flat_map decoded (TOOL_CALL_PATTERN_finditer text)
  /\ length found <= length results
  /\ Forall is_object found
  /\ trace m' = trace m ++ flat_map (dispatched cfg) found
  /\ tool_executions (flat_map (dispatched cfg) found)
     = flat_map (dispatched cfg) found.
Proof.
  unfold _handle_tool_calls. cbv zeta.
  assert (Hd : forall l, length (flat_map decoded l) <= length l).
  { induction l as [|raw l IHl]; cbn [flat_map length]; [lia|].
    rewrite length_app. unfold decoded at 1.
    destruct (json_loads (strip raw)); cbn [length]; lia. }
  assert (He : forall l, tool_executions (flat_map (dispatched cfg) l)
                         = flat_map (dispatched cfg) l).
  { induction l as [|v l IHl]; [reflexivity|]. cbn [flat_map].
    unfold tool_executions in *. rewrite filter_app, IHl. f_equal.
    unfold dispatched. destruct v; try reflexivity.
    destruct (dict_get (lit "name") JNull items); try reflexivity.
    destruct (is_empty s); [reflexivity|].
    now destruct (dict_lookup s (tool_to_agent_map cfg)). }
  destruct (TOOL_CALL_PATTERN_finditer text) as [|raw matches] eqn:Em.
  - cbn [is_empty]. intros [= <- <- <-]. cbn [flat_map length].
    rewrite app_nil_r. repeat split; try lia. constructor.
  - cbn [is_empty]. intro E.
    apply handle_matches_returns in E as [-> [Hl [Ho [Ht _]]]].
    cbn [app length] in *. repeat split; try assumption.
    + rewrite Hl. apply (Hd (raw :: matches)).
    + apply He.
Qed.


End Dispatch.

(* ------------------------------------------------------------------ *)
(** ** The reasoning of a reply *)
(* ------------------------------------------------------------------ *)

(** A pattern that does not occur in a text occurs in no piece of it. *)
Lemma find_none_app (p a s c : str) :
  find p (a ++ s ++ c) = None -> find p s = None.
Proof.
  intro H. destruct (find p s) as [i|] eqn:E; [|reflexivity].
  apply find_split in E.
  destruct (find_complete p (a ++ firstn i s) (skipn (i + length p) s ++ c))
    as [k [Hk _]].
  rewrite E in H. rewrite <- !app_assoc in *. congruence.
Qed.

Lemma lstrip_suffix (s : str) : exists a, s = a ++ lstrip s.
Proof.
  induction s as [|c s [a IH]]; [now exists []|]. simpl.
  destruct (isspace c); [|now exists []].
  exists (c :: a). simpl. now rewrite <- IH.
Qed.

Lemma rstrip_prefix (s : str) : exists b, s = rstrip s ++ b.
Proof.
  induction s as [|c s [b IH]]; [now exists []|]. simpl.
  destruct (rstrip s) as [|x r].
  - destruct (isspace c); [now exists (c :: s) | now exists s].
  - exists b. simpl. now rewrite IH at 1.
Qed.

Lemma strip_piece (s : str) : exists a b, s = a ++ strip s ++ b.
Proof.
  destruct (lstrip_suffix s) as [a Ha].
  destruct (rstrip_prefix (lstrip s)) as [b Hb].
  exists a, b. unfold strip. now rewrite <- Hb.
Qed.

Lemma find_none_skipn (p s : str) (k : nat) :
  find p s = None -> find p (skipn k s) = None.
Proof.
  intro H. apply (find_none_app p (firstn k s) (skipn k s) []).
  now rewrite app_nil_r, firstn_skipn.
Qed.

Lemma find_none_lstrip (p s : str) : find p s = None -> find p (lstrip s) = None.
Proof.
  intro H. destruct (lstrip_suffix s) as [a Ha].
  apply (find_none_app p a (lstrip s) []). now rewrite app_nil_r, <- Ha.
Qed.

Lemma find_none_rstrip (p s : str) : find p s = None -> find p (rstrip s) = None.
Proof.
  intro H. destruct (rstrip_prefix s) as [b Hb].
  apply (find_none_app p [] (rstrip s) b). simpl. now rewrite <- Hb.
Qed.

(** [rfind] and [find] fail together. *)
Lemma rfind_none_iff (p s : str) : rfind p s = None <-> find p s = None.
Proof.
  induction s as [|c s IH].
  - simpl. now destruct (startswith p []).
  - cbn [rfind find].
    destruct (rfind p s) as [i|].
    + split; [discriminate|].
      destruct (startswith p (c :: s)); [discriminate|].
      destruct (find p s); [discriminate|]. intros _.
      now apply proj2 in IH; specialize (IH eq_refl).
    + destruct (startswith p (c :: s)); [split; discriminate|].
      apply proj1 in IH. now rewrite (IH eq_refl).
Qed.

(** After the last occurrence there is none. *)
Lemma rfind_last (p s : str) (i : nat) :
  p <> [] -> rfind p s = Some i -> find p (skipn (i + length p) s) = None.
Proof.
  intro Hp. revert i; induction s as [|c s IH]; intro i; cbn [rfind].
  - destruct p; [contradiction | discriminate].
  - destruct (rfind p s) as [k|] eqn:R.
    + intros [= <-]. simpl. now apply IH.
    + destruct (startswith p (c :: s)); [|discriminate].
      intros [= <-]. destruct p as [|a p]; [contradiction|]. simpl.
      apply find_none_skipn. now apply rfind_none_iff.
Qed.

Lemma rfind_app_right (p a s : str) (i : nat) :
  rfind p s = Some i -> rfind p (a ++ s) = Some (length a + i).
Proof.
  intro H. induction a as [|c a IH]; [exact H|]. simpl. now rewrite IH.
Qed.

Lemma find_marker_tail (a : char) (p q c : str) :
  ~ In a q -> find (a :: p) c = None -> find (a :: p) (q ++ c) = None.
Proof.
  intros Hq Hc. induction q as [|x q IH]; [exact Hc|].
  cbn [app find startswith].
  destruct (char_eqb a x) eqn:E.
  - apply char_eqb_eq in E. subst. exfalso. apply Hq. now left.
  - cbn [andb]. rewrite IH; [reflexivity|]. intro H. apply Hq. now right.
Qed.

(** The last occurrence of a marker that is followed by none. *)
Lemma rfind_block (p a c : str) :
  marker p -> find p c = None -> rfind p (a ++ p ++ c) = Some (length a).
Proof.
  intros Hp Hc.
  rewrite (rfind_app_right p a (p ++ c) 0); [f_equal; lia|].
  destruct p as [|x p]; [contradiction|]. cbn [app rfind].
  assert (R : rfind (x :: p) (p ++ c) = None)
    by (apply rfind_none_iff; now apply find_marker_tail).
  rewrite R. change (x :: p ++ c) with ((x :: p) ++ c).
  now rewrite startswith_app.
Qed.

Lemma find_none_nil (p : str) : p <> [] -> find p [] = None.
Proof. destruct p; [contradiction | reflexivity]. Qed.

(** X5.  What is left of a text once its reasoning is cut holds no closing
    marker, and is a piece of the text; when the text holds no closing
    marker, what is left holds no opening marker either, and a text with
    neither marker is left as it is. *)
Theorem strip_reasoning_markers (s : str) :
  find THINK_CLOSE (strip_reasoning s) = None
  /\ (exists a b, s = a ++ strip_reasoning s ++ b)
  /\ (find THINK_CLOSE s = None -> find THINK_OPEN (strip_reasoning s) = None)
  /\ (find THINK_CLOSE s = None -> find THINK_OPEN s = None ->
      strip_reasoning s = s).
Proof.
  assert (Hc : THINK_CLOSE <> []) by discriminate.
  unfold strip_reasoning.
  destruct (rfind THINK_CLOSE s) as [i|] eqn:R.
  - assert (N : find THINK_CLOSE s <> None).
    { intro H. apply rfind_none_iff in H. congruence. }
    split; [|split; [|split]].
    + apply find_none_lstrip. unfold slice_from. now apply rfind_last.
    + unfold slice_from.
      destruct (lstrip_suffix (skipn (i + length THINK_CLOSE) s)) as [a Ha].
      exists (firstn (i + length THINK_CLOSE) s ++ a), [].
      rewrite app_nil_r, <- app_assoc, <- Ha. now rewrite firstn_skipn.
    + intro H. contradiction.
    + intro H. contradiction.
  - apply rfind_none_iff in R.
    destruct (find THINK_OPEN s) as [j|] eqn:F.
    + destruct (startswith THINK_OPEN (strip s)).
      * split; [|split; [|split]].
        -- reflexivity.
        -- exists s, []. now rewrite app_nil_r.
        -- reflexivity.
        -- discriminate.
      * unfold slice_to.
        destruct (rstrip_prefix (firstn j s)) as [b Hb].
        split; [|split; [|split]].
        -- apply find_none_rstrip.
           apply (find_none_app _ [] (firstn j s) (skipn j s)).
           simpl. now rewrite firstn_skipn.
        -- exists [], (b ++ skipn j s). simpl.
           now rewrite app_assoc, <- Hb, firstn_skipn.
        -- intros _. apply find_none_rstrip.
           apply find_firstn_none; [discriminate | exact F].
        -- discriminate.
    + split; [|split; [|split]].
      * exact R.
      * exists [], []. now rewrite app_nil_r.
      * intros _. exact F.
      * reflexivity.
Qed.

(** X6.  When the provider sends its reasoning in a field of its own (a
    text that is not blank), none of it is left once the reasoning is cut:
    what is left is the content after its last closing marker, or the whole
    content when it has none, without the white space at its start. *)
Theorem provider_reasoning_is_cut (c r : str) :
  strip r <> [] ->
  strip_reasoning (llm_generated_text (Some c) (Some r))
  = match rfind THINK_CLOSE c with
    | Some i => lstrip (slice_from (i + length THINK_CLOSE) c)
    | None => lstrip c
    end.
Proof.
  intro Hr. unfold llm_generated_text. cbv zeta.
  assert (Er : negb (is_empty r) && negb (is_empty (strip r)) = true).
  { destruct r as [|x r]; [now elim Hr|]. destruct (strip (x :: r)); [now elim Hr|].
    reflexivity. }
  rewrite Er.
  set (head := lit "<think>" ++ newline ++ strip r ++ newline).
  change (lit "<think>" ++ newline ++ strip r ++ newline ++ lit "</think>")
    with (lit "<think>" ++ newline ++ strip r ++ newline ++ THINK_CLOSE).
  assert (Eh : lit "<think>" ++ newline ++ strip r ++ newline ++ THINK_CLOSE
               = head ++ THINK_CLOSE)
    by (unfold head; now rewrite <- !app_assoc).
  rewrite Eh.
  destruct (startswith (head ++ THINK_CLOSE) (strip c)) eqn:Es.
  - (* the content starts with the block already *)
    unfold strip_reasoning.
    destruct (rfind THINK_CLOSE c) as [i|] eqn:R; [reflexivity|].
    exfalso. apply rfind_none_iff in R.
    apply startswith_split in Es.
    destruct (strip_piece c) as [a [b Hab]].
    destruct (find_complete THINK_CLOSE (a ++ head)
                (skipn (length (head ++ THINK_CLOSE)) (strip c) ++ b))
      as [k [Hk _]].
    rewrite Hab, Es in R. rewrite <- !app_assoc in *. congruence.
  - unfold strip_reasoning.
    destruct (rfind THINK_CLOSE c) as [i|] eqn:R.
    + rewrite (app_assoc _ _ c).
      rewrite (rfind_app_right _ _ _ _ R).
      unfold slice_from. rewrite <- Nat.add_assoc, skipn_app.
      rewrite skipn_all2 by lia.
      replace (length _ + (i + length THINK_CLOSE) - length _)
        with (i + length THINK_CLOSE) by lia.
      reflexivity.
    + apply rfind_none_iff in R.
      assert (Rs : find THINK_CLOSE ((if is_empty c then [] else newline) ++ c) = None).
      { destruct c as [|x c]; [reflexivity|]. cbn [is_empty].
        change (newline ++ x :: c) with (10%N :: x :: c).
        change (find THINK_CLOSE (10%N :: x :: c))
          with (option_map S (find THINK_CLOSE (x :: c))).
        now rewrite R. }
      rewrite <- app_assoc.
      rewrite (rfind_block _ head _ THINK_CLOSE_marker Rs).
      unfold slice_from. rewrite skipn_gap.
      destruct c as [|x c]; reflexivity.
Qed.

(* ------------------------------------------------------------------ *)
(** ** What a turn lets an observer see *)
(* ------------------------------------------------------------------ *)

Lemma interactions_logged_app (t u : list event) :
  interactions_logged (t ++ u) = interactions_logged t ++ interactions_logged u.
Proof.
  induction t as [|e t IH]; [reflexivity|].
  destruct e; simpl; now rewrite IH.
Qed.

Lemma memory_events_quiet (new : list event) :
  Forall (fun e => memory_event e = true) new ->
  generated_payloads new = [] /\ warned new = false
  /\ interactions_logged new = [] /\ tool_executions new = [].
Proof.
  induction 1 as [|e new He _ [IH1 [IH2 [IH3 IH4]]]]; [now repeat split|].
  destruct e; try discriminate; simpl; now repeat split.
Qed.

Lemma loop_events_quiet (new : list event) :
  Forall (fun e => loop_event e = true) new ->
  interactions_logged new = [] /\ reasoner_requests new = [].
Proof.
  induction 1 as [|e new He _ [IH1 IH2]]; [now split|].
  destruct e; try discriminate; simpl; now split.
Qed.

Lemma tool_executions_are_loop_events (new : list event) :
  only_tool_executions new -> Forall (fun e => loop_event e = true) new.
Proof. apply Forall_impl. now intros [ | | | | | ]. Qed.

Lemma reasoner_requests_all (new : list event) :
  Forall (fun e => is_Reasoner_generated e = true) new ->
  reasoner_requests new = new /\ Forall (fun e => memory_event e = true) new.
Proof.
  induction 1 as [|e new He _ [IH1 IH2]]; [now split|].
  unfold reasoner_requests in *. simpl. rewrite He, IH1.
  split; [reflexivity|]. constructor; [|assumption]. now destruct e.
Qed.

Section Turn.
Context {C : Collaborators}.
Variable cfg : config.

Lemma memory_search_quiet
    (search : json -> json -> World -> option (list json) * World)
    (nothing_found q : str) (tool_args : json) (m : machine) :
  messages (snd (memory_search search nothing_found q tool_args m)) = messages m
  /\ trace (snd (memory_search search nothing_found q tool_args m)) = trace m.
Proof.
  unfold memory_search. destruct tool_args; try now split.
  cbv zeta. destruct (search _ _ (world m)) as [[snippets|] w]; now split.
Qed.

Lemma reasoner_tool_call_quiet (q raw : str) (msgs : list message) (m : machine) :
  messages (snd (reasoner_tool_call q raw msgs m)) = messages m
  /\ trace (snd (reasoner_tool_call q raw msgs m)) = trace m.
Proof.
  unfold reasoner_tool_call. cbv zeta.
  destruct (json_loads (strip raw)) as [[| | | | | |items]| |e]; try now split.
  destruct (json_is_str _ (lit "search_past_conversations")).
  - pose proof (memory_search_quiet recall_relevant_interactions
                  (lit "[No relevant conversation snippets found.]") q
                  (dict_get (lit "arguments") (JDict []) items) m) as H.
    destruct (memory_search _ _ _ _ m) as [[r|] m']; exact H.
  - destruct (json_is_str _ (lit "search_documents")); [|now split].
    pose proof (memory_search_quiet query_knowledge_base
                  (lit "[No relevant document snippets found.]") q
                  (dict_get (lit "arguments") (JDict []) items) m) as H.
    destruct (memory_search _ _ _ _ m) as [[r|] m']; exact H.
Qed.

Lemma reasoner_tool_calls_quiet (q : str) (calls : list str) :
  forall msgs m,
    messages (snd (reasoner_tool_calls q calls msgs m)) = messages m
    /\ trace (snd (reasoner_tool_calls q calls msgs m)) = trace m.
Proof.
  induction calls as [|raw calls IH]; intros msgs m; [now split|].
  cbn [reasoner_tool_calls].
  pose proof (reasoner_tool_call_quiet q raw msgs m) as H.
  destruct (reasoner_tool_call q raw msgs m) as [[[|] msgs1] m1]; [|exact H].
  cbn [snd] in H. destruct H as [Hm Ht].
  destruct (IH msgs1 m1) as [Hm' Ht']. split; congruence.
Qed.

(** The reasoner loop is seen as its requests, at most one for each
    round. *)
Lemma reasoner_loop_run (q : str) (n : nat) :
  forall final_synthesis msgs m,
  exists new,
    trace (snd (reasoner_loop q n final_synthesis msgs m)) = trace m ++ new
    /\ Forall (fun e => is_Reasoner_generated e = true) new
    /\ length new <= n
    /\ messages (snd (reasoner_loop q n final_synthesis msgs m)) = messages m.
Proof.
  induction n as [|n IH]; intros final_synthesis msgs m.
  - exists []. cbn [reasoner_loop snd length]. rewrite app_nil_r.
    repeat split; [constructor | lia].
  - cbn [reasoner_loop].
    destruct (post_reasoner msgs (world m)) as [[c| |] w].
    + cbv zeta.
      set (m1 := observe m w (Reasoner_generated msgs)).
      destruct (is_empty (TOOL_CALL_PATTERN_finditer (strip c))).
      * exists [Reasoner_generated msgs]. cbn [snd length].
        repeat split; [now repeat constructor | lia].
      * pose proof (reasoner_tool_calls_quiet q
                      (TOOL_CALL_PATTERN_finditer (strip c))
                      (msgs ++ [plain_message assistant (strip c)]) m1) as H.
        destruct (reasoner_tool_calls q _ _ m1) as [[[|] msgs2] m2];
          cbn [snd] in H; destruct H as [Hm Ht].
        -- destruct (IH final_synthesis msgs2 m2) as [new [Hn [Hf [Hl Hm']]]].
           exists (Reasoner_generated msgs :: new).
           rewrite Hn, Ht, Hm', Hm. subst m1. cbn [trace observe messages length].
           rewrite <- app_assoc.
           repeat split; [now constructor | lia].
        -- exists [Reasoner_generated msgs]. cbn [snd length]. rewrite Ht, Hm.
           repeat split; [now repeat constructor | lia].
    + exists [Reasoner_generated msgs]. cbn [snd length].
      repeat split; [now repeat constructor | lia].
    + exists [Reasoner_generated msgs]. cbn [snd length].
      repeat split; [now repeat constructor | lia].
Qed.

Lemma contains_false_strip (p s : str) :
  contains p s = false -> contains p (strip s) = false.
Proof.
  unfold contains. destruct (find p s) eqn:E; [discriminate|]. intros _.
  unfold strip. now rewrite (find_none_rstrip _ _ (find_none_lstrip _ _ E)).
Qed.

Lemma invoke_memory_reasoning_run (q : str) (n : nat) (m : machine) :
  exists requests msgs,
    trace (snd (_invoke_memory_reasoning_llm cfg q n m))
    = trace m ++ requests
      ++ (if is_empty (fst (_invoke_memory_reasoning_llm cfg q n m)) then []
          else [Reasoning_trace_logged msgs])
    /\ Forall (fun e => is_Reasoner_generated e = true) requests
    /\ length requests <= n
    /\ messages (snd (_invoke_memory_reasoning_llm cfg q n m)) = messages m
    /\ strip (fst (_invoke_memory_reasoning_llm cfg q n m))
       = fst (_invoke_memory_reasoning_llm cfg q n m)
    /\ contains SENTINEL (fst (_invoke_memory_reasoning_llm cfg q n m)) = false.
Proof.
  unfold _invoke_memory_reasoning_llm.
  destruct (reasoner_loop_run q n [] (reasoner_start cfg q) m)
    as [new [Ht [Hf [Hl Hm]]]].
  destruct (reasoner_loop q n [] (reasoner_start cfg q) m) as [[f msgs] m1].
  cbn [snd] in Ht, Hm. cbv zeta.
  exists new, msgs.
  destruct (contains SENTINEL (unprocessed_tool_call_check cfg f)) eqn:Es.
  - cbn [fst snd is_empty]. rewrite app_nil_r. now repeat split.
  - destruct (is_empty (strip (unprocessed_tool_call_check cfg f))) eqn:Ee.
    + cbn [fst snd is_empty]. rewrite app_nil_r. now repeat split.
    + cbn [fst snd observe trace messages]. rewrite Ee, Ht, <- app_assoc.
      repeat split; try assumption.
      * apply strip_idem.
      * now apply contains_false_strip.
Qed.

Lemma synthesize_memory_context_run (user_input : str) (m : machine) :
  let context := fst (synthesize_memory_context cfg user_input m) in
  let m' := snd (synthesize_memory_context cfg user_input m) in
  strip context = context
  /\ contains SENTINEL context = false
  /\ messages m' = messages m
  /\ exists requests msgs,
       trace m'
       = trace m ++ requests
         ++ (if is_empty context then [] else [Reasoning_trace_logged msgs])
       /\ reasoner_requests requests = requests
       /\ length requests <= 15.
Proof.
  cbv zeta. unfold synthesize_memory_context.
  destruct (query_knowledge_base (JStr user_input) (JInt 3) (world m))
    as [[doc|] w1].
  2: { cbn [fst snd is_empty messages trace]. repeat split.
       exists [], []. rewrite !app_nil_r. repeat split. simpl. lia. }
  destruct (recall_relevant_interactions (JStr user_input) (JInt 3) w1)
    as [[convo|] w2].
  2: { cbn [fst snd is_empty messages trace]. repeat split.
       exists [], []. rewrite !app_nil_r. repeat split. simpl. lia. }
  cbv zeta.
  destruct (negb (is_empty doc) || negb (is_empty convo)).
  - destruct (invoke_memory_reasoning_run user_input 15
                (mkMachine (messages m) w2 (trace m)))
      as [requests [msgs [Ht [Hf [Hl [Hm [Hs Hc]]]]]]].
    repeat split; try assumption.
    exists requests, msgs. repeat split; try assumption.
    now apply reasoner_requests_all.
  - cbn [fst snd is_empty messages trace]. repeat split.
    exists [], []. rewrite !app_nil_r. repeat split. simpl. lia.
Qed.

(** X7.  The memory context of a turn is a trimmed text that does not hold
    the sentinel phrase.  Obtaining it leaves the history as it is; an
    observer sees at most 15 requests to the memory-reasoning model, and
    then the logging of the reasoning trace exactly when the context is not
    empty. *)
Theorem memory_context_result (user_input : str) (m : machine) :
  let context := fst (synthesize_memory_context cfg user_input m) in
  let m' := snd (synthesize_memory_context cfg user_input m) in
  strip context = context
  /\ contains SENTINEL context = false
  /\ messages m' = messages m
  /\ exists requests msgs,
       trace m'
       = trace m ++ requests
         ++ (if is_empty context then [] else [Reasoning_trace_logged msgs])
       /\ reasoner_requests requests = requests
       /\ length requests <= 15.
Proof. exact (synthesize_memory_context_run user_input m). Qed.

(** The loop of [chat] is seen as tool executions and requests to the
    primary model, at most one request for each round, and the warning when
    the rounds are used up.  Then, and only then, the result is the
    variable as it was on entry, after exactly one request for each round;
    otherwise the result is the content of the assistant message stored
    last. *)
Lemma tool_loop_run (ctx : str) (n : nat) :
  forall final text parse m,
  exists new,
    trace (snd (tool_loop cfg ctx n final text parse m)) = trace m ++ new
    /\ Forall (fun e => loop_event e = true) new
    /\ length (generated_payloads new) <= n
    /\ match fst (tool_loop cfg ctx n final text parse m) with
       | inr r =>
           if warned new
           then r = final /\ length (generated_payloads new) = n
           else length (generated_payloads new) < n
                /\ exists calls,
                     last (messages (snd (tool_loop cfg ctx n final text parse m)))
                          no_message
                     = mkMessage assistant r calls None None
       | inl _ => warned new = false /\ length (generated_payloads new) < n
       end.
Proof.
  induction n as [|n IH]; intros final text parse m.
  - exists [Warned_max_iterations]. cbn. repeat split; [now repeat constructor | lia].
  - cbn [tool_loop].
    destruct (handle_tool_calls_trace cfg parse m) as [new1 [Ht1 Ho1]].
    pose proof (tools_no_payload new1 Ho1) as Hp1.
    pose proof (tools_no_warning new1 Ho1) as Hw1.
    destruct (_handle_tool_calls cfg parse m) as [[e | [requested results]] m1].
    + exists new1. cbn [fst snd] in *. rewrite Hp1, Hw1. cbn [length].
      repeat split; try lia; try assumption.
      now apply tool_executions_are_loop_events.
    + cbn [snd] in Ht1. cbv zeta.
      destruct (is_empty results).
      * exists new1. cbn [fst snd append_message set_messages trace messages].
        rewrite Hp1, Hw1. cbn [length].
        repeat split; try lia; try assumption.
        -- now apply tool_executions_are_loop_events.
        -- eexists. apply last_snoc.
      * set (m3 := set_messages _ _).
        pose proof (get_llm_response_trace cfg m3 ctx) as Ht.
        destruct (_get_llm_response cfg m3 ctx) as [[t p] m4]. cbn [snd] in Ht.
        destruct (IH final t p m4) as [new2 [Ht2 [Hf2 [Hl2 Hr2]]]].
        set (ev := Generated (api_payload_messages cfg (messages m3) ctx)) in *.
        exists (new1 ++ ev :: new2).
        assert (Hlen : length (generated_payloads (new1 ++ ev :: new2))
                       = S (length (generated_payloads new2))).
        { rewrite generated_payloads_app, Hp1. reflexivity. }
        assert (Hwarn : warned (new1 ++ ev :: new2) = warned new2).
        { rewrite warned_app, Hw1. reflexivity. }
        rewrite Hlen, Hwarn. cbv beta iota.
        split.
        { rewrite Ht2, Ht. subst m3.
          cbn [set_messages append_message trace]. rewrite Ht1.
          now rewrite <- !app_assoc. }
        split.
        { apply Forall_app. split; [now apply tool_executions_are_loop_events|].
          now constructor. }
        split; [lia|].
        destruct (fst (tool_loop cfg ctx n final t p m4)) as [e|r].
        -- destruct Hr2 as [Hw Hl]. split; [assumption | lia].
        -- destruct (warned new2).
           ++ destruct Hr2 as [-> Hl]. split; [reflexivity | lia].
           ++ destruct Hr2 as [Hl Hm]. split; [lia | assumption].
Qed.

Lemma chat_with_context_run (user_input ctx : str) (m : machine) :
  exists loop,
    Forall (fun e => loop_event e = true) loop
    /\ 1 <= length (generated_payloads loop)
    /\ length (generated_payloads loop) <= 1 + MAX_TOOL_ITERATIONS cfg
    /\ match chat_with_context cfg user_input ctx m with
       | Returned reply m' =>
           exists final,
             trace m'
             = trace m ++ loop
               ++ [Interaction_logged user_input (final_user_visible_response final)]
             /\ reply = html_unescape (final_user_visible_response final)
             /\ if warned loop
                then final = []
                     /\ length (generated_payloads loop)
                        = 1 + MAX_TOOL_ITERATIONS cfg
                else length (generated_payloads loop) <= MAX_TOOL_ITERATIONS cfg
                     /\ exists calls,
                          last (messages m') no_message
                          = mkMessage assistant final calls None None
       | Raised e m' =>
           trace m' = trace m ++ loop
           /\ warned loop = false
           /\ length (generated_payloads loop) <= MAX_TOOL_ITERATIONS cfg
       end.
Proof.
  unfold chat_with_context. cbv zeta.
  set (m1 := set_messages m (prune_between_turns cfg (messages m))).
  pose proof (get_llm_response_trace cfg m1 ctx) as Ht.
  destruct (_get_llm_response cfg m1 ctx) as [[t p] m2]. cbn [snd] in Ht.
  destruct (tool_loop_run ctx (MAX_TOOL_ITERATIONS cfg) [] t p m2)
    as [new [Hn [Hf [Hl Hr]]]].
  set (ev := Generated (api_payload_messages cfg (messages m1) ctx)) in *.
  exists (ev :: new).
  assert (Hlen : length (generated_payloads (ev :: new))
                 = S (length (generated_payloads new))) by reflexivity.
  assert (Hwarn : warned (ev :: new) = warned new) by reflexivity.
  rewrite Hlen, Hwarn.
  split; [now constructor|]. split; [lia|]. split; [lia|].
  destruct (tool_loop cfg ctx (MAX_TOOL_ITERATIONS cfg) [] t p m2)
    as [[e|r] m3]; cbn [fst snd] in *.
  - destruct Hr as [Hw Hlt]. rewrite Hn, Ht. subst m1.
    cbn [set_messages trace]. rewrite <- app_assoc.
    repeat split; [assumption | lia].
  - exists r. cbn [observe trace messages]. rewrite Hn, Ht. subst m1.
    cbn [set_messages trace]. rewrite <- !app_assoc.
    split; [reflexivity|]. split; [reflexivity|].
    destruct (warned new).
    + destruct Hr as [-> Hl']. split; [reflexivity | lia].
    + destruct Hr as [Hl' Hm]. split; [lia | assumption].
Qed.

(** A turn is seen as the memory synthesis, then the loop, then the
    logging of the interaction when it returns. *)
Lemma chat_run (user_input : str) (m : machine) :
  exists memory loop,
    Forall (fun e => memory_event e = true) memory
    /\ length (reasoner_requests memory) <= 15
    /\ Forall (fun e => loop_event e = true) loop
    /\ 1 <= length (generated_payloads loop)
    /\ length (generated_payloads loop) <= 1 + MAX_TOOL_ITERATIONS cfg
    /\ match chat cfg user_input m with
       | Returned reply m' =>
           exists final,
             trace m'
             = trace m ++ memory ++ loop
               ++ [Interaction_logged user_input (final_user_visible_response final)]
             /\ reply = html_unescape (final_user_visible_response final)
             /\ if warned loop
                then final = []
                     /\ length (generated_payloads loop)
                        = 1 + MAX_TOOL_ITERATIONS cfg
                else length (generated_payloads loop) <= MAX_TOOL_ITERATIONS cfg
                     /\ exists calls,
                          last (messages m') no_message
                          = mkMessage assistant final calls None None
       | Raised e m' =>
           trace m' = trace m ++ memory ++ loop
           /\ warned loop = false
           /\ length (generated_payloads loop) <= MAX_TOOL_ITERATIONS cfg
       end.
Proof.
  unfold chat. cbv zeta.
  set (m0 := append_message m (plain_message user user_input)).
  destruct (synthesize_memory_context_run user_input m0)
    as [_ [_ [_ [requests [msgs [Ht [Hq Hl]]]]]]].
  destruct (synthesize_memory_context cfg user_input m0) as [ctx m1].
  cbn [fst snd] in Ht.
  set (memory := requests ++ (if is_empty ctx then []
                              else [Reasoning_trace_logged msgs])) in *.
  destruct (chat_with_context_run user_input ctx m1)
    as [loop [Hf [H1 [H2 Hr]]]].
  exists memory, loop.
  assert (Hmem : Forall (fun e => memory_event e = true) memory).
  { apply Forall_app. split.
    - rewrite <- Hq. unfold reasoner_requests.
      apply Forall_forall. intros e He. apply filter_In in He as [_ He].
      now destruct e.
    - destruct (is_empty ctx); now repeat constructor. }
  assert (Hreq : length (reasoner_requests memory) <= 15).
  { subst memory. unfold reasoner_requests in *. rewrite filter_app, Hq.
    rewrite length_app. destruct (is_empty ctx); simpl; lia. }
  repeat (split; [assumption|]).
  destruct (chat_with_context cfg user_input ctx m1) as [reply m'|e m'].
  - destruct Hr as [final [Htr Hrest]]. exists final.
    split; [|exact Hrest]. rewrite Htr, Ht. subst m0.
    cbn [append_message set_messages trace]. now rewrite <- !app_assoc.
  - destruct Hr as [Htr Hrest]. split; [|exact Hrest].
    rewrite Htr, Ht. subst m0.
    cbn [append_message set_messages trace]. now rewrite <- !app_assoc.
Qed.

Lemma final_user_visible_response_nil : final_user_visible_response [] = [].
Proof. reflexivity. Qed.

Lemma final_user_visible_response_trimmed (text : str) :
  strip (final_user_visible_response text) = final_user_visible_response text.
Proof. apply strip_idem. Qed.

(** X8.  When the warning of the used-up rounds is printed during a turn
    that returns, the reply is the empty text (what [html.unescape] makes of
    it), whatever the model answered; the model has been asked once before
    the loop and once in each of the [MAX_TOOL_ITERATIONS] rounds; and the
    interaction is logged with an empty response. *)
Theorem chat_cap_exhausted (user_input : str) (m : machine)
    (reply : str) (m' : machine) :
  chat cfg user_input m = Returned reply m' ->
  warned (trace m) = false ->
  warned (trace m') = true ->
  reply = html_unescape []
  /\ length (generated_payloads (trace m'))
     = length (generated_payloads (trace m)) + 1 + MAX_TOOL_ITERATIONS cfg
  /\ interactions_logged (trace m')
     = interactions_logged (trace m) ++ [(user_input, [])].
Proof.
  intros E H0 H1.
  destruct (chat_run user_input m)
    as [memory [loop [Hm [_ [Hl [_ [_ Hr]]]]]]].
  rewrite E in Hr. destruct Hr as [final [Ht [Hreply Hw]]].
  destruct (memory_events_quiet memory Hm) as [Hmp [Hmw [Hmi _]]].
  destruct (loop_events_quiet loop Hl) as [Hli _].
  assert (W : warned loop = true).
  { rewrite Ht in H1. rewrite !warned_app, H0, Hmw in H1.
    cbn in H1. now rewrite orb_false_r in H1. }
  rewrite W in Hw. destruct Hw as [-> Hn].
  rewrite final_user_visible_response_nil in *.
  rewrite Ht, !generated_payloads_app, !interactions_logged_app, Hmp, Hmi, Hli.
  cbn [generated_payloads interactions_logged app].
  rewrite app_nil_r, !length_app, Hn. cbn [length].
  repeat split; [assumption | lia].
Qed.

(** X9.  When a turn returns and no such warning has been printed, the
    message stored last is the assistant message of the final answer, and
    the reply is what the cleaning and [html.unescape] make of its content;
    the model has been asked at most [MAX_TOOL_ITERATIONS] times during the
    turn. *)
Theorem chat_reply_is_last_message (user_input : str) (m : machine)
    (reply : str) (m' : machine) :
  chat cfg user_input m = Returned reply m' ->
  warned (trace m') = false ->
  exists final calls,
    last (messages m') no_message = mkMessage assistant final calls None None
    /\ reply = html_unescape (final_user_visible_response final)
    /\ length (generated_payloads (trace m'))
       <= length (generated_payloads (trace m)) + MAX_TOOL_ITERATIONS cfg.
Proof.
  intros E H1.
  destruct (chat_run user_input m)
    as [memory [loop [Hm [_ [Hl [_ [_ Hr]]]]]]].
  rewrite E in Hr. destruct Hr as [final [Ht [Hreply Hw]]].
  destruct (memory_events_quiet memory Hm) as [Hmp _].
  assert (W : warned loop = false).
  { rewrite Ht in H1. rewrite !warned_app in H1.
    destruct (warned loop); [|reflexivity].
    now rewrite !orb_true_r in H1. }
  rewrite W in Hw. destruct Hw as [Hn [calls Hlast]].
  exists final, calls. repeat split; try assumption.
  rewrite Ht, !generated_payloads_app, Hmp. cbn [generated_payloads app].
  rewrite app_nil_r, length_app. lia.
Qed.

(** X10.  Whatever the model and the tools answer, a turn asks the primary
    model at least once and at most [1 + MAX_TOOL_ITERATIONS] times, and the
    memory-reasoning model at most 15 times. *)
Theorem chat_requests_bounded (user_input : str) (m : machine) :
  let m' := machine_of (chat cfg user_input m) in
  length (generated_payloads (trace m)) + 1
  <= length (generated_payloads (trace m'))
  /\ length (generated_payloads (trace m'))
     <= length (generated_payloads (trace m)) + 1 + MAX_TOOL_ITERATIONS cfg
  /\ length (reasoner_requests (trace m'))
     <= length (reasoner_requests (trace m)) + 15.
Proof.
  cbv zeta.
  destruct (chat_run user_input m)
    as [memory [loop [Hm [Hq [Hl [H1 [H2 Hr]]]]]]].
  destruct (memory_events_quiet memory Hm) as [Hmp _].
  destruct (loop_events_quiet loop Hl) as [_ Hlq].
  assert (T : exists tail,
             trace (machine_of (chat cfg user_input m))
             = trace m ++ memory ++ loop ++ tail
             /\ generated_payloads tail = [] /\ reasoner_requests tail = []).
  { destruct (chat cfg user_input m) as [reply m'|e m']; cbn [machine_of].
    - destruct Hr as [final [Ht _]]. eexists. split; [exact Ht | now split].
    - destruct Hr as [Ht _]. exists []. rewrite !app_nil_r. now repeat split. }
  destruct T as [tail [Ht [Htp Htq]]]. rewrite Ht.
  unfold reasoner_requests in *.
  rewrite !generated_payloads_app, !filter_app, Hmp, Htp, Hlq, Htq.
  cbn [app]. rewrite ?app_nil_r, !length_app. lia.
Qed.

Lemma chat_interactions (user_input : str) (m : machine) :
  match chat cfg user_input m with
  | Returned reply m' =>
      exists response,
        interactions_logged (trace m')
        = interactions_logged (trace m) ++ [(user_input, response)]
        /\ reply = html_unescape response
        /\ strip response = response
  | Raised _ m' =>
      interactions_logged (trace m') = interactions_logged (trace m)
  end.
Proof.
  destruct (chat_run user_input m)
    as [memory [loop [Hm [_ [Hl [_ [_ Hr]]]]]]].
  destruct (memory_events_quiet memory Hm) as [_ [_ [Hmi _]]].
  destruct (loop_events_quiet loop Hl) as [Hli _].
  destruct (chat cfg user_input m) as [reply m'|e m'].
  - destruct Hr as [final [Ht [Hreply _]]].
    exists (final_user_visible_response final).
    rewrite Ht, !interactions_logged_app, Hmi, Hli.
    repeat split; [assumption | apply final_user_visible_response_trimmed].
  - destruct Hr as [Ht _].
    rewrite Ht, !interactions_logged_app, Hmi, Hli. now rewrite !app_nil_r.
Qed.

(** X11.  A turn that returns logs one interaction: the input of the user
    with the cleaned response, which is a trimmed text, and of which the
    reply is what [html.unescape] makes.  A turn that raises logs none. *)
Theorem chat_logs_one_interaction (user_input : str) (m : machine) :
  match chat cfg user_input m with
  | Returned reply m' =>
      exists response,
        interactions_logged (trace m')
        = interactions_logged (trace m) ++ [(user_input, response)]
        /\ reply = html_unescape response
        /\ strip response = response
  | Raised _ m' =>
      interactions_logged (trace m') = interactions_logged (trace m)
  end.
Proof. exact (chat_interactions user_input m). Qed.

Lemma chat_first_message (user_input : str) (m : machine) (s : message) :
  nth_error (messages m) 0 = Some s ->
  nth_error (messages (machine_of (chat cfg user_input m))) 0 = Some s.
Proof.
  intro H. unfold chat. cbv zeta.
  set (m0 := append_message m (plain_message user user_input)).
  destruct (synthesize_memory_context_run user_input m0) as [_ [_ [Hm _]]].
  destruct (synthesize_memory_context cfg user_input m0) as [ctx m1].
  cbn [snd] in Hm.
  apply chat_with_context_first_message. rewrite Hm. subst m0.
  cbn [append_message set_messages messages]. now apply first_message_app.
Qed.

(** X12.  The message at the head of the history, the system message of a
    new orchestrator, is at the head of the history after a turn, however
    the turn ends and whatever has been pruned. *)
Theorem chat_keeps_first_message (user_input : str) (m : machine) (s : message) :
  nth_error (messages m) 0 = Some s ->
  nth_error (messages (machine_of (chat cfg user_input m))) 0 = Some s.
Proof. exact (chat_first_message user_input m s). Qed.

Lemma chat_with_context_first_payload (user_input ctx : str) (m : machine) :
  exists more,
    generated_payloads (trace (machine_of (chat_with_context cfg user_input ctx m)))
    = generated_payloads (trace m)
      ++ api_payload_messages cfg (prune_between_turns cfg (messages m)) ctx
      :: more
    /\ length more <= MAX_TOOL_ITERATIONS cfg.
Proof.
  unfold chat_with_context. cbv zeta.
  set (m1 := set_messages m (prune_between_turns cfg (messages m))).
  pose proof (get_llm_response_trace cfg m1 ctx) as Ht.
  destruct (_get_llm_response cfg m1 ctx) as [[t p] m2]. cbn [snd] in Ht.
  destruct (tool_loop_run ctx (MAX_TOOL_ITERATIONS cfg) [] t p m2)
    as [new [Hn [_ [Hl _]]]].
  exists (generated_payloads new). split; [|exact Hl].
  assert (E : generated_payloads (trace m2 ++ new)
              = generated_payloads (trace m)
                ++ api_payload_messages cfg (prune_between_turns cfg (messages m)) ctx
                :: generated_payloads new).
  { rewrite Ht. subst m1. cbn [set_messages trace messages].
    rewrite !generated_payloads_app, <- app_assoc. reflexivity. }
  destruct (tool_loop cfg ctx (MAX_TOOL_ITERATIONS cfg) [] t p m2)
    as [[e|r] m3]; cbn [fst snd machine_of observe trace] in *.
  - now rewrite Hn.
  - rewrite generated_payloads_app, Hn, E.
    cbn [generated_payloads]. now rewrite app_nil_r.
Qed.

Lemma reasoner_requests_no_payload (t : list event) :
  generated_payloads (reasoner_requests t) = [].
Proof.
  induction t as [|e t IH]; [reflexivity|]. destruct e; cbn; auto.
Qed.

Lemma chat_first_payload (user_input : str) (m : machine) :
  let m0 := append_message m (plain_message user user_input) in
  let context := fst (synthesize_memory_context cfg user_input m0) in
  exists more,
    generated_payloads (trace (machine_of (chat cfg user_input m)))
    = generated_payloads (trace m)
      ++ api_payload_messages cfg
           (prune_between_turns cfg (messages m ++ [plain_message user user_input]))
           context
      :: more
    /\ length more <= MAX_TOOL_ITERATIONS cfg.
Proof.
  cbv zeta. unfold chat. cbv zeta.
  set (m0 := append_message m (plain_message user user_input)).
  destruct (synthesize_memory_context_run user_input m0)
    as [_ [_ [Hm [requests [msgs [Ht [Hq _]]]]]]].
  destruct (synthesize_memory_context cfg user_input m0) as [ctx m1].
  cbn [fst snd] in *.
  destruct (chat_with_context_first_payload user_input ctx m1) as [more [E Hl]].
  exists more. split; [|exact Hl].
  rewrite E, Hm, Ht. subst m0. cbn [append_message set_messages messages trace].
  f_equal. rewrite !generated_payloads_app.
  assert (Hr : generated_payloads requests = [])
    by (rewrite <- Hq; apply reasoner_requests_no_payload).
  rewrite Hr. destruct (is_empty ctx); cbn; now rewrite app_nil_r.
Qed.

Lemma last_items_snoc {A : Type} (k : nat) (l : list A) (u : A) :
  exists s, last_items k (l ++ [u]) = s ++ [u].
Proof.
  destruct k; [now exists l|]. cbn [last_items].
  exists (skipn (length (l ++ [u]) - S k) l). rewrite skipn_app.
  replace (length (l ++ [u]) - S k - length l) with 0
    by (rewrite length_app; simpl; lia).
  reflexivity.
Qed.

Lemma head_and_last_snoc {A : Type} (k : nat) (l : list A) (u : A) :
  exists s, head_and_last k (l ++ [u]) = s ++ [u].
Proof.
  destruct (last_items_snoc k l u) as [s Hs].
  destruct l as [|y l]; cbn [app head_and_last] in *.
  - exists (u :: s). now rewrite Hs.
  - exists (y :: s). now rewrite Hs.
Qed.

Lemma synthesize_memory_context_events (user_input : str) (m : machine) :
  exists memory,
    trace (snd (synthesize_memory_context cfg user_input m)) = trace m ++ memory
    /\ Forall (fun e => memory_event e = true) memory
    /\ messages (snd (synthesize_memory_context cfg user_input m)) = messages m.
Proof.
  destruct (synthesize_memory_context_run user_input m)
    as [_ [_ [Hm [requests [msgs [Ht [Hq _]]]]]]].
  eexists. split; [exact Ht|]. split; [|exact Hm].
  apply Forall_app. split.
  - rewrite <- Hq. unfold reasoner_requests.
    apply Forall_forall. intros e He. apply filter_In in He as [_ He].
    now destruct e.
  - destruct (is_empty _); now repeat constructor.
Qed.

(** X13.  When the first request of a turn to the primary model times out
    (and the loop has a round at all), the reply is the text of the timeout
    error; that text is stored in the history as the answer of the
    assistant and logged as the response, and no tool is executed. *)
Theorem chat_api_timeout (user_input : str) (m : machine) (w : World) :
  let m0 := append_message m (plain_message user user_input) in
  let context := fst (synthesize_memory_context cfg user_input m0) in
  let m1 := snd (synthesize_memory_context cfg user_input m0) in
  let history :=
    prune_between_turns cfg (messages m ++ [plain_message user user_input]) in
  1 <= MAX_TOOL_ITERATIONS cfg ->
  post_chat (api_payload_messages cfg history context) (world m1)
  = (Api_timeout, w) ->
  exists m',
    chat cfg user_input m
    = Returned (html_unescape (lit "[Error: API request timed out.]")) m'
    /\ messages m'
       = history ++ [plain_message assistant (lit "[Error: API request timed out.]")]
    /\ interactions_logged (trace m')
       = interactions_logged (trace m)
         ++ [(user_input, lit "[Error: API request timed out.]")]
    /\ tool_executions (trace m') = tool_executions (trace m).
Proof.
  cbv zeta. intros Hcap. unfold chat. cbv zeta.
  set (m0 := append_message m (plain_message user user_input)).
  destruct (synthesize_memory_context_events user_input m0)
    as [memory [Ht [Hf Hm]]].
  destruct (synthesize_memory_context cfg user_input m0) as [ctx m1].
  cbn [fst snd] in *. subst m0. cbn [append_message set_messages messages trace] in *.
  intro Hpost.
  unfold chat_with_context. cbv zeta. unfold _get_llm_response. cbv zeta.
  cbn [set_messages messages world]. rewrite Hm, Hpost.
  destruct (MAX_TOOL_ITERATIONS cfg) as [|n]; [lia|].
  cbn [tool_loop].
  rewrite handle_tool_calls_no_block by reflexivity.
  cbn [is_empty].
  assert (F : final_user_visible_response (lit "[Error: API request timed out.]")
              = lit "[Error: API request timed out.]") by (vm_compute; reflexivity).
  rewrite F. eexists. split; [reflexivity|].
  destruct (memory_events_quiet memory Hf) as [_ [_ [Hi He]]].
  cbn [observe append_message set_messages messages trace]. rewrite Ht.
  unfold tool_executions in *.
  rewrite !interactions_logged_app, !filter_app, Hi, He.
  cbn. rewrite !app_nil_r. now repeat split.
Qed.

(** X14.  When the first reply of a turn has a null content (and the loop
    has a round at all), [chat] raises [TypeError]: nothing is returned and
    no interaction is logged, and the history is left with the message of
    the user as its last entry, without an answer. *)
Theorem chat_null_content (user_input : str) (m : machine)
    (reasoning : option str) (w : World) :
  let m0 := append_message m (plain_message user user_input) in
  let context := fst (synthesize_memory_context cfg user_input m0) in
  let m1 := snd (synthesize_memory_context cfg user_input m0) in
  let history :=
    prune_between_turns cfg (messages m ++ [plain_message user user_input]) in
  1 <= MAX_TOOL_ITERATIONS cfg ->
  post_chat (api_payload_messages cfg history context) (world m1)
  = (Api_message None reasoning, w) ->
  exists m',
    chat cfg user_input m = Raised TypeError m'
    /\ messages m' = history
    /\ last history no_message = plain_message user user_input
    /\ interactions_logged (trace m') = interactions_logged (trace m).
Proof.
  cbv zeta. intros Hcap. unfold chat. cbv zeta.
  set (m0 := append_message m (plain_message user user_input)).
  destruct (synthesize_memory_context_events user_input m0)
    as [memory [Ht [Hf Hm]]].
  destruct (synthesize_memory_context cfg user_input m0) as [ctx m1].
  cbn [fst snd] in *. subst m0. cbn [append_message set_messages messages trace] in *.
  intro Hpost.
  unfold chat_with_context. cbv zeta. unfold _get_llm_response. cbv zeta.
  cbn [set_messages messages world]. rewrite Hm, Hpost.
  destruct (MAX_TOOL_ITERATIONS cfg) as [|n]; [lia|].
  cbn [tool_loop _handle_tool_calls].
  eexists. split; [reflexivity|].
  destruct (memory_events_quiet memory Hf) as [_ [_ [Hi _]]].
  cbn [observe set_messages messages trace]. rewrite Ht.
  rewrite !interactions_logged_app, Hi. cbn [interactions_logged]. rewrite !app_nil_r.
  repeat split.
  unfold prune_between_turns.
  destruct (_ <? _); [|apply last_snoc].
  destruct (head_and_last_snoc (max_history cfg * 2) (messages m)
              (plain_message user user_input)) as [s ->].
  apply last_snoc.
Qed.





End Turn.

(* ------------------------------------------------------------------ *)
(** ** The registry of the tools: lemmas and theorems *)
(* ------------------------------------------------------------------ *)

Lemma dict_lookup_set_same {A : Type} (k : str) (v : A) (l : list (str * A)) :
  dict_lookup k (dict_set k v l) = Some v.
Proof.
  induction l as [|[k0 x] l IH]; cbn [dict_set dict_lookup].
  - now rewrite str_eqb_refl.
  - destruct (str_eqb k0 k) eqn:E; cbn [dict_lookup]; now rewrite E.
Qed.

Lemma dict_lookup_set_other {A : Type} (k k' : str) (v : A) (l : list (str * A)) :
  k' <> k -> dict_lookup k' (dict_set k v l) = dict_lookup k' l.
Proof.
  intro N. induction l as [|[k0 x] l IH]; cbn [dict_set dict_lookup].
  - destruct (str_eqb k k') eqn:E; [|reflexivity].
    apply str_eqb_eq in E. congruence.
  - destruct (str_eqb k0 k) eqn:E; cbn [dict_lookup].
    + apply str_eqb_eq in E. subst k0.
      destruct (str_eqb k k') eqn:E'; [|reflexivity].
      apply str_eqb_eq in E'. congruence.
    + now rewrite IH.
Qed.

Lemma dict_lookup_None {A : Type} (k : str) (l : list (str * A)) :
  dict_lookup k l = None <-> ~ In k (map fst l).
Proof.
  induction l as [|[k0 x] l IH]; cbn [dict_lookup map fst In]; [tauto|].
  destruct (str_eqb k0 k) eqn:E.
  - apply str_eqb_eq in E. split; [discriminate | tauto].
  - assert (k0 <> k) by (intro H; apply str_eqb_eq in H; congruence). tauto.
Qed.

Lemma dict_set_keys {A : Type} (k : str) (v : A) (l : list (str * A)) :
  map fst (dict_set k v l)
  = match dict_lookup k l with
    | Some _ => map fst l
    | None => map fst l ++ [k]
    end.
Proof.
  induction l as [|[k0 x] l IH]; cbn [dict_set dict_lookup map fst app];
    [reflexivity|].
  destruct (str_eqb k0 k) eqn:E; cbn [map fst]; [reflexivity|].
  rewrite IH. now destruct (dict_lookup k l).
Qed.

Lemma dict_set_NoDup {A : Type} (k : str) (v : A) (l : list (str * A)) :
  NoDup (map fst l) -> NoDup (map fst (dict_set k v l)).
Proof.
  intro H. rewrite dict_set_keys.
  destruct (dict_lookup k l) eqn:E; [exact H|].
  apply dict_lookup_None in E.
  apply NoDup_rev in H. rewrite <- (rev_involutive (map fst l ++ [k])).
  apply NoDup_rev. rewrite rev_app_distr. cbn [rev app].
  constructor; [|exact H]. now rewrite <- in_rev.
Qed.

Lemma dict_set_length {A : Type} (k : str) (v : A) (l : list (str * A)) :
  length (dict_set k v l)
  = length l + match dict_lookup k l with Some _ => 0 | None => 1 end.
Proof.
  rewrite <- (length_map fst), dict_set_keys.
  destruct (dict_lookup k l); rewrite ?length_app, length_map; simpl; lia.
Qed.

Module RegistryFacts.
Import Registry.

Lemma offers_iff (schemas : list tool_schema) (tool_name : str) :
  offers schemas tool_name = true
  <-> tool_name <> []
      /\ exists s, In s schemas /\ schema_name s = Some tool_name.
Proof.
  unfold offers. rewrite existsb_exists. split.
  - intros [s [Hs H]]. destruct (schema_name s) as [n|] eqn:E; [|discriminate].
    apply andb_true_iff in H as [Hn He]. apply str_eqb_eq in He. subst n.
    split; [|now exists s]. intros ->. discriminate.
  - intros [Hn [s [Hs E]]]. exists s. split; [exact Hs|]. rewrite E.
    rewrite str_eqb_refl. destruct tool_name; [contradiction | reflexivity].
Qed.

Lemma register_all (agent_name : str) (schemas : list tool_schema) :
  forall r,
    let r' := fold_left (register agent_name) schemas r in
    all_tool_schemas r' = all_tool_schemas r ++ filter named schemas
    /\ (NoDup (map fst (tool_to_agent_map r)) ->
        NoDup (map fst (tool_to_agent_map r')))
    /\ (forall tool_name,
          dict_lookup tool_name (tool_to_agent_map r')
          = if offers schemas tool_name then Some agent_name
            else dict_lookup tool_name (tool_to_agent_map r))
    /\ length (all_tool_schemas r') + length (tool_to_agent_map r)
       + length (warnings r)
       = length (all_tool_schemas r) + length (tool_to_agent_map r')
         + length (warnings r').
Proof.
  induction schemas as [|s schemas IH]; intro r; cbv zeta.
  - cbn [fold_left filter offers existsb]. rewrite app_nil_r.
    repeat split; auto.
  - cbn [fold_left filter].
    destruct (IH (register agent_name r s)) as [Ha [Hd [Hl Hn]]].
    assert (Eo : forall t,
               offers (s :: schemas) t
               = match schema_name s with
                 | Some n => negb (is_empty n) && str_eqb n t
                 | None => false
                 end || offers schemas t) by reflexivity.
    destruct (named s) eqn:Es.
    + unfold named in Es.
      destruct (schema_name s) as [n|] eqn:En; [|discriminate].
      assert (Er : register agent_name r s
                   = mkRegistry
                       (all_tool_schemas r ++ [s])
                       (dict_set n agent_name (tool_to_agent_map r))
                       (warnings r
                        ++ match dict_lookup n (tool_to_agent_map r) with
                           | Some _ => [(n, agent_name)]
                           | None => []
                           end))
        by (unfold register; now rewrite En, Es).
      rewrite Er in *. cbn [all_tool_schemas tool_to_agent_map warnings] in *.
      split; [now rewrite Ha, <- app_assoc|]. split.
      { intro H. apply Hd. now apply dict_set_NoDup. }
      split.
      { intro tool_name. rewrite Hl, Eo, Es. cbn [andb].
        destruct (offers schemas tool_name);
          [now rewrite orb_true_r|]. rewrite orb_false_r.
        destruct (str_eqb n tool_name) eqn:E.
        - apply str_eqb_eq in E. subst. apply dict_lookup_set_same.
        - apply dict_lookup_set_other. intros ->.
          now rewrite str_eqb_refl in E. }
      rewrite dict_set_length, !length_app in Hn.
      destruct (dict_lookup n (tool_to_agent_map r)); cbn [length] in *; lia.
    + assert (Er : register agent_name r s = r).
      { unfold register, named in *.
        destruct (schema_name s); [now rewrite Es | reflexivity]. }
      rewrite Er in *. split; [exact Ha|]. split; [exact Hd|].
      split; [|exact Hn].
      intro tool_name. rewrite Hl, Eo. unfold named in Es.
      destruct (schema_name s); [now rewrite Es | reflexivity].
Qed.

Lemma collect_from_all (agents : list (str * list tool_schema)) :
  forall r,
    let r' := collect_from r agents in
    all_tool_schemas r'
    = all_tool_schemas r ++ filter named (concat (map snd agents))
    /\ (NoDup (map fst (tool_to_agent_map r)) ->
        NoDup (map fst (tool_to_agent_map r')))
    /\ (forall tool_name,
          dict_lookup tool_name (tool_to_agent_map r')
          = owner agents tool_name
                  (dict_lookup tool_name (tool_to_agent_map r)))
    /\ length (all_tool_schemas r') + length (tool_to_agent_map r)
       + length (warnings r)
       = length (all_tool_schemas r) + length (tool_to_agent_map r')
         + length (warnings r').
Proof.
  induction agents as [|[a schemas] agents IH]; intro r; cbv zeta.
  - cbn. rewrite app_nil_r. repeat split; auto.
  - unfold collect_from, owner in *. cbn [fold_left map concat fst snd].
    destruct (register_all a schemas r) as [Ha [Hd [Hl Hn]]].
    destruct (IH (fold_left (register a) schemas r)) as [Ha' [Hd' [Hl' Hn']]].
    split; [now rewrite Ha', Ha, filter_app, <- app_assoc|].
    split; [auto|]. split.
    + intro tool_name. now rewrite Hl', Hl.
    + lia.
Qed.

Lemma owner_keeps (agents : list (str * list tool_schema)) (tool_name : str)
    (before : option str) :
  (forall agent_name, ~ provides agents agent_name tool_name) ->
  owner agents tool_name before = before.
Proof.
  revert before; induction agents as [|[a schemas] agents IH]; intros before H;
    [reflexivity|].
  unfold owner in *. cbn [fold_left fst snd].
  destruct (offers schemas tool_name) eqn:E.
  - apply offers_iff in E as [_ [s [Hs En]]]. exfalso.
    apply (H a). exists schemas, s. repeat split; auto. now left.
  - apply IH. intros a' [ss [s [Hin [Hs En]]]].
    apply (H a'). exists ss, s. repeat split; auto. now right.
Qed.

Lemma owner_provides (agents : list (str * list tool_schema)) (tool_name : str) :
  forall before agent_name,
    owner agents tool_name before = Some agent_name ->
    before = Some agent_name
    \/ (tool_name <> [] /\ provides agents agent_name tool_name).
Proof.
  induction agents as [|[a schemas] agents IH]; intros before agent_name;
    [now left|].
  unfold owner in *. cbn [fold_left fst snd]. intro H.
  apply IH in H as [H | [Hn [ss [s [Hin [Hs En]]]]]].
  - destruct (offers schemas tool_name) eqn:E; [|now left].
    injection H as <-. apply offers_iff in E as [Hn [s [Hs En]]].
    right. split; [exact Hn|]. exists schemas, s. repeat split; auto. now left.
  - right. split; [exact Hn|]. exists ss, s. repeat split; auto. now right.
Qed.
End RegistryFacts.

(** X16.  After [_collect_all_tool_schemas], the tool map has each name
    once and no empty name; a name in it goes to an agent that provides a
    tool of that name; and a tool that several agents provide goes to the
    last of them in the order of registration. *)
Theorem collect_all_tool_schemas_map
    (agents : list (str * list Registry.tool_schema)) :
  let r := Registry._collect_all_tool_schemas agents in
  NoDup (map fst (Registry.tool_to_agent_map r))
  /\ (forall tool_name agent_name,
        dict_lookup tool_name (Registry.tool_to_agent_map r) = Some agent_name ->
        tool_name <> [] /\ Registry.provides agents agent_name tool_name)
  /\ (forall before agent_name schemas after tool_name,
        agents = before ++ (agent_name, schemas) :: after ->
        tool_name <> [] ->
        (exists s, In s schemas /\ Registry.schema_name s = Some tool_name) ->
        (forall later, ~ Registry.provides after later tool_name) ->
        dict_lookup tool_name (Registry.tool_to_agent_map r) = Some agent_name).
Proof.
  cbv zeta.
  destruct (RegistryFacts.collect_from_all agents (Registry.mkRegistry [] [] []))
    as [_ [Hd [Hl _]]].
  change (Registry.collect_from (Registry.mkRegistry [] [] []) agents)
    with (Registry._collect_all_tool_schemas agents) in *.
  cbn [Registry.tool_to_agent_map dict_lookup map] in *.
  split; [apply Hd; constructor|]. split.
  - intros tool_name agent_name H. rewrite Hl in H.
    apply RegistryFacts.owner_provides in H as [H|H]; [discriminate | exact H].
  - intros before agent_name schemas after tool_name -> Hn Hs Hafter.
    rewrite Hl. unfold Registry.owner.
    rewrite fold_left_app. cbn [fold_left fst snd].
    assert (E : Registry.offers schemas tool_name = true)
      by (apply RegistryFacts.offers_iff; now split).
    rewrite E. now apply RegistryFacts.owner_keeps.
Qed.

(** X17.  [all_tool_schemas] lists every schema that has a name that is not
    empty, in the order of the agents and of their schemas, also a schema
    whose tool another agent takes over: the list is longer than the tool
    map by the number of warnings printed. *)
Theorem collect_all_tool_schemas_listing
    (agents : list (str * list Registry.tool_schema)) :
  let r := Registry._collect_all_tool_schemas agents in
  Registry.all_tool_schemas r
  = filter Registry.named (concat (map snd agents))
  /\ length (Registry.all_tool_schemas r)
     = length (Registry.tool_to_agent_map r) + length (Registry.warnings r).
Proof.
  cbv zeta.
  destruct (RegistryFacts.collect_from_all agents (Registry.mkRegistry [] [] []))
    as [Ha [_ [_ Hn]]].
  change (Registry.collect_from (Registry.mkRegistry [] [] []) agents)
    with (Registry._collect_all_tool_schemas agents) in *.
  cbn [Registry.all_tool_schemas Registry.tool_to_agent_map Registry.warnings
       app length] in *.
  split; [exact Ha | lia].
Qed.

(* ------------------------------------------------------------------ *)
(** ** The callers of [chat]: theorems *)
(* ------------------------------------------------------------------ *)

Section Session.
Context {C : Collaborators}.
Variable lower : str -> str.
Variable cfg : config.


Lemma fresh_payload (query ctx : str) (w : World) :
  api_payload_messages cfg
    (prune_between_turns cfg
       (messages (new_orchestrator cfg w) ++ [plain_message user query]))
    ctx
  = mkWire system None (effective_system_prompt cfg)
    :: (if is_empty (strip ctx) then [] else [memory_hint ctx])
    ++ [mkWire user None query].
Proof.
  assert (Hh : (if negb (is_empty ctx) && negb (is_empty (strip ctx))
                then [memory_hint ctx] else [])
               = if is_empty (strip ctx) then [] else [memory_hint ctx]).
  { destruct ctx as [|c s]; [reflexivity|].
    cbn [is_empty negb andb]. now destruct (is_empty (strip (c :: s))). }
  assert (Hp : forall h,
             h = [plain_message system (effective_system_prompt cfg);
                  plain_message user query]
             \/ h = [plain_message system (effective_system_prompt cfg);
                     plain_message system (effective_system_prompt cfg);
                     plain_message user query] ->
             api_messages (from_start_index (_prune_history_for_api h))
             = [mkWire user None query]).
  { intros h [-> | ->]; unfold _prune_history_for_api;
      cbn [last_true_user_turn_idx];
      change (true_user_turn (plain_message system (effective_system_prompt cfg)))
        with false;
      destruct (true_user_turn (plain_message user query)); reflexivity. }
  unfold api_payload_messages. cbv zeta. rewrite Hh. cbn [app]. f_equal. f_equal.
  apply Hp. unfold prune_between_turns, new_orchestrator. cbn [messages app length].
  destruct (max_history cfg * 2 + 1 <? 2) eqn:E; [|now left].
  apply Nat.ltb_lt in E.
  assert (E0 : max_history cfg * 2 = 0) by lia. rewrite E0. now right.
Qed.

(** X19.  Where [Orchestrator()] raises, the endpoint answers with status
    500 and [chat] is not called.  Where it returns, the query is answered
    from a new history: the first request to the primary model holds the
    system prompt, the memory hint when the memory context of the query is
    not blank, and the query as the message of the user, and nothing else,
    whatever [max_history] is, and at most [MAX_TOOL_ITERATIONS] requests
    follow it.  The answer has status 500 exactly when [Orchestrator()]
    raises or [chat] raises, and otherwise carries the reply of [chat]. *)
Theorem agent_general_query_fresh_history (query : str)
    (constructed : py_exn + World) :
  let answer := fst (agent_general_query cfg query constructed) in
  match constructed with
  | inl _ => agent_general_query cfg query constructed = (Http_500, None)
  | inr w =>
      let m0 := append_message (new_orchestrator cfg w) (plain_message user query) in
      let context := fst (synthesize_memory_context cfg query m0) in
      exists m' more,
        snd (agent_general_query cfg query constructed) = Some m'
        /\ m' = machine_of (chat cfg query (new_orchestrator cfg w))
        /\ generated_payloads (trace m')
           = (mkWire system None (effective_system_prompt cfg)
              :: (if is_empty (strip context) then [] else [memory_hint context])
              ++ [mkWire user None query])
             :: more
        /\ length more <= MAX_TOOL_ITERATIONS cfg
  end
  /\ (answer = Http_500
      <-> (exists e, constructed = inl e)
          \/ (exists w e m1,
                constructed = inr w
                /\ chat cfg query (new_orchestrator cfg w) = Raised e m1))
  /\ (forall response, answer = Http_200 response ->
        exists w m1,
          constructed = inr w
          /\ chat cfg query (new_orchestrator cfg w) = Returned response m1).
Proof.
  cbv zeta. destruct constructed as [e|w].
  - split; [reflexivity|]. split.
    + split; [intros _; left; now exists e | reflexivity].
    + discriminate.
  - destruct (chat_first_payload cfg query (new_orchestrator cfg w))
      as [more [E Hl]].
    rewrite fresh_payload in E. unfold agent_general_query.
    destruct (chat cfg query (new_orchestrator cfg w)) as [reply m1|e m1] eqn:Ec;
      cbn [machine_of fst snd] in *.
    + split; [now exists m1, more|]. split.
      * split; [discriminate|].
        intros [[e H] | [w' [e [m2 [[= <-] H]]]]]; congruence.
      * intros response [= <-]. now exists w, m1.
    + split; [now exists m1, more|]. split.
      * split; [|reflexivity]. intros _. right. now exists w, e, m1.
      * discriminate.
Qed.
End Session.

(* ------------------------------------------------------------------ *)
(** ** What the pruning of the history drops *)
(* ------------------------------------------------------------------ *)

Lemma head_and_last_drops {A : Type} (k : nat) (l : list A) :
  1 <= k -> 1 + k < length l ->
  exists hd dropped kept,
    l = hd :: dropped ++ kept
    /\ dropped <> [] /\ length kept = k
    /\ head_and_last k l = hd :: kept.
Proof.
  intros Hk Hl. destruct l as [|hd tl]; [simpl in Hl; lia|].
  cbn [length] in Hl.
  exists hd, (firstn (length tl - k) tl), (skipn (length tl - k) tl).
  split; [now rewrite firstn_skipn|]. split.
  - intro E. apply (f_equal (@length A)) in E.
    rewrite length_firstn in E. simpl in E. lia.
  - split; [rewrite length_skipn; lia|].
    unfold head_and_last, last_items. destruct k as [|k]; [lia|].
    cbn [length].
    replace (S (length tl) - S k) with (S (length tl - S k)) by lia.
    reflexivity.
Qed.

(** X20.  Each of the two prunings of [chat] leaves a history that is not
    longer than its bound as it is.  Otherwise the one between the turns,
    for [max_history] at least 1, keeps the message at the head and the
    last [2 * max_history] messages and drops the messages between them,
    which are the oldest; and the one after a dispatch keeps the head and
    the last [3 * max_history + results] messages, among them the results
    just stored. *)
Theorem pruning_drops_the_oldest (cfg : config) (msgs : list message) :
  (length msgs <= max_history cfg * 2 + 1 -> prune_between_turns cfg msgs = msgs)
  /\ (1 <= max_history cfg -> max_history cfg * 2 + 1 < length msgs ->
      exists hd dropped kept,
        msgs = hd :: dropped ++ kept
        /\ dropped <> [] /\ length kept = max_history cfg * 2
        /\ prune_between_turns cfg msgs = hd :: kept)
  /\ (forall results,
        length msgs <= max_history cfg * 3 + 1 + results ->
        prune_after_dispatch cfg results msgs = msgs)
  /\ (forall results,
        1 <= results -> max_history cfg * 3 + 1 + results < length msgs ->
        exists hd dropped kept,
          msgs = hd :: dropped ++ kept
          /\ dropped <> [] /\ length kept = max_history cfg * 3 + results
          /\ prune_after_dispatch cfg results msgs = hd :: kept).
Proof.
  split; [|split; [|split]].
  - intro H. unfold prune_between_turns.
    destruct (_ <? _) eqn:E; [|reflexivity]. apply Nat.ltb_lt in E. lia.
  - intros H1 H2. unfold prune_between_turns.
    destruct (_ <? _) eqn:E; [|apply Nat.ltb_ge in E; lia].
    apply head_and_last_drops; lia.
  - intros results H. unfold prune_after_dispatch.
    destruct (_ <? _) eqn:E; [|reflexivity]. apply Nat.ltb_lt in E. lia.
  - intros results H1 H2. unfold prune_after_dispatch.
    destruct (_ <? _) eqn:E; [|apply Nat.ltb_ge in E; lia].
    apply head_and_last_drops; lia.
Qed.

(* ------------------------------------------------------------------ *)
(** ** Where the memory context comes from *)
(* ------------------------------------------------------------------ *)

Section ReasonerResult.
Context {C : Collaborators}.
Variable cfg : config.

(** What the loop of the memory reasoner ends with: a reply of the model
    without a tool call, trimmed, or one of the three texts of failure. *)
Lemma reasoner_loop_result (q : str) (n : nat) :
  forall msgs m,
    role (last msgs no_message) <> assistant ->
    let final_synthesis := fst (fst (reasoner_loop q n [] msgs m)) in
    (exists msgs' w c w',
       post_reasoner msgs' w = (Reasoner_content c, w')
       /\ final_synthesis = strip c
       /\ TOOL_CALL_PATTERN_finditer (strip c) = [])
    \/ final_synthesis = MR_API_ERROR
    \/ final_synthesis = MR_UNEXPECTED_ERROR
    \/ final_synthesis = MR_MAX_ITERATIONS.
Proof.
  induction n as [|n IH]; intros msgs m Hlast; cbv zeta.
  - cbn [reasoner_loop fst]. unfold reasoner_for_else. cbv zeta.
    destruct (Role_eqb (role (last msgs no_message)) assistant) eqn:E.
    + destruct (role (last msgs no_message)); try discriminate. congruence.
    + cbn. auto.
  - cbn [reasoner_loop].
    destruct (post_reasoner msgs (world m)) as [[c | |] w] eqn:P;
      [|cbn; auto|cbn; auto].
    cbv zeta.
    destruct (is_empty (TOOL_CALL_PATTERN_finditer (strip c))) eqn:E.
    + cbn [fst]. apply is_empty_true in E. left.
      now exists msgs, (world m), c, w.
    + destruct (reasoner_tool_calls q _ _ _) as [[[|] msgs2] m2] eqn:R;
        [|cbn; auto].
      apply IH.
      rewrite (reasoner_tool_calls_last _ _ _ _ _ _ R); [discriminate|].
      right. now apply is_empty_false.
Qed.

(** X21.  What [_invoke_memory_reasoning_llm] returns is the empty text, or
    a reply of the memory-reasoning model that holds no tool call, trimmed,
    or one of the three texts of failure (API error, unexpected error, the
    rounds used up), which are returned like a synthesis. *)
Theorem memory_reasoning_result (q : str) (n : nat) (m : machine) :
  let returned := fst (_invoke_memory_reasoning_llm cfg q n m) in
  returned = []
  \/ (exists msgs w c w',
        post_reasoner msgs w = (Reasoner_content c, w')
        /\ returned = strip c
        /\ TOOL_CALL_PATTERN_finditer returned = [])
  \/ returned = MR_API_ERROR
  \/ returned = MR_UNEXPECTED_ERROR
  \/ returned = MR_MAX_ITERATIONS.
Proof.
  cbv zeta. unfold _invoke_memory_reasoning_llm.
  pose proof (reasoner_loop_result q n (reasoner_start cfg q) m
                (reasoner_start_last cfg q)) as H.
  pose proof (unprocessed_tool_call_check_idle cfg q n m) as Hc.
  cbv zeta in H, Hc.
  destruct (reasoner_loop q n [] (reasoner_start cfg q) m) as [[f msgs] m1].
  cbn [fst] in H, Hc. cbv zeta. rewrite Hc.
  destruct (contains SENTINEL f); [now left|].
  destruct (is_empty (strip f)); [now left|]. cbn [fst].
  destruct H as [[msgs' [w [c [w' [P [-> F]]]]]] | [-> | [-> | ->]]].
  - right. left. exists msgs', w, c, w'. rewrite strip_idem. now repeat split.
  - right. right. left. reflexivity.
  - right. right. right. left. reflexivity.
  - right. right. right. right. reflexivity.
Qed.

End ReasonerResult.

(* ------------------------------------------------------------------ *)
(** ** The short-term memory of the conversation agent: theorems *)
(* ------------------------------------------------------------------ *)

Lemma dict_lookup_del_same {A : Type} (k : str) (l : list (str * A)) :
  dict_lookup k (dict_del k l) = None.
Proof.
  apply dict_lookup_None. unfold dict_del. intro H.
  apply in_map_iff in H as [[k0 x] [E H]]. cbn [fst] in E. subst k0.
  apply filter_In in H as [_ H]. cbn [fst] in H.
  now rewrite str_eqb_refl in H.
Qed.

Lemma dict_lookup_del_other {A : Type} (k k' : str) (l : list (str * A)) :
  k' <> k -> dict_lookup k' (dict_del k l) = dict_lookup k' l.
Proof.
  intro N. induction l as [|[k0 x] l IH]; [reflexivity|].
  unfold dict_del in *. cbn [filter fst dict_lookup].
  destruct (str_eqb k0 k) eqn:E; cbn [negb dict_lookup].
  - apply str_eqb_eq in E. subst k0.
    destruct (str_eqb k k') eqn:E'; [|exact IH].
    apply str_eqb_eq in E'. congruence.
  - now rewrite IH.
Qed.

Lemma dict_del_keys {A : Type} (k : str) (l : list (str * A)) :
  map fst (dict_del k l) = filter (fun k0 => negb (str_eqb k0 k)) (map fst l).
Proof.
  induction l as [|[k0 x] l IH]; [reflexivity|].
  unfold dict_del in *. cbn [filter map fst].
  destruct (negb (str_eqb k0 k)); cbn [map fst]; now rewrite IH.
Qed.

Lemma dict_del_absent {A : Type} (k : str) (l : list (str * A)) :
  dict_lookup k l = None -> dict_del k l = l.
Proof.
  induction l as [|[k0 x] l IH]; [reflexivity|].
  unfold dict_del in *. cbn [dict_lookup filter fst].
  destruct (str_eqb k0 k); [discriminate|]. intro H. cbn [negb].
  now rewrite IH.
Qed.

Section ConversationMemory.
Import ConversationMemoryAgent.
Context {C : Collaborators}.

(** X23.  After [save_memory(key, value)], [recall_memory(key)] gives the
    value back as [json.dumps] writes it, unless the value is a JSON null:
    then it answers that the memory is not found, although the key is among
    the keys of the memory.  What is recalled under every other key is as
    before, and the keys stay distinct. *)
Theorem save_memory_then_recall (key : str) (value : json) (mem : memory) :
  let mem' := snd (save_memory key value mem) in
  recall_memory key mem'
  = match value with
    | JNull => NOT_FOUND key
    | _ => lit "[Recalled memory for key '" ++ key ++ lit "': "
           ++ json_dumps value ++ lit "]"
    end
  /\ In key (map fst mem')
  /\ (forall other, other <> key ->
        recall_memory other mem' = recall_memory other mem)
  /\ (NoDup (map fst mem) -> NoDup (map fst mem')).
Proof.
  cbv zeta. unfold save_memory, recall_memory. cbn [snd].
  rewrite dict_lookup_set_same. split; [now destruct value|]. split.
  - rewrite dict_set_keys. destruct (dict_lookup key mem) eqn:E.
    + destruct (in_dec (list_eq_dec N.eq_dec) key (map fst mem)) as [H|H];
        [exact H|]. apply dict_lookup_None in H. congruence.
    + apply in_or_app. right. now left.
  - split.
    + intros other N. now rewrite dict_lookup_set_other.
    + apply dict_set_NoDup.
Qed.

(** X24.  After [clear_memory_key(key)], [recall_memory(key)] answers that
    the memory is not found and the key is no key of the memory, while
    what is recalled under every other key is as before.  The answer says
    that the key was cleared exactly when it was a key of the memory;
    otherwise the memory is left as it is. *)
Theorem clear_memory_key_then_recall (key : str) (mem : memory) :
  let answer := fst (clear_memory_key key mem) in
  let mem' := snd (clear_memory_key key mem) in
  recall_memory key mem' = NOT_FOUND key
  /\ ~ In key (map fst mem')
  /\ (forall other, other <> key ->
        recall_memory other mem' = recall_memory other mem)
  /\ (In key (map fst mem) ->
      answer = lit "[Memory cleared for key: '" ++ key ++ lit "']")
  /\ (~ In key (map fst mem) ->
      answer = lit "[Memory key '" ++ key ++ lit "' not found, nothing to clear]"
      /\ mem' = mem)
  /\ (NoDup (map fst mem) -> NoDup (map fst mem')).
Proof.
  cbv zeta. unfold clear_memory_key, recall_memory.
  destruct (dict_lookup key mem) as [v|] eqn:E; cbn [fst snd].
  - rewrite dict_lookup_del_same. split; [reflexivity|]. split.
    + apply dict_lookup_None, dict_lookup_del_same.
    + split; [intros other N; now rewrite dict_lookup_del_other|].
      split; [reflexivity|]. split.
      * intro H. apply dict_lookup_None in H. congruence.
      * rewrite dict_del_keys. apply NoDup_filter.
  - rewrite E. split; [reflexivity|]. split; [now apply dict_lookup_None|].
    split; [reflexivity|]. split.
    + intro H. apply dict_lookup_None in E. contradiction.
    + split; [now split | auto].
Qed.
End ConversationMemory.

(* ------------------------------------------------------------------ *)
(** ** Further examples *)
(* ------------------------------------------------------------------ *)

(** A reply with a call of [get_env] and a block that is no JSON: two
    results, one request, one execution. *)
Lemma handle_tool_calls_returns_witness :
  let C := Sample.collaborators (fun _ => Api_timeout) (fun _ => Reasoner_exception) [] in
  let cfg := Sample.cfg 15 10 false in
  let text := lit "Look: " ++ Sample.get_env_call ++ lit " and "
              ++ TOOL_OPEN ++ lit "{oops" ++ TOOL_CLOSE in
  exists found results m',
    _handle_tool_calls (C := C) cfg (Some text) (Sample.start C 0)
    = (inr (found, results), m')
    /\ length results = 2
    /\ found = [Sample.get_env_request]
    /\ trace m'
       = [Tool_executed (lit "system_env") (lit "get_env")
            (JDict [(lit "var_name", JStr (lit "PATH"))])].
Proof.
  cbv zeta.
  set (C := Sample.collaborators (fun _ => Api_timeout) (fun _ => Reasoner_exception) []).
  set (cfg := Sample.cfg 15 10 false).
  set (text := lit "Look: " ++ Sample.get_env_call ++ lit " and "
               ++ TOOL_OPEN ++ lit "{oops" ++ TOOL_CLOSE).
  assert (E : exists found results m',
             _handle_tool_calls (C := C) cfg (Some text) (Sample.start C 0)
             = (inr (found, results), m'))
    by (vm_compute; eexists _, _, _; reflexivity).
  destruct E as [found [results [m' E]]].
  destruct (handle_tool_calls_returns (C := C) cfg text _ _ _ _ E)
    as [Hl [Hf [_ [_ [Ht _]]]]].
  exists found, results, m'. split; [exact E|]. split; [|split].
  - rewrite Hl. vm_compute. reflexivity.
  - rewrite Hf. vm_compute. reflexivity.
  - rewrite Ht, Hf. vm_compute. reflexivity.
Defined.

(** The reasoning sent beside the content is not in what is left. *)
Lemma provider_reasoning_is_cut_witness :
  strip (lit " simple arithmetic ") <> []
  /\ strip_reasoning
       (llm_generated_text (Some (lit " The answer is 4."))
                           (Some (lit " simple arithmetic ")))
     = lit "The answer is 4.".
Proof.
  split; [vm_compute; discriminate|].
  rewrite provider_reasoning_is_cut by (vm_compute; discriminate).
  vm_compute. reflexivity.
Defined.

(** The cap 2 with a model that asks for a tool in every reply. *)
Lemma chat_cap_exhausted_witness :
  let response := lit "Working on it. " ++ Sample.get_env_call in
  let C := Sample.collaborators (fun _ => Api_message (Some response) None)
                                (fun _ => Reasoner_exception) [] in
  let cfg := Sample.cfg 15 2 false in
  exists reply m',
    chat (C := C) cfg (lit "go") (Sample.start C 0) = Returned reply m'
    /\ warned (trace m') = true
    /\ reply = []
    /\ length (generated_payloads (trace m')) = 3
    /\ interactions_logged (trace m') = [(lit "go", [])].
Proof.
  cbv zeta.
  set (C := Sample.collaborators _ _ _).
  set (cfg := Sample.cfg 15 2 false).
  assert (E : exists reply m',
             chat (C := C) cfg (lit "go") (Sample.start C 0) = Returned reply m'
             /\ warned (trace m') = true)
    by (vm_compute; eexists _, _; split; reflexivity).
  destruct E as [reply [m' [E W]]].
  destruct (chat_cap_exhausted (C := C) cfg (lit "go") (Sample.start C 0)
              reply m' E eq_refl W) as [Hr [Hg Hi]].
  exists reply, m'. repeat split; assumption.
Defined.

(** A turn without a tool call. *)
Lemma chat_reply_is_last_message_witness :
  let C := Sample.collaborators
             (fun _ => Api_message (Some (lit "The answer is 4.<|im_end|>")) None)
             (fun _ => Reasoner_exception) [] in
  let cfg := Sample.cfg 15 10 false in
  exists reply m' final calls,
    chat (C := C) cfg (lit "what's 2+2") (Sample.start C 0) = Returned reply m'
    /\ warned (trace m') = false
    /\ last (messages m') no_message = mkMessage assistant final calls None None
    /\ reply = html_unescape (final_user_visible_response final)
    /\ length (generated_payloads (trace m')) <= 10.
Proof.
  cbv zeta.
  set (C := Sample.collaborators _ _ _).
  set (cfg := Sample.cfg 15 10 false).
  assert (E : exists reply m',
             chat (C := C) cfg (lit "what's 2+2") (Sample.start C 0)
             = Returned reply m'
             /\ warned (trace m') = false)
    by (vm_compute; eexists _, _; split; reflexivity).
  destruct E as [reply [m' [E W]]].
  destruct (chat_reply_is_last_message (C := C) cfg _ _ reply m' E W)
    as [final [calls [Hl [Hr Hg]]]].
  exists reply, m', final, calls. repeat split; assumption.
Defined.

Lemma chat_keeps_first_message_witness :
  let C := Sample.collaborators
             (fun _ => Api_message (Some (lit "The answer is 4.")) None)
             (fun _ => Reasoner_exception) [] in
  let cfg := Sample.cfg 15 10 false in
  nth_error (messages (Sample.start C 0)) 0 = Some Sample.system_message
  /\ nth_error
       (messages (machine_of (chat (C := C) cfg (lit "what's 2+2")
                                   (Sample.start C 0)))) 0
     = Some Sample.system_message.
Proof.
  cbv zeta. split; [reflexivity|].
  apply chat_keeps_first_message. reflexivity.
Defined.

(** The endpoint does not answer in time. *)
Lemma chat_api_timeout_witness :
  let C := Sample.collaborators (fun _ => Api_timeout)
                                (fun _ => Reasoner_exception) [] in
  let cfg := Sample.cfg 15 10 false in
  exists m',
    chat (C := C) cfg (lit "hello") (Sample.start C 0)
    = Returned (lit "[Error: API request timed out.]") m'
    /\ messages m'
       = [Sample.system_message; plain_message user (lit "hello");
          plain_message assistant (lit "[Error: API request timed out.]")]
    /\ interactions_logged (trace m')
       = [(lit "hello", lit "[Error: API request timed out.]")]
    /\ tool_executions (trace m') = [].
Proof.
  cbv zeta.
  set (C := Sample.collaborators _ _ _).
  set (cfg := Sample.cfg 15 10 false).
  pose proof (chat_api_timeout (C := C) cfg (lit "hello") (Sample.start C 0) 1)
    as T.
  cbv zeta in T.
  destruct T as [m' [E [Hm [Hi He]]]].
  - vm_compute. lia.
  - vm_compute. reflexivity.
  - exists m'. split; [exact E|]. split; [|split].
    + rewrite Hm. vm_compute. reflexivity.
    + rewrite Hi. vm_compute. reflexivity.
    + rewrite He. vm_compute. reflexivity.
Defined.

(** The endpoint answers with a null content. *)
Lemma chat_null_content_witness :
  let C := Sample.collaborators (fun _ => Api_message None None)
                                (fun _ => Reasoner_exception) [] in
  let cfg := Sample.cfg 15 10 false in
  exists m',
    chat (C := C) cfg (lit "hello") (Sample.start C 0) = Raised TypeError m'
    /\ messages m' = [Sample.system_message; plain_message user (lit "hello")]
    /\ interactions_logged (trace m') = [].
Proof.
  cbv zeta.
  set (C := Sample.collaborators _ _ _).
  set (cfg := Sample.cfg 15 10 false).
  pose proof (chat_null_content (C := C) cfg (lit "hello") (Sample.start C 0)
                None 1) as T.
  cbv zeta in T.
  destruct T as [m' [E [Hm [_ Hi]]]].
  - vm_compute. lia.
  - vm_compute. reflexivity.
  - exists m'. split; [exact E|]. split.
    + rewrite Hm. vm_compute. reflexivity.
    + rewrite Hi. vm_compute. reflexivity.
Defined.


(** [read_file] goes to the agent registered last, [list_dir] stays with
    the first, and one warning is printed. *)
Lemma collect_all_tool_schemas_map_witness :
  let r := Registry._collect_all_tool_schemas SampleTools.agents in
  dict_lookup (lit "read_file") (Registry.tool_to_agent_map r) = Some (lit "rag")
  /\ dict_lookup (lit "list_dir") (Registry.tool_to_agent_map r)
     = Some (lit "file_system")
  /\ Registry.warnings r = [(lit "read_file", lit "rag")].
Proof.
  cbv zeta.
  pose proof (collect_all_tool_schemas_map SampleTools.agents) as T.
  cbv zeta in T. destruct T as [_ [_ H]].
  split; [|split].
  - apply (H [SampleTools.file_system] (lit "rag") (snd SampleTools.rag) []
             (lit "read_file")).
    + reflexivity.
    + discriminate.
    + exists (SampleTools.named_schema (lit "read_file")).
      split; [right; left; reflexivity | reflexivity].
    + intros later [schemas [s [[] _]]].
  - apply (H [] (lit "file_system") (snd SampleTools.file_system)
             [SampleTools.rag] (lit "list_dir")).
    + reflexivity.
    + discriminate.
    + exists (SampleTools.named_schema (lit "list_dir")).
      split; [right; left; reflexivity | reflexivity].
    + intros later [schemas [s [[E|[]] [Hs En]]]].
      injection E as _ <-.
      destruct Hs as [<-|[<-|[<-|[]]]]; vm_compute in En; discriminate.
  - vm_compute. reflexivity.
Defined.


(* ------------------------------------------------------------------ *)
(** ** The check after the memory reasoner *)
(* ------------------------------------------------------------------ *)

(** C2.  The memory probes find something and the memory-reasoning model
    answers with a text that starts a tool call and never closes it.  With
    [DEBUG] on as with [DEBUG] off, that text is returned as the
    synthesized context and is sent to the primary model in the memory
    hint, opening marker and request included.  The check after the loop
    does not see it, for it looks for complete blocks only, and what it
    does for a text with a complete block depends on [DEBUG]: with [DEBUG]
    off the text is left as it is, with [DEBUG] on it is replaced by the
    diagnostic text. *)
Theorem memory_reasoning_leaks_tool_call_syntax :
  let reply :=
    lit "see <tool_call>{" ++ Sample.quoted (lit "name") ++ lit ": "
    ++ Sample.quoted (lit "search_documents") ++ lit "}" in
  let C := Sample.collaborators (fun _ => Api_message (Some (lit "Hello!")) None)
                                (fun _ => Reasoner_content reply)
                                [JStr (lit "an old conversation")] in
  let leaks (debug : bool) :=
    exists m' m'' payload more,
      _invoke_memory_reasoning_llm (C := C) (Sample.cfg 15 10 debug) (lit "hello") 15
                                   (Sample.start C 0)
      = (reply, m')
      /\ chat (C := C) (Sample.cfg 15 10 debug) (lit "hello") (Sample.start C 0)
         = Returned (lit "Hello!") m''
      /\ generated_payloads (trace m'') = payload :: more
      /\ nth_error payload 1 = Some (memory_hint reply) in
  find TOOL_OPEN reply = Some 4
  /\ contains TOOL_OPEN (w_content (memory_hint reply)) = true
  /\ leaks true
  /\ leaks false
  /\ TOOL_CALL_PATTERN_finditer Sample.get_env_call = [Sample.get_env_json]
  /\ unprocessed_tool_call_check (Sample.cfg 15 10 false) Sample.get_env_call
     = Sample.get_env_call
  /\ unprocessed_tool_call_check (Sample.cfg 15 10 true) Sample.get_env_call
     = MR_UNPROCESSED_TOOL_CALL.
Proof.
  cbv zeta.
  split; [vm_compute; reflexivity|]. split; [vm_compute; reflexivity|].
  split; [vm_compute; eexists _, _, _, _; repeat split|].
  split; [vm_compute; eexists _, _, _, _; repeat split|].
  repeat split; vm_compute; reflexivity.
Qed.

